(** * PQC vs. SECOC DoS-evaluation harness: receivers, framing, reporting

    A shallow embedding of the Python sources of the harness
    ([secoc_receiver_tcp.py], [secoc_sender_tcp.py], [receiver_pqc.py],
    [sender_pqc.py], [dos_simulator.py], [normalize_results.py],
    [analyze_runs.py]) and the properties of its specification.

    Conventions of the embedding.
    - Byte strings are [list byte]; Python integers are [Z] or [nat]
      (lengths); Python floats are the rationals they denote ([Q]),
      rounding is not modelled.
    - What a function reads from its environment (the clock, the CPU
      meter, the random generator, the bytes a socket delivers) is an
      explicit argument.
    - SHA-256, HMAC-SHA-256 and the Dilithium2 verifier are external
      primitives, the fields of the class [Primitives]; the element that
      [set.pop()] picks is the field of the class [SetPop].  Statements
      hold for every instance.
    - Module-level mutable objects (the replay caches, the work queue) are
      fields of an explicit state that every function threads.  Calls are
      taken one after the other: the threads of the PQC receiver are not
      interleaved. *)

From Stdlib Require Import ZArith QArith Qround Qminmax Lqa List Sorted Ascii String Lia.
From Stdlib.Strings Require Import Byte.
From stdpp Require Import gmap strings list.

Close Scope Q_scope.
Open Scope Z_scope.

(** ** Python values shared by the modules *)

(** The exceptions that the modelled functions raise. *)
Inductive exn : Type :=
| ConnectionError (msg : string)
| SocketTimeout
| IndexError
| OverflowError
| ValueError
| FileNotFoundError (msg : string).

(** Result of a call whose loop is unrolled with fuel: a value, a raised
    exception, or fuel exhausted (shown below never to happen). *)
Inductive res (A : Type) : Type :=
| Ret (a : A)
| Raise (e : exn)
| OutOfFuel.
Arguments Ret {A} a.
Arguments Raise {A} e.
Arguments OutOfFuel {A}.

#[global] Instance byte_eq_decision : EqDecision byte := Byte.byte_eq_dec.

(** ** External primitives *)

(** The cryptographic library calls of the receivers.  [hashlib] and
    [hmac] are total on byte strings; the [oqs] verifier answers or
    raises. *)
Class Primitives : Type := {
  sha256_hexdigest : list byte -> string;
  hmac_sha256_digest : list byte -> list byte -> list byte;
  dilithium2_verify : list byte -> list byte -> list byte -> exn + bool
}.

(** [set.pop()]: which element of a non-empty set CPython removes is not
    specified; all that is known is that it is an element of the set. *)
Class SetPop : Type := {
  set_pop : gset string -> string;
  set_pop_elem : forall s : gset string, s <> ∅ -> set_pop s ∈ s
}.

(** ** Sockets and length-prefixed framing *)
Module Wire.

(** [int.from_bytes(raw, "big")]. *)
Definition int_from_bytes_big (raw : list byte) : Z :=
  fold_left (fun acc b => acc * 256 + Z.of_N (Byte.to_N b)) raw 0.

Definition byte_of_Z (z : Z) : byte :=
  default Byte.x00 (Byte.of_N (Z.to_N z)).

(** [n.to_bytes(2, "big")] for a length [n]: [OverflowError] above 65535. *)
Definition to_bytes2_big (n : Z) : exn + list byte :=
  if (n <? 0) || (65535 <? n) then inl OverflowError
  else inr [byte_of_Z (n / 256); byte_of_Z (n mod 256)].

(** One field as a sender writes it:
    [s.sendall(len(field).to_bytes(2, "big") + field)]. *)
Definition frame_field (field : list byte) : exn + list byte :=
  match to_bytes2_big (Z.of_nat (length field)) with
  | inl e => inl e
  | inr prefix => inr (prefix ++ field)
  end.

(** [struct.unpack(">Q", freshness)[0]]: exactly eight bytes, else
    [struct.error]. *)
Definition unpack_Q (freshness : list byte) : option Z :=
  if (length freshness =? 8)%nat then Some (int_from_bytes_big freshness)
  else None.

(** [message[:-8]] and [message[-8:]]. *)
Definition all_but_last8 (message : list byte) : list byte :=
  take (length message - 8) message.

Definition last8 (message : list byte) : list byte :=
  drop (length message - 8) message.

(** What the peer's TCP stack hands to successive [recv] calls: a
    segment of data, or nothing within the timeout.  An exhausted list
    is a connection that the peer has closed. *)
Inductive recv_event : Type :=
| Data (chunk : list byte)
| Stall.

Definition socket : Type := list recv_event.

Inductive recv_result : Type :=
| Received (chunk : list byte)
| TimedOut.

(** [conn.recv(bufsize)]: at most [bufsize] bytes of the next segment,
    the rest of the segment stays queued; [b""] once the peer closed. *)
Definition recv (conn : socket) (bufsize : nat) : recv_result * socket :=
  match conn with
  | [] => (Received [], [])
  | Stall :: rest => (TimedOut, rest)
  | Data chunk :: rest =>
      if (length chunk <=? bufsize)%nat then (Received chunk, rest)
      else (Received (take bufsize chunk), Data (drop bufsize chunk) :: rest)
  end.

(** A connection that delivers exactly the bytes [bs], cut into non-empty
    segments in any way, and then behaves as [ending]. *)
Definition delivers_then (ending : socket) (conn : socket) (bs : list byte) : Prop :=
  exists chunks : list (list byte),
    conn = map Data chunks ++ ending /\ Forall (fun c => c <> []) chunks /\
    concat chunks = bs.

(** ... and is then closed by the peer. *)
Definition delivers (conn : socket) (bs : list byte) : Prop :=
  delivers_then [] conn bs.

(** The ways a connection stops delivering: the peer closes it, or it
    stalls past the timeout. *)
Definition stops (ending : socket) : Prop :=
  ending = [] \/ exists rest, ending = Stall :: rest.

(** Reading with state: the socket is threaded through the reads. *)
Definition reader (A : Type) : Type := socket -> res A * socket.

#[global] Instance reader_ret : MRet reader :=
  fun A (a : A) conn => (Ret a, conn).

#[global] Instance reader_bind : MBind reader :=
  fun A B (k : A -> reader B) (m : reader A) conn =>
    match m conn with
    | (Ret a, conn') => k a conn'
    | (Raise e, conn') => (Raise e, conn')
    | (OutOfFuel, conn') => (OutOfFuel, conn')
    end.

(** A read that ends, by returning or by raising, on every connection. *)
Definition finishes {A} (m : reader A) : Prop :=
  forall conn, fst (m conn) <> OutOfFuel.

(** The loop of both receivers' [recv_exact]:
    [while len(data) < length: chunk = conn.recv(length - len(data)) ...].
    A timed-out [recv] leaves the loop with [on_timeout], an empty chunk
    with [on_closed]; otherwise the chunk is appended.  Every iteration
    that does not raise appends at least one byte, so [length] iterations
    are enough: [fuel] counts them. *)
Fixpoint recv_exact_loop (on_timeout on_closed : exn) (fuel len : nat) (data : list byte)
    : reader (list byte) :=
  fun conn =>
    if (length data <? len)%nat then
      match fuel with
      | O => (OutOfFuel, conn)
      | S fuel' =>
          match recv conn (len - length data) with
          | (TimedOut, conn') => (Raise on_timeout, conn')
          | (Received chunk, conn') =>
              if decide (chunk = []) then (Raise on_closed, conn')
              else recv_exact_loop on_timeout on_closed fuel' len (data ++ chunk) conn'
          end
      end
    else (Ret data, conn).

End Wire.

(** ** The SECOC receiver and sender
    ([secoc_receiver_tcp.py], [secoc_sender_tcp.py]) *)
Module Secoc.
Import Wire.

Definition SECRET_KEY : list byte := list_byte_of_string "my_shared_secret".
Definition REPLAY_CACHE_SIZE : nat := 1024.
Definition FRESHNESS_MAX_AGE : Z := 5.
Definition FRESHNESS_FUTURE_TOL : Z := 5.
Definition CPU_SCALE : Q := 120 # 1.
Definition MAX_DROP_PROB : Q := 85 # 100.
Definition TAG_LEN : nat := 8.

(** [recv_exact(conn, length)]: a [socket.timeout] is turned into a
    [ConnectionError]. *)
Definition recv_exact (len : nat) : reader (list byte) :=
  recv_exact_loop (ConnectionError "recv timeout")
    (ConnectionError "connection closed early / incomplete") len len [].

(** [REPLAY_CACHE = collections.deque(maxlen=REPLAY_CACHE_SIZE)] (oldest
    first) and [REPLAY_SET = set()]. *)
Record replay_state : Type := {
  REPLAY_CACHE : list string;
  REPLAY_SET : gset string
}.

Definition initial_state : replay_state :=
  {| REPLAY_CACHE := []; REPLAY_SET := ∅ |}.

(** [deque.append] on a deque with [maxlen]: a full deque first discards
    its leftmost item. *)
Definition deque_append (maxlen : nat) (d : list string) (x : string) : list string :=
  if (length d <? maxlen)%nat then d ++ [x] else drop 1 (d ++ [x]).

(** [record_replay(msg_hash)]; [popleft] on an empty deque raises
    [IndexError]. *)
Definition record_replay (msg_hash : string) (st : replay_state) : res bool * replay_state :=
  if decide (msg_hash ∈ REPLAY_SET st) then (Ret false, st)
  else
    let appended st1 :=
      {| REPLAY_CACHE := deque_append REPLAY_CACHE_SIZE (REPLAY_CACHE st1) msg_hash;
         REPLAY_SET := REPLAY_SET st1 ∪ {[msg_hash]} |} in
    if (REPLAY_CACHE_SIZE <=? size (REPLAY_SET st))%nat then
      match REPLAY_CACHE st with
      | [] => (Raise IndexError, st)
      | old :: cache' =>
          (Ret true,
           appended {| REPLAY_CACHE := cache'; REPLAY_SET := REPLAY_SET st ∖ {[old]} |})
      end
    else (Ret true, appended st).

(** The cache after recording the fingerprints [hashes] one after the
    other. *)
Definition record_all (hashes : list string) (st : replay_state) : replay_state :=
  foldl (fun st msg_hash => snd (record_replay msg_hash st)) st hashes.

(** The set and the deque hold the same fingerprints, each once, and no
    more than the capacity. *)
Definition consistent (st : replay_state) : Prop :=
  NoDup (REPLAY_CACHE st)
  /\ REPLAY_SET st = list_to_set (REPLAY_CACHE st)
  /\ (length (REPLAY_CACHE st) <= REPLAY_CACHE_SIZE)%nat.

(** Python's [min(a, b)]: the second argument only when it is strictly
    smaller. *)
Definition py_min (a b : Q) : Q :=
  if Qlt_le_dec b a then b else a.

(** [compute_drop_prob()]; the argument is what [psutil.cpu_percent]
    returns, [None] when it raises. *)
Definition compute_drop_prob (cpu_percent : option Q) : Q * Q :=
  let cpu := match cpu_percent with Some c => c | None => 0%Q end in
  let prob := py_min MAX_DROP_PROB (cpu / CPU_SCALE)%Q in
  (prob, cpu).

(** What one call of [handle_connection] observes of its environment:
    [int(time.time())], [psutil.cpu_percent] and [random.random()]. *)
Record environment : Type := {
  now : Z;
  cpu_percent : option Q;
  random_draw : Q
}.

(** How [handle_connection] ends: one constructor per [return] (named by
    what it logs), [Uncaught] when an exception leaves the function. *)
Inductive outcome : Type :=
| ConnectionAborted (e : exn)
| ErrorReading (e : exn)
| MessageTooShort (n : nat)
| FreshnessUnpackFailed
| StaleDropped (age : Z)
| FutureDropped (delta : Z)
| HmacMismatch
| ReplayDetected
| OverloadDrop (cpu prob : Q)
| UnpackError
| ValidMessage (age : Z)
| Uncaught (e : exn)
| Unfinished.

(** The outcomes in which the message got past the freshness check. *)
Definition past_freshness (o : outcome) : bool :=
  match o with
  | HmacMismatch | ReplayDetected | OverloadDrop _ _ | UnpackError
  | ValidMessage _ | Uncaught _ => true
  | _ => false
  end.

(** The outcomes in which the tag comparison succeeded. *)
Definition authenticated (o : outcome) : bool :=
  match o with
  | ReplayDetected | OverloadDrop _ _ | UnpackError | ValidMessage _ | Uncaught _ => true
  | _ => false
  end.

Definition accepted (o : outcome) : bool :=
  match o with ValidMessage _ => true | _ => false end.

(** The reads of the [try] block: message length, message, tag length,
    tag. *)
Definition read_envelope : reader (list byte * nat * list byte) :=
  raw ← recv_exact 2;
  let msg_len := Z.to_nat (int_from_bytes_big raw) in
  message ← recv_exact msg_len;
  raw ← recv_exact 2;
  let tag_len := Z.to_nat (int_from_bytes_big raw) in
  tag ← recv_exact tag_len;
  mret (message, tag_len, tag).

(** [len(struct.pack(PAYLOAD_FMT, ...))] for [">H I h h B H ff 27x"]. *)
Definition PAYLOAD_SIZE : nat := 2 + 4 + 2 + 2 + 1 + 2 + 4 + 4 + 27.

(** The checks of [handle_connection] once the envelope is read. *)
Definition check_envelope `{Primitives} (message : list byte) (tag_len : nat)
    (tag : list byte) (env : environment) (st : replay_state) : replay_state * outcome :=
  if (length message <? 56)%nat then (st, MessageTooShort (length message))
  else
    let structured_payload := all_but_last8 message in
    let freshness := last8 message in
    match unpack_Q freshness with
    | None => (st, FreshnessUnpackFailed)
    | Some ts =>
        let age := now env - ts in
        if FRESHNESS_MAX_AGE <? age then (st, StaleDropped age)
        else if FRESHNESS_FUTURE_TOL <? ts - now env then (st, FutureDropped (ts - now env))
        else
          let calc_full := hmac_sha256_digest SECRET_KEY (structured_payload ++ freshness) in
          let calc_tag := take tag_len calc_full in
          if decide (calc_tag <> tag) then (st, HmacMismatch)
          else
            let msg_hash :=
              substring 0 32 (sha256_hexdigest (structured_payload ++ freshness ++ tag)) in
            if decide (msg_hash ∈ REPLAY_SET st) then (st, ReplayDetected)
            else
              match record_replay msg_hash st with
              | (Raise e, st') => (st', Uncaught e)
              | (_, st') =>
                  let '(drop_prob, cpu) := compute_drop_prob (cpu_percent env) in
                  if Qlt_le_dec (random_draw env) drop_prob then
                    (st', OverloadDrop cpu drop_prob)
                  else if (length structured_payload =? PAYLOAD_SIZE)%nat then
                    (st', ValidMessage age)
                  else (st', UnpackError)
              end
    end.

(** [handle_connection(conn, addr)]. *)
Definition handle_connection `{Primitives} (conn : socket) (env : environment)
    (st : replay_state) : replay_state * outcome :=
  match read_envelope conn with
  | (Raise (ConnectionError msg), _) => (st, ConnectionAborted (ConnectionError msg))
  | (Raise e, _) => (st, ErrorReading e)
  | (OutOfFuel, _) => (st, Unfinished)
  | (Ret (message, tag_len, tag), _) => check_envelope message tag_len tag env st
  end.

(** The accept loop of [main]: connections are served one after the
    other; an exception that leaves [handle_connection] ends the loop. *)
Fixpoint serve `{Primitives} (conns : list (socket * environment)) (st : replay_state)
    : replay_state * list outcome :=
  match conns with
  | [] => (st, [])
  | (conn, env) :: rest =>
      match handle_connection conn env st with
      | (st', Uncaught e) => (st', [Uncaught e])
      | (st', o) => let '(st'', os) := serve rest st' in (st'', o :: os)
      end
  end.

(** The replay fingerprint of an envelope:
    [hashlib.sha256(structured_payload + freshness + tag).hexdigest()[:32]]. *)
Definition fingerprint `{Primitives} (message tag : list byte) : string :=
  substring 0 32 (sha256_hexdigest (all_but_last8 message ++ last8 message ++ tag)).

(** The timestamp of [message] is within the window at clock [now]. *)
Definition fresh (now : Z) (message : list byte) : Prop :=
  let ts := int_from_bytes_big (last8 message) in
  now - ts <= FRESHNESS_MAX_AGE /\ ts - now <= FRESHNESS_FUTURE_TOL.

(** A well-formed message (a 48-byte record and the timestamp) with a tag
    of some length that is the HMAC of the message truncated to that
    length. *)
Definition valid_envelope `{Primitives} (message tag : list byte) : Prop :=
  length message = 56%nat
  /\ Z.of_nat (length tag) <= 65535
  /\ tag = take (length tag) (hmac_sha256_digest SECRET_KEY message).

(** The two [sendall] calls of the sender's [main]. *)
Definition send_envelope (message tag : list byte) : exn + list byte :=
  match frame_field message with
  | inl e => inl e
  | inr m =>
      match frame_field tag with
      | inl e => inl e
      | inr t => inr (m ++ t)
      end
  end.

(** The tag the sender computes: [hmac.new(...).digest()[:TAG_LEN]]. *)
Definition sender_tag `{Primitives} (message : list byte) : list byte :=
  take TAG_LEN (hmac_sha256_digest SECRET_KEY message).

End Secoc.

(** ** The PQC receiver and sender ([receiver_pqc.py], [sender_pqc.py]) *)
Module Pqc.
Import Wire.

Definition CPU_LIMIT : Q := 85 # 1.
Definition DROP_PROB_BASE : Q := 1 # 10.
Definition MAX_HASHES : nat := 2048.
Definition QUEUE_MAXSIZE : nat := 500.
Definition FRESHNESS_WINDOW : Z := 30.

(** [recv_exact(conn, length)]: a [socket.timeout] is not caught and
    leaves the function as it is. *)
Definition recv_exact (len : nat) : reader (list byte) :=
  recv_exact_loop SocketTimeout (ConnectionError "connection closed early") len len [].

(** An item of [MSG_QUEUE]: [(message, signature, public_key, addr)], the
    peer address left out. *)
Record work_item : Type := {
  item_message : list byte;
  item_signature : list byte;
  item_public_key : list byte
}.

(** [SEEN_HASHES = set()] and [MSG_QUEUE = queue.Queue(maxsize=500)]
    (oldest first). *)
Record state : Type := {
  SEEN_HASHES : gset string;
  MSG_QUEUE : list work_item
}.

Definition initial_state : state :=
  {| SEEN_HASHES := ∅; MSG_QUEUE := [] |}.

(** How [handle_message] ends. *)
Inductive verdict : Type :=
| BadFreshness
| OutsideWindow
| Replayed
| SignatureFailed
| VerifyError (e : exn)
| Verified.

(** The replay-cache update of [handle_message]:
    [SEEN_HASHES.add(msg_hash)], then one [pop()] when the set has grown
    beyond [MAX_HASHES]. *)
Definition remember `{SetPop} (msg_hash : string) (seen : gset string) : gset string :=
  let seen1 := seen ∪ {[msg_hash]} in
  if (MAX_HASHES <? size seen1)%nat then seen1 ∖ {[set_pop seen1]} else seen1.

(** [handle_message(message, signature, public_key, addr)] at clock
    reading [now]; its effect is on [SEEN_HASHES].  The hashing loop after
    a successful verification only spends time and is left out. *)
Definition handle_message `{Primitives} `{SetPop} (message signature public_key : list byte)
    (now : Z) (seen : gset string) : gset string * verdict :=
  let structured_payload := all_but_last8 message in
  let freshness := last8 message in
  match unpack_Q freshness with
  | None => (seen, BadFreshness)
  | Some ts =>
      if FRESHNESS_WINDOW <? Z.abs (now - ts) then (seen, OutsideWindow)
      else
        let msg_hash := sha256_hexdigest (message ++ signature) in
        if decide (msg_hash ∈ seen) then (seen, Replayed)
        else
          let seen' := remember msg_hash seen in
          match dilithium2_verify message signature public_key with
          | inr true => (seen', Verified)
          | inr false => (seen', SignatureFailed)
          | inl e => (seen', VerifyError e)
          end
  end.

(** A call of [handle_message]: its arguments and the clock reading. *)
Record call : Type := {
  call_item : work_item;
  call_now : Z
}.

(** [SEEN_HASHES] after the calls [calls], one after the other. *)
Definition handle_all `{Primitives} `{SetPop} (calls : list call) (seen : gset string)
    : gset string :=
  foldl (fun seen c =>
           fst (handle_message (item_message (call_item c)) (item_signature (call_item c))
                  (item_public_key (call_item c)) (call_now c) seen))
    seen calls.

Definition past_freshness (v : verdict) : bool :=
  match v with
  | BadFreshness | OutsideWindow => false
  | _ => true
  end.

(** The reads of [handle_connection]'s [try] block. *)
Definition read_envelope : reader work_item :=
  raw ← recv_exact 2;
  let msg_len := Z.to_nat (int_from_bytes_big raw) in
  message ← recv_exact msg_len;
  raw ← recv_exact 2;
  let sig_len := Z.to_nat (int_from_bytes_big raw) in
  signature ← recv_exact sig_len;
  raw ← recv_exact 2;
  let pk_len := Z.to_nat (int_from_bytes_big raw) in
  public_key ← recv_exact pk_len;
  mret {| item_message := message; item_signature := signature;
          item_public_key := public_key |}.

(** How [handle_connection] ends. *)
Inductive admission : Type :=
| IncompleteRecv (e : exn)
| Drop (cpu : Q)
| QueueFull
| Enqueued
| Unfinished.

(** The pre-admission test:
    [cpu > CPU_LIMIT or random.random() < DROP_PROB_BASE]. *)
Definition overloaded (cpu random_draw : Q) : bool :=
  (if Qlt_le_dec CPU_LIMIT cpu then true else false)
  || (if Qlt_le_dec random_draw DROP_PROB_BASE then true else false).

(** [handle_connection(conn, addr)]; [cpu] and [random_draw] are the
    readings of [psutil.cpu_percent] and [random.random()]. *)
Definition handle_connection (conn : socket) (cpu random_draw : Q) (st : state)
    : state * admission :=
  match read_envelope conn with
  | (Raise e, _) => (st, IncompleteRecv e)
  | (OutOfFuel, _) => (st, Unfinished)
  | (Ret item, _) =>
      if overloaded cpu random_draw then (st, Drop cpu)
      else if (QUEUE_MAXSIZE <=? length (MSG_QUEUE st))%nat then (st, QueueFull)
      else ({| SEEN_HASHES := SEEN_HASHES st; MSG_QUEUE := MSG_QUEUE st ++ [item] |},
            Enqueued)
  end.

(** One turn of a [worker]: [MSG_QUEUE.get()] then [handle_message] on the item;
    nothing to do on an empty queue. *)
Definition worker_step `{Primitives} `{SetPop} (now : Z) (st : state) : state * option verdict :=
  match MSG_QUEUE st with
  | [] => (st, None)
  | item :: queue' =>
      let '(seen', v) :=
        handle_message (item_message item) (item_signature item) (item_public_key item)
          now (SEEN_HASHES st) in
      ({| SEEN_HASHES := seen'; MSG_QUEUE := queue' |}, Some v)
  end.

(** What becomes of one connection when a worker is free: the handler
    runs, and the worker takes up the item if one was enqueued. *)
Inductive fate : Type :=
| NotAdmitted (a : admission)
| Processed (v : verdict).

Definition receive `{Primitives} `{SetPop} (conn : socket) (cpu random_draw : Q) (now : Z)
    (st : state) : state * fate :=
  match handle_connection conn cpu random_draw st with
  | (st', Enqueued) =>
      match worker_step now st' with
      | (st'', Some v) => (st'', Processed v)
      | (st'', None) => (st'', NotAdmitted Enqueued)
      end
  | (st', a) => (st', NotAdmitted a)
  end.

Definition accepted (f : fate) : bool :=
  match f with Processed Verified => true | _ => false end.

(** The replay fingerprint: [hashlib.sha256(message + signature).hexdigest()]. *)
Definition fingerprint `{Primitives} (message signature : list byte) : string :=
  sha256_hexdigest (message ++ signature).

Definition fresh (now : Z) (message : list byte) : Prop :=
  Z.abs (now - int_from_bytes_big (last8 message)) <= FRESHNESS_WINDOW.

(** An envelope that can be framed, whose timestamp parses and whose
    signature the verifier accepts. *)
Definition valid_envelope `{Primitives} (message signature public_key : list byte) : Prop :=
  (8 <= length message)%nat
  /\ Z.of_nat (length message) <= 65535
  /\ Z.of_nat (length signature) <= 65535
  /\ Z.of_nat (length public_key) <= 65535
  /\ dilithium2_verify message signature public_key = inr true.

(** The three [sendall] calls of the sender. *)
Definition send_envelope (message signature public_key : list byte) : exn + list byte :=
  match frame_field message, frame_field signature, frame_field public_key with
  | inr m, inr s, inr p => inr (m ++ s ++ p)
  | inl e, _, _ => inl e
  | _, inl e, _ => inl e
  | _, _, inl e => inl e
  end.

End Pqc.

(** ** The load simulator's report ([dos_simulator.py]) *)
Module Simulator.

(** A Request Result: the dictionary that [LoadGen] appends per attempt.
    [latency_ms] is what [r.get("latency_ms")] yields, [iteration] is
    present in the persistent-connection mode only. *)
Record request_result : Type := {
  idx : Z;
  ts : string;
  success : bool;
  latency_ms : option Q;
  resp_len : Z;
  err : option string;
  iteration : option Z
}.

(** The dictionary that [summarize] returns; [None] is Python's [None]. *)
Record summary : Type := {
  total : Z;
  successes : Z;
  failures : Z;
  success_rate_pct : option Q;
  lat_p50_ms : option Q;
  lat_p90_ms : option Q;
  lat_p99_ms : option Q;
  lat_mean_ms : option Q
}.

(** Sorting, for the order statistics. *)
Fixpoint insert_sorted (x : Q) (l : list Q) : list Q :=
  match l with
  | [] => [x]
  | y :: l' => if Qle_bool x y then x :: l else y :: insert_sorted x l'
  end.

Definition sorted (l : list Q) : list Q := fold_right insert_sorted [] l.

(** [numpy.percentile(a, q)] with its default method (["linear"]): the
    value at the virtual index [(n - 1) * q / 100] of the sorted data,
    interpolated linearly between the two neighbouring order statistics.
    NumPy is an external library; this follows its documentation. *)
Definition np_percentile (a : list Q) (q : Q) : Q :=
  let s := sorted a in
  let n := Z.of_nat (length a) in
  let virtual_index := (inject_Z (n - 1) * q / (100 # 1))%Q in
  let lower := Qfloor virtual_index in
  let upper := Z.min (lower + 1) (n - 1) in
  let gamma := (virtual_index - inject_Z lower)%Q in
  let at_index i := nth (Z.to_nat i) s 0%Q in
  (at_index lower + gamma * (at_index upper - at_index lower))%Q.

(** [statistics.mean(data)]. *)
Definition mean (data : list Q) : Q :=
  (fold_right Qplus 0 data / inject_Z (Z.of_nat (length data)))%Q.

(** [summarize(results)]. *)
Definition summarize (results : list request_result) : summary :=
  let lat :=
    map (fun r => default 0%Q (latency_ms r))
      (filter (fun r => success r = true /\ latency_ms r <> None) results) in
  let total := Z.of_nat (length results) in
  let succ := Z.of_nat (length (filter (fun r => success r = true) results)) in
  let fail := total - succ in
  let unless_empty (v : Q) := match lat with [] => None | _ => Some v end in
  {| total := total;
     successes := succ;
     failures := fail;
     success_rate_pct :=
       if 0 <? total then Some (inject_Z succ / inject_Z total * (100 # 1))%Q else None;
     lat_p50_ms := unless_empty (np_percentile lat (50 # 1));
     lat_p90_ms := unless_empty (np_percentile lat (90 # 1));
     lat_p99_ms := unless_empty (np_percentile lat (99 # 1));
     lat_mean_ms := unless_empty (mean lat) |}.

(** The latencies of the successful attempts, in the order of the
    attempts: the data the specification computes the statistics over. *)
Definition successful_latencies (results : list request_result) : list Q :=
  omap (fun r => if success r then latency_ms r else None) results.

End Simulator.

(** ** Paths and timestamps of the offline tools *)
Module Py.

Definition is_slash (c : ascii) : bool := bool_decide (c = "/"%char).

Fixpoint has_slash (s : string) : bool :=
  match s with
  | EmptyString => false
  | String c rest => is_slash c || has_slash rest
  end.

(** [os.path.basename(path)]: what follows the last slash. *)
Fixpoint basename (path : string) : string :=
  match path with
  | EmptyString => EmptyString
  | String c rest =>
      if has_slash rest then basename rest
      else if is_slash c then rest else path
  end.

(** [path.rstrip("/")]. *)
Fixpoint rstrip_slash (path : string) : string :=
  match path with
  | EmptyString => EmptyString
  | String c rest =>
      match rstrip_slash rest with
      | EmptyString => if is_slash c then EmptyString else String c EmptyString
      | rest' => String c rest'
      end
  end.

Definition ends_with_slash (s : string) : bool :=
  negb (String.eqb (rstrip_slash s) s).

(** [os.path.join(folder, name)] for a relative [name]. *)
Definition path_join (folder name : string) : string :=
  if String.eqb folder "" then name
  else if ends_with_slash folder then folder ++ name
  else folder ++ "/" ++ name.

(** A [datetime], identified by the POSIX time it stands for. *)
Record datetime : Type := { posix : Q }.

(** The first and one-past-the-last second of the years 1 to 9999 (POSIX
    platforms; rounding to microseconds is not modelled). *)
Definition DATETIME_MIN : Q := (-62135596800) # 1.
Definition DATETIME_END : Q := 253402300800 # 1.

(** [datetime.utcfromtimestamp(t)] for a float [t] ([None] is NaN):
    [ValueError] for NaN and for a time outside the years 1 to 9999. *)
Definition utcfromtimestamp (t : option Q) : exn + datetime :=
  match t with
  | None => inl ValueError
  | Some q =>
      if Qle_bool DATETIME_MIN q && negb (Qle_bool DATETIME_END q)
      then inr {| posix := q |}
      else inl ValueError
  end.

End Py.

(** ** The result normalizer ([normalize_results.py]) *)
Module Normalizer.
Import Py.

(** A row of the bus-metrics CSV as [pandas.read_csv] yields it: the
    [timestamp] cell is a float ([None] for NaN, an empty cell), the
    [frame_id] an integer; the remaining cells are kept as text. *)
Record bus_row : Type := {
  timestamp : option Q;
  frame_id : Z;
  other_cells : list string
}.

Record data_frame : Type := {
  columns : list string;
  rows : list bus_row
}.

(** [df.rename(columns={"timestamp": "ts"})]. *)
Definition rename_timestamp (df : data_frame) : data_frame :=
  {| columns := map (fun c => if String.eqb c "timestamp" then "ts"%string else c) (columns df);
     rows := rows df |}.

Record args_echo : Type := {
  source_csv : string;
  assumed_all_success : bool
}.

Record summary : Type := {
  total : Z;
  successes : Z;
  failures : Z;
  success_rate_pct : option Q;
  lat_p50_ms : option Q;
  lat_p90_ms : option Q;
  lat_p99_ms : option Q;
  lat_mean_ms : option Q;
  start_time : option datetime;
  end_time : option datetime;
  duration_s : option Q;
  sample_count : Z;
  args : args_echo
}.

(** The [ts] cell of a synthesized request row: ISO-8601 text (of the
    given time) or the empty string. *)
Inductive ts_cell : Type :=
| IsoZ (d : datetime)
| BlankTs.

(** A row of the synthesized [requests.csv]; [None] is the empty string
    that the code writes for latency, response length and error. *)
Record request_row : Type := {
  idx : Z;
  ts : ts_cell;
  success : bool;
  latency_ms : option Q;
  resp_len : option Z;
  err : option string
}.

(** The [try] block that fills [start_time], [end_time] and [duration_s]:
    the three assignments run in order and the first exception leaves the
    remaining fields at [None]. *)
Definition time_fields (df : data_frame) : option datetime * option datetime * option Q :=
  match rows df, last (rows df) with
  | first :: _, Some final =>
      match utcfromtimestamp (timestamp first) with
      | inl _ => (None, None, None)
      | inr d0 =>
          match utcfromtimestamp (timestamp final) with
          | inl _ => (Some d0, None, None)
          | inr d1 => (Some d0, Some d1, Some (posix d1 - posix d0)%Q)
          end
      end
  | _, _ => (None, None, None)
  end.

(** The dictionary written for one CSV row; the conversion of the
    timestamp is not guarded. *)
Definition request_row_of (row : bus_row) : exn + request_row :=
  let mk cell :=
    {| idx := frame_id row; ts := cell; success := true;
       latency_ms := None; resp_len := None; err := None |} in
  match timestamp row with
  | None => inr (mk BlankTs)
  | Some t =>
      match utcfromtimestamp (Some t) with
      | inl e => inl e
      | inr d => inr (mk (IsoZ d))
      end
  end.

(** The [for i, row in df.iterrows()] loop: the rows written, and the
    exception that stopped it, if any. *)
Fixpoint write_requests (rs : list bus_row) : list request_row * option exn :=
  match rs with
  | [] => ([], None)
  | row :: rest =>
      match request_row_of row with
      | inl e => ([], Some e)
      | inr r => let '(written, e) := write_requests rest in (r :: written, e)
      end
  end.

(** What [normalize_can] leaves in [outdir], and the exception it ends
    with if it does not return. *)
Record output : Type := {
  system_csv : option data_frame;
  summary_json : option summary;
  requests_csv : option (list request_row);
  raised : option exn
}.

(** [normalize_can(csv_path, total_frames, successes, outdir)] on the data
    frame read from [csv_path]. *)
Definition normalize_can (csv_path : string) (df : data_frame)
    (total_frames successes : option Z) : output :=
  let sys_df := rename_timestamp df in
  match last (rows df) with
  | None =>
      {| system_csv := Some sys_df; summary_json := None; requests_csv := None;
         raised := Some IndexError |}
  | Some final =>
      let last_frame := frame_id final in
      let total := match total_frames with Some t => t | None => last_frame end in
      let '(successes, assumed) :=
        match successes with
        | None => (total, true)
        | Some s => (s, false)
        end in
      let failures := total - successes in
      let success_rate :=
        if 0 <? total then Some (inject_Z successes / inject_Z total * (100 # 1))%Q
        else None in
      let '(start_time, end_time, duration_s) := time_fields df in
      let summary :=
        {| total := total; successes := successes; failures := failures;
           success_rate_pct := success_rate;
           lat_p50_ms := None; lat_p90_ms := None; lat_p99_ms := None;
           lat_mean_ms := None;
           start_time := start_time; end_time := end_time; duration_s := duration_s;
           sample_count := Z.of_nat (length (rows df));
           args := {| source_csv := basename csv_path; assumed_all_success := assumed |} |} in
      let '(written, e) := write_requests (rows df) in
      {| system_csv := Some sys_df; summary_json := Some summary;
         requests_csv := Some written; raised := e |}
  end.

(** The timestamp cells that the row loop can convert: blank ones and
    those [datetime] can represent. *)
Definition convertible (row : bus_row) : bool :=
  match timestamp row with
  | None => true
  | Some q => Qle_bool DATETIME_MIN q && negb (Qle_bool DATETIME_END q)
  end.

(** A request row as the specification describes it: successful, with
    blank latency, response length and error. *)
Definition placeholder (r : request_row) : Prop :=
  success r = true /\ latency_ms r = None /\ resp_len r = None /\ err r = None.

End Normalizer.

(** ** The run analyzer ([analyze_runs.py]) *)
Module Analyzer.
Import Py.

(** A JSON value as [json.load] returns it; the analyzer never looks
    inside a nested list or object. *)
Inductive json : Type :=
| JNull
| JBool (b : bool)
| JNumber (q : Q)
| JString (s : string)
| JList
| JDict.

(** A table read by [pandas.read_csv]: its header and number of rows. *)
Record table : Type := {
  header : list string;
  row_count : nat
}.

(** The files the analyzer can see, by path: JSON objects and CSV tables.
    A path bound in neither map does not exist; a file that exists is
    well-formed ([json.load] and [pandas.read_csv] succeed on it). *)
Record file_system : Type := {
  json_files : gmap string (list (string * json));
  csv_files : gmap string table
}.

Definition is_dict (v : json) : bool :=
  match v with JDict => true | _ => false end.

(** [load_run(folder)]. *)
Definition load_run (fs : file_system) (folder : string)
    : exn + (list (string * json) * option table * option table) :=
  let summary_path := path_join folder "summary.json" in
  match json_files fs !! summary_path with
  | None => inl (FileNotFoundError ("No summary.json found in " ++ folder))
  | Some summary =>
      let summary_flat := filter (fun kv => is_dict (snd kv) = false) summary in
      let system_csv := path_join folder "system.csv" in
      let requests_csv := path_join folder "requests.csv" in
      let sys_df := csv_files fs !! system_csv in
      let req_df := csv_files fs !! requests_csv in
      inr (summary_flat, sys_df, req_df)
  end.

(** The files that [main] writes to the working directory. *)
Inductive artifact : Type :=
| CompareSummaryCsv (labelA : string) (sa : list (string * json))
    (labelB : string) (sb : list (string * json))
| CompareBarsPng
| CompareTimeseriesPng.

(** How the process ends: [main] returns, [sys.exit(code)], or an
    exception reaches the top level and is reported with a traceback. *)
Inductive ending : Type :=
| Returned
| SysExit (code : Z)
| Traceback (e : exn).

(** [plot_timeseries]: skipped when either system table is missing. *)
Definition plot_timeseries (sysA sysB : option table) : list artifact :=
  match sysA, sysB with
  | Some _, Some _ => [CompareTimeseriesPng]
  | _, _ => []
  end.

(** [main()] with [sys.argv = argv]: the artifacts written, in order, and
    the way the process ends. *)
Definition main (argv : list string) (fs : file_system) : list artifact * ending :=
  match argv with
  | [_; pathA; pathB] =>
      let labelA := basename (rstrip_slash pathA) in
      let labelB := basename (rstrip_slash pathB) in
      match load_run fs pathA with
      | inl e => ([], Traceback e)
      | inr (sa, sysA, reqA) =>
          match load_run fs pathB with
          | inl e => ([], Traceback e)
          | inr (sb, sysB, reqB) =>
              (CompareSummaryCsv labelA sa labelB sb :: CompareBarsPng
                 :: plot_timeseries sysA sysB,
               Returned)
          end
      end
  | _ => ([], SysExit 1)
  end.

End Analyzer.

(** ** Concrete inputs
    Stand-ins for the external primitives and a few concrete envelopes, on
    which the model is run below.  The stand-ins only make the functions
    computable; no general statement depends on them. *)
Module Sample.
Import Wire.

#[local] Instance primitives : Primitives := {|
  sha256_hexdigest := string_of_list_byte;
  hmac_sha256_digest := fun key msg => take 32 (msg ++ key ++ repeat Byte.x00 32);
  dilithium2_verify := fun msg sig pk => inr (bool_decide (sig = pk ++ msg))
|}.

Definition first_element (s : gset string) : string :=
  default EmptyString (head (elements s)).

(** A 56-byte message: an all-zero record and the timestamp 1000. *)
Definition message : list byte :=
  repeat Byte.x00 48
  ++ [Byte.x00; Byte.x00; Byte.x00; Byte.x00; Byte.x00; Byte.x00; Byte.x03; Byte.xe8].

Definition public_key : list byte := [Byte.x70; Byte.x6b].
Definition signature : list byte := public_key ++ message.
Definition tag : list byte := Secoc.sender_tag message.

Definition bytes_of (framed : exn + list byte) : list byte :=
  match framed with inr bs => bs | inl _ => [] end.

(** The SECOC envelope arriving in two segments, the PQC envelope in one. *)
Definition secoc_conn : socket :=
  let wire := bytes_of (Secoc.send_envelope message tag) in
  [Data (take 10 wire); Data (drop 10 wire)].

Definition pqc_item : Pqc.work_item :=
  {| Pqc.item_message := message; Pqc.item_signature := signature;
     Pqc.item_public_key := public_key |}.

Definition pqc_conn : socket :=
  [Data (bytes_of (Pqc.send_envelope message signature public_key))].

(** A [set.pop()] that removes [target] whenever it can. *)
Definition prefer (target : string) (s : gset string) : string :=
  if decide (target ∈ s) then target else first_element s.

(** Clock, CPU meter and random draw of three moments: idle, idle a little
    later, and busy with a low draw. *)
Definition idle : Secoc.environment :=
  {| Secoc.now := 1001; Secoc.cpu_percent := Some 0%Q; Secoc.random_draw := (1 # 2)%Q |}.

Definition idle_later : Secoc.environment :=
  {| Secoc.now := 1003; Secoc.cpu_percent := Some 0%Q; Secoc.random_draw := (1 # 2)%Q |}.

Definition busy : Secoc.environment :=
  {| Secoc.now := 1001; Secoc.cpu_percent := Some (60 # 1)%Q; Secoc.random_draw := (1 # 4)%Q |}.

(** Four attempts, one of them failed. *)
Definition attempt (i : Z) (ok : bool) (latency : Q) : Simulator.request_result :=
  {| Simulator.idx := i; Simulator.ts := "2025-01-01T00:00:00Z"; Simulator.success := ok;
     Simulator.latency_ms := Some latency; Simulator.resp_len := 0;
     Simulator.err := if ok then None else Some "refused"%string;
     Simulator.iteration := None |}.

Definition attempts : list Simulator.request_result :=
  [attempt 0 true (10 # 1); attempt 1 false (99 # 1); attempt 2 true (20 # 1);
   attempt 3 true (40 # 1)].

(** Bus-metrics data frames of 1000 rows with frame ids 0 to 999: one with
    timestamps in seconds, one with timestamps in milliseconds. *)
Definition bus_frame (first_timestamp : Z) : Normalizer.data_frame :=
  {| Normalizer.columns := ["timestamp"; "frame_id"; "cpu_percent"; "mem_mb"; "fps"]%string;
     Normalizer.rows :=
       map (fun i : nat =>
              {| Normalizer.timestamp := Some (inject_Z (first_timestamp + Z.of_nat i));
                 Normalizer.frame_id := Z.of_nat i;
                 Normalizer.other_cells := ["12.5"; "256.0"; "100.0"]%string |})
         (seq 0 1000) |}.

Definition frame_in_seconds : Normalizer.data_frame := bus_frame 1700000000.
Definition frame_in_milliseconds : Normalizer.data_frame := bus_frame 1700000000000.

(** Two run directories: [runs/pqc] is complete, [runs/secoc] has no
    summary. *)
Definition run_files : Analyzer.file_system :=
  {| Analyzer.json_files :=
       {[ "runs/pqc/summary.json"%string :=
            [("total"%string, Analyzer.JNumber (100 # 1));
             ("args"%string, Analyzer.JDict)] ]};
     Analyzer.csv_files :=
       {[ "runs/pqc/system.csv"%string :=
            {| Analyzer.header := ["ts"; "cpu_percent"]%string; Analyzer.row_count := 3 |};
          "runs/secoc/system.csv"%string :=
            {| Analyzer.header := ["ts"; "cpu_percent"]%string; Analyzer.row_count := 3 |} ]} |}.

(** Distinct fingerprints, numbered. *)
Definition fingerprint (n : nat) : string :=
  String (ascii_of_nat (n / 256)) (String (ascii_of_nat (n mod 256)) EmptyString).

Definition fingerprints (count : nat) : list string := map fingerprint (seq 0 count).

End Sample.

(** ** The byte stream behind a socket *)
Module Stream.
Import Wire.

(** The bytes a connection still holds, in order: its data segments,
    whatever stalls lie between them. *)
Fixpoint pending (conn : socket) : list byte :=
  match conn with
  | [] => []
  | Data chunk :: rest => chunk ++ pending rest
  | Stall :: rest => pending rest
  end.

End Stream.

(** ** The telemetry record and its packing ([struct], format
    [">H I h h B H ff 27x"]; both senders pack it, the SECOC receiver
    unpacks it) *)
Module Codec.
Import Wire.

(** [v.to_bytes(n, "big")]: the [n] low-order base-256 digits of [v], the
    most significant first. *)
Fixpoint to_bytes_big (n : nat) (v : Z) : list byte :=
  match n with
  | O => []
  | S n' => to_bytes_big n' (v / 256) ++ [byte_of_Z (v mod 256)]
  end.

(** An unsigned [struct] field of [n] bytes ([B], [H], [I], [Q]):
    [struct.error] ([None]) outside [0, 256^n). *)
Definition pack_unsigned (n : nat) (v : Z) : option (list byte) :=
  if (0 <=? v) && (v <? 256 ^ Z.of_nat n) then Some (to_bytes_big n v) else None.

(** A signed field ([h]): two's complement, [struct.error] outside
    [-256^n / 2, 256^n / 2). *)
Definition pack_signed (n : nat) (v : Z) : option (list byte) :=
  let modulus := 256 ^ Z.of_nat n in
  if (- (modulus / 2) <=? v) && (v <? modulus / 2)
  then Some (to_bytes_big n (v mod modulus)) else None.

Definition unpack_unsigned (field : list byte) : Z := int_from_bytes_big field.

Definition unpack_signed (field : list byte) : Z :=
  let u := int_from_bytes_big field in
  let modulus := 256 ^ Z.of_nat (length field) in
  if u <? modulus / 2 then u else u - modulus.

(** The four bytes of a float packed with [f] (its IEEE 754 binary32
    image); the conversion between a Python float and its image is left to
    [struct]. *)
Record binary32 : Type := {
  byte0 : byte;
  byte1 : byte;
  byte2 : byte;
  byte3 : byte
}.

Definition image (x : binary32) : list byte := [byte0 x; byte1 x; byte2 x; byte3 x].

Definition of_image (field : list byte) : option binary32 :=
  match field with
  | [b0; b1; b2; b3] => Some {| byte0 := b0; byte1 := b1; byte2 := b2; byte3 := b3 |}
  | _ => None
  end.

(** The eight values of a telemetry record. *)
Record telemetry : Type := {
  speed : Z;
  rpm : Z;
  temperature : Z;
  steering_angle : Z;
  fuel_level : Z;
  brake_pressure : Z;
  gps_lat : binary32;
  gps_lon : binary32
}.

(** [struct.pack(PAYLOAD_FMT, speed, rpm, temperature, steering_angle,
    fuel_level, brake_pressure, gps_lat, gps_lon)]. *)
Definition pack (t : telemetry) : option (list byte) :=
  s ← pack_unsigned 2 (speed t);
  r ← pack_unsigned 4 (rpm t);
  c ← pack_signed 2 (temperature t);
  a ← pack_signed 2 (steering_angle t);
  f ← pack_unsigned 1 (fuel_level t);
  b ← pack_unsigned 2 (brake_pressure t);
  Some (s ++ r ++ c ++ a ++ f ++ b ++ image (gps_lat t) ++ image (gps_lon t)
          ++ repeat Byte.x00 27).

(** [struct.unpack(PAYLOAD_FMT, structured_payload)] and the first eight
    values of the result: exactly 48 bytes, else [struct.error]; the pad
    bytes are skipped unread. *)
Definition unpack (payload : list byte) : option telemetry :=
  if (length payload =? Secoc.PAYLOAD_SIZE)%nat then
    let s := take 2 payload in
    let payload := drop 2 payload in
    let r := take 4 payload in
    let payload := drop 4 payload in
    let c := take 2 payload in
    let payload := drop 2 payload in
    let a := take 2 payload in
    let payload := drop 2 payload in
    let f := take 1 payload in
    let payload := drop 1 payload in
    let b := take 2 payload in
    let payload := drop 2 payload in
    lat ← of_image (take 4 payload);
    lon ← of_image (take 4 (drop 4 payload));
    Some {| speed := unpack_unsigned s; rpm := unpack_unsigned r;
            temperature := unpack_signed c; steering_angle := unpack_signed a;
            fuel_level := unpack_unsigned f; brake_pressure := unpack_unsigned b;
            gps_lat := lat; gps_lon := lon |}
  else None.

(** The values [struct] can pack. *)
Definition packable (t : telemetry) : Prop :=
  0 <= speed t < 65536 /\ 0 <= rpm t < 4294967296
  /\ -32768 <= temperature t < 32768 /\ -32768 <= steering_angle t < 32768
  /\ 0 <= fuel_level t < 256 /\ 0 <= brake_pressure t < 65536.

(** The values [make_structured_payload] draws ([random.randint] bounds
    are inclusive). *)
Definition generated (t : telemetry) : Prop :=
  0 <= speed t <= 250 /\ 600 <= rpm t <= 8000
  /\ -40 <= temperature t <= 125 /\ -540 <= steering_angle t <= 540
  /\ 0 <= fuel_level t <= 100 /\ 0 <= brake_pressure t <= 200.

(** The message both senders build at clock reading [time]:
    [struct.pack(PAYLOAD_FMT, ...) + struct.pack(">Q", int(time.time()))]. *)
Definition build_message (t : telemetry) (time : Z) : option (list byte) :=
  payload ← pack t;
  freshness ← pack_unsigned 8 time;
  Some (payload ++ freshness).

(** What the SECOC sender's [main] puts on the wire: the message, its
    truncated HMAC, framed; [None] when packing raises. *)
Definition secoc_send `{Primitives} (t : telemetry) (time : Z) : option (exn + list byte) :=
  message ← build_message t time;
  Some (Secoc.send_envelope message (Secoc.sender_tag message)).

End Codec.

(** ** The PQC receiver as a whole: connection handlers and workers *)
Module PqcServer.

(** What happens at the receiver, one thing at a time: a connection is
    handled (with the readings of the CPU meter and of [random.random()]),
    or a worker takes an item off the queue (at a clock reading). *)
Inductive event : Type :=
| Accept (conn : Wire.socket) (cpu random_draw : Q)
| Work (now : Z).

Definition step `{Primitives} `{SetPop} (st : Pqc.state) (e : event) : Pqc.state :=
  match e with
  | Accept conn cpu random_draw => fst (Pqc.handle_connection conn cpu random_draw st)
  | Work now => fst (Pqc.worker_step now st)
  end.

Definition run `{Primitives} `{SetPop} (events : list event) (st : Pqc.state) : Pqc.state :=
  foldl step st events.

(** The verdict [handle_message] reaches from the verifier's answer. *)
Definition verdict_of (answer : exn + bool) : Pqc.verdict :=
  match answer with
  | inr true => Pqc.Verified
  | inr false => Pqc.SignatureFailed
  | inl e => Pqc.VerifyError e
  end.

End PqcServer.

(** ** Normalizing a PQC run folder ([normalize_pqc]) *)
Module Copying.
Import Py.

Definition NAMES : list string := ["summary.json"; "requests.csv"; "system.csv"]%string.

(** One turn of the loop, on the regular files of the file system (by
    path, with their contents): when [src] exists, [open(src, "rb")], then
    [open(dst, "wb")], which creates [dst] or empties it, then
    [fdst.write(fsrc.read())] with what [src] holds at that moment. *)
Definition copy_file (run_dir outdir name : string) (fs : gmap string (list byte))
    : gmap string (list byte) :=
  let src := path_join run_dir name in
  let dst := path_join outdir name in
  match fs !! src with
  | None => fs
  | Some _ =>
      let opened := <[dst := []]> fs in
      <[dst := default [] (opened !! src)]> opened
  end.

(** [normalize_pqc(run_dir, outdir)]. *)
Definition normalize_pqc (run_dir outdir : string) (fs : gmap string (list byte))
    : gmap string (list byte) :=
  foldl (fun fs name => copy_file run_dir outdir name fs) fs NAMES.

End Copying.

(** ** The x axis of the analyzer's time-series plot *)
Module Plots.

(** The column names [get_time_column] and [get_best_x] try, in order. *)
Definition TIME_COLUMNS : list string := ["timestamp"; "time"; "frame_id"]%string.

(** [get_time_column(df)], from the columns of [df]: the first of the
    three names that is a column, [None] when none is ([get_best_x] then
    falls back to the row index). *)
Definition get_time_column (columns : list string) : option string :=
  find (fun c => bool_decide (c ∈ columns)) TIME_COLUMNS.

End Plots.

(** ** Preparing the summary for [json.dump] ([clean_for_json]) *)
Module Cleaning.

(** [base64.b64encode(b).decode("ascii")], a library function. *)
Class Base64 : Type := {
  b64encode : list byte -> string
}.

(** The Python values that can occur in a summary: scalars, byte strings
    and the containers [list], [tuple] and [dict] (with text keys, in
    insertion order). *)
#[local] Unset Elimination Schemes.
Inductive pyobj : Type :=
| PNone
| PBool (b : bool)
| PNum (q : Q)
| PStr (s : string)
| PBytes (b : list byte)
| PList (items : list pyobj)
| PTuple (items : list pyobj)
| PDict (entries : list (string * pyobj)).
#[local] Set Elimination Schemes.

(** [clean_for_json(obj)]: a byte string becomes text, a [dict] and a
    [list] are rebuilt from their cleaned values, anything else (a tuple
    too) is returned as it is. *)
Fixpoint clean_for_json `{Base64} (obj : pyobj) : pyobj :=
  match obj with
  | PBytes b => PStr (b64encode b)
  | PDict entries => PDict (map (fun '(k, v) => (k, clean_for_json v)) entries)
  | PList items => PList (map clean_for_json items)
  | _ => obj
  end.

(** No byte string anywhere in the value: what [json.dump] needs. *)
Fixpoint bytes_free (obj : pyobj) : bool :=
  match obj with
  | PBytes _ => false
  | PList items | PTuple items => forallb bytes_free items
  | PDict entries => forallb (fun '(_, v) => bytes_free v) entries
  | _ => true
  end.

(** No byte string inside a tuple, however deep the tuple lies. *)
Fixpoint tuples_bytes_free (obj : pyobj) : bool :=
  match obj with
  | PTuple items => forallb bytes_free items
  | PList items => forallb tuples_bytes_free items
  | PDict entries => forallb (fun '(_, v) => tuples_bytes_free v) entries
  | _ => true
  end.

End Cleaning.

(** ** Comparing reports *)
Module Report.

(** Two optional numbers that are both absent or equal as rationals. *)
Definition same_number (a b : option Q) : Prop :=
  match a, b with
  | Some x, Some y => (x == y)%Q
  | None, None => True
  | _, _ => False
  end.

(** Two summaries that agree in every field. *)
Definition same_summary (s s' : Simulator.summary) : Prop :=
  Simulator.total s = Simulator.total s'
  /\ Simulator.successes s = Simulator.successes s'
  /\ Simulator.failures s = Simulator.failures s'
  /\ same_number (Simulator.success_rate_pct s) (Simulator.success_rate_pct s')
  /\ same_number (Simulator.lat_p50_ms s) (Simulator.lat_p50_ms s')
  /\ same_number (Simulator.lat_p90_ms s) (Simulator.lat_p90_ms s')
  /\ same_number (Simulator.lat_p99_ms s) (Simulator.lat_p99_ms s')
  /\ same_number (Simulator.lat_mean_ms s) (Simulator.lat_mean_ms s').

End Report.

(** ** Further concrete inputs *)
Module Cases.
Import Wire.

Definition secoc_wire : list byte :=
  Sample.bytes_of (Secoc.send_envelope Sample.message Sample.tag).

Definition pqc_wire : list byte :=
  Sample.bytes_of (Pqc.send_envelope Sample.message Sample.signature Sample.public_key).

(** The SECOC envelope in two segments, followed by a stray byte and a
    close; the PQC envelope with two stray bytes in the same segment,
    followed by a stall. *)
Definition secoc_conn_surplus : socket :=
  [Data (take 10 secoc_wire); Data (drop 10 secoc_wire); Data [Byte.x01]].

Definition pqc_conn_surplus : socket :=
  [Data (pqc_wire ++ [Byte.x01; Byte.x02]); Stall].

(** A telemetry record with negative readings, and a 48-byte payload whose
    pad bytes are not zero. *)
Definition telemetry : Codec.telemetry :=
  {| Codec.speed := 250; Codec.rpm := 8000; Codec.temperature := -40;
     Codec.steering_angle := -540; Codec.fuel_level := 100; Codec.brake_pressure := 200;
     Codec.gps_lat := {| Codec.byte0 := Byte.x42; Codec.byte1 := Byte.x48;
                         Codec.byte2 := Byte.x00; Codec.byte3 := Byte.x00 |};
     Codec.gps_lon := {| Codec.byte0 := Byte.xc2; Codec.byte1 := Byte.xf0;
                         Codec.byte2 := Byte.x00; Codec.byte3 := Byte.x00 |} |}.

Definition payload : list byte := repeat Byte.xff 48.

(** A stand-in for the Base64 encoder, and a summary-like dictionary that
    carries byte strings in a nested dictionary and in a list. *)
Definition base64 : Cleaning.Base64 :=
  {| Cleaning.b64encode := fun b => String.string_of_list_byte b |}.

Definition echo_with_bytes : Cleaning.pyobj :=
  Cleaning.PDict
    [("total"%string, Cleaning.PNum (3 # 1));
     ("args"%string,
      Cleaning.PDict [("payload"%string, Cleaning.PBytes [Byte.x70; Byte.x69]);
                      ("hosts"%string, Cleaning.PList [Cleaning.PBytes [Byte.x61]])])].

(** A run folder with a summary and a request log, no system samples. *)
Definition pqc_run : gmap string (list byte) :=
  {[ "runs/pqc/summary.json"%string := [Byte.x7b; Byte.x7d];
     "runs/pqc/requests.csv"%string := [Byte.x69; Byte.x64; Byte.x78] ]}.

(** A list that holds a byte string inside a tuple. *)
Definition tuple_with_bytes : Cleaning.pyobj :=
  Cleaning.PList [Cleaning.PTuple [Cleaning.PBytes [Byte.x61]]].

End Cases.

(** * Properties *)

(** ** The stand-in for [set.pop()] is lawful *)

Lemma first_element_elem (s : gset string) : s <> ∅ -> Sample.first_element s ∈ s.
Proof.
  intros Hne. unfold Sample.first_element.
  destruct (elements s) as [| x l] eqn:E.
  - apply elements_empty_inv in E. apply leibniz_equiv in E. contradiction.
  - cbn. apply elem_of_elements. rewrite E. apply list_elem_of_here.
Qed.

Definition set_pop_first : SetPop := {|
  set_pop := Sample.first_element;
  set_pop_elem := first_element_elem
|}.

Lemma prefer_elem (target : string) (s : gset string) : s <> ∅ -> Sample.prefer target s ∈ s.
Proof.
  intros Hne. unfold Sample.prefer.
  destruct (decide (target ∈ s)); [assumption | now apply first_element_elem].
Qed.

Definition set_pop_prefer (target : string) : SetPop := {|
  set_pop := Sample.prefer target;
  set_pop_elem := prefer_elem target
|}.

(** ** Admission control *)

Lemma Qdiv_CPU_SCALE (cpu : Q) : (cpu / Secoc.CPU_SCALE == cpu * (1 # 120))%Q.
Proof. unfold Secoc.CPU_SCALE. field. Qed.

Lemma py_min_Qmin (a b : Q) : (Secoc.py_min a b == Qmin a b)%Q.
Proof.
  unfold Secoc.py_min. destruct (Qlt_le_dec b a) as [Hlt | Hle].
  - symmetry. apply Q.min_r. now apply Qlt_le_weak.
  - symmetry. now apply Q.min_l.
Qed.

Lemma py_min_mono_r (a b b' : Q) : (b <= b')%Q -> (Secoc.py_min a b <= Secoc.py_min a b')%Q.
Proof.
  intros Hb. unfold Secoc.py_min.
  destruct (Qlt_le_dec b a), (Qlt_le_dec b' a); try lra.
Qed.

(** C4. The SECOC receiver's drop probability is
    [min(0.85, cpu_percent / 120.0)] for every non-negative CPU
    percentage, does not decrease when the CPU percentage grows, and is
    the cap 0.85 itself from 102 percent on. *)
Theorem secoc_drop_probability (cpu cpu' : Q) :
  (0 <= cpu)%Q -> (cpu <= cpu')%Q ->
  (fst (Secoc.compute_drop_prob (Some cpu)) == Qmin (85 # 100) (cpu / (120 # 1)))%Q
  /\ (fst (Secoc.compute_drop_prob (Some cpu)) <= fst (Secoc.compute_drop_prob (Some cpu')))%Q
  /\ ((102 # 1 <= cpu)%Q -> fst (Secoc.compute_drop_prob (Some cpu)) = (85 # 100)%Q).
Proof.
  intros Hpos Hle. cbn [Secoc.compute_drop_prob fst]. repeat split.
  - apply py_min_Qmin.
  - apply py_min_mono_r. rewrite !Qdiv_CPU_SCALE. lra.
  - intros Hcap. unfold Secoc.py_min, Secoc.MAX_DROP_PROB.
    destruct (Qlt_le_dec _ _) as [Hlt | _]; [| reflexivity].
    rewrite Qdiv_CPU_SCALE in Hlt. lra.
Qed.

Lemma secoc_drop_probability_witness :
  (fst (Secoc.compute_drop_prob (Some (102 # 1))) == Qmin (85 # 100) ((102 # 1) / (120 # 1)))%Q
  /\ (fst (Secoc.compute_drop_prob (Some (102 # 1)))
      <= fst (Secoc.compute_drop_prob (Some (110 # 1))))%Q
  /\ ((102 # 1 <= 102 # 1)%Q ->
      fst (Secoc.compute_drop_prob (Some (102 # 1)%Q)) = (85 # 100)%Q).
Proof.
  apply (secoc_drop_probability (102 # 1) (110 # 1)); unfold Qle; simpl; lia.
Defined.

Example drop_probability_at_60 :
  fst (Secoc.compute_drop_prob (Some (60 # 1)%Q)) = (60 # 120)%Q.
Proof. reflexivity. Qed.

Example drop_probability_meter_failure : Secoc.compute_drop_prob None = ((0 # 120)%Q, 0%Q).
Proof. reflexivity. Qed.

Lemma pqc_overloaded_above_limit (cpu random_draw : Q) :
  (Pqc.CPU_LIMIT < cpu)%Q -> Pqc.overloaded cpu random_draw = true.
Proof.
  intros Hcpu. unfold Pqc.overloaded.
  destruct (Qlt_le_dec Pqc.CPU_LIMIT cpu) as [_ | Hle]; [reflexivity |].
  exfalso. apply (Qlt_not_le _ _ Hcpu Hle).
Qed.

(** C1, as the code has it.  In the PQC receiver's pre-admission check,
    for every envelope whose read completed, a host CPU percentage
    strictly above 85.0 drops the message (it is not enqueued), whatever
    the uniform random draw is. *)
Theorem pqc_drop_above_cpu_limit (conn conn' : Wire.socket) (item : Pqc.work_item)
    (cpu random_draw : Q) (st : Pqc.state) :
  Pqc.read_envelope conn = (Ret item, conn') ->
  (85 # 1 < cpu)%Q ->
  Pqc.handle_connection conn cpu random_draw st = (st, Pqc.Drop cpu).
Proof.
  intros Hread Hcpu. unfold Pqc.handle_connection. rewrite Hread.
  now rewrite (pqc_overloaded_above_limit cpu random_draw Hcpu).
Qed.

Lemma pqc_drop_above_cpu_limit_witness :
  Pqc.handle_connection Sample.pqc_conn (90 # 1) (1 # 2) Pqc.initial_state
  = (Pqc.initial_state, Pqc.Drop (90 # 1)).
Proof.
  apply (pqc_drop_above_cpu_limit Sample.pqc_conn [] Sample.pqc_item).
  - vm_compute. reflexivity.
  - reflexivity.
Defined.

(** C1, as the specification words it ("at or above 85"), fails: at a CPU
    percentage of exactly 85.0 and a random draw of 0.5 the envelope is
    read completely and enqueued. *)
Lemma pqc_cpu_at_limit_enqueued :
  fst (Pqc.read_envelope Sample.pqc_conn) = Ret Sample.pqc_item
  /\ (85 # 1 <= 85 # 1)%Q
  /\ Pqc.handle_connection Sample.pqc_conn (85 # 1) (1 # 2) Pqc.initial_state
     = ({| Pqc.SEEN_HASHES := ∅; Pqc.MSG_QUEUE := [Sample.pqc_item] |}, Pqc.Enqueued).
Proof.
  split; [| split].
  - vm_compute. reflexivity.
  - apply Qle_refl.
  - vm_compute. reflexivity.
Qed.

(** ** Freshness windows *)

Lemma unpack_Q_last8 (message : list byte) :
  (8 <= length message)%nat ->
  Wire.unpack_Q (Wire.last8 message) = Some (Wire.int_from_bytes_big (Wire.last8 message)).
Proof.
  intros Hlen. unfold Wire.unpack_Q, Wire.last8. rewrite length_drop.
  replace (length message - (length message - 8))%nat with 8%nat by lia.
  reflexivity.
Qed.

(** C5. Freshness boundaries.  A message that reaches the SECOC
    receiver's freshness check (its timestamp [ts] parses) gets past it
    exactly when [now - ts <= 5] and [ts - now <= 5]; otherwise it is
    dropped as stale ([now - ts > 5], so age 6 but not age 5) or as future
    ([ts - now > 5], so skew 6 but not skew 5).  The PQC worker lets a
    message with a parseable timestamp past its window check exactly when
    [|now - ts| <= 30], and drops it silently otherwise (31 but not 30). *)
Theorem freshness_boundaries {P : Primitives} {S : SetPop}
    (message tag : list byte) (tag_len : nat) (env : Secoc.environment)
    (st : Secoc.replay_state)
    (message' signature public_key : list byte) (now : Z) (seen : gset string) :
  (56 <= length message)%nat ->
  (8 <= length message')%nat ->
  let ts := Wire.int_from_bytes_big (Wire.last8 message) in
  let ts' := Wire.int_from_bytes_big (Wire.last8 message') in
  let secoc := snd (Secoc.check_envelope message tag_len tag env st) in
  let pqc := snd (Pqc.handle_message message' signature public_key now seen) in
  (Secoc.past_freshness secoc = true <-> Secoc.now env - ts <= 5 /\ ts - Secoc.now env <= 5)
  /\ (Secoc.now env - ts > 5 -> secoc = Secoc.StaleDropped (Secoc.now env - ts))
  /\ (Secoc.now env - ts <= 5 -> ts - Secoc.now env > 5 ->
      secoc = Secoc.FutureDropped (ts - Secoc.now env))
  /\ (Pqc.past_freshness pqc = true <-> Z.abs (now - ts') <= 30)
  /\ (Z.abs (now - ts') > 30 -> pqc = Pqc.OutsideWindow).
Proof.
  intros Hlen Hlen' ts ts' secoc pqc.
  assert (Hs : secoc = snd (Secoc.check_envelope message tag_len tag env st)) by reflexivity.
  assert (Hp : pqc = snd (Pqc.handle_message message' signature public_key now seen))
    by reflexivity.
  clearbody secoc pqc.
  unfold Secoc.check_envelope in Hs. unfold Pqc.handle_message in Hp.
  rewrite unpack_Q_last8 in Hs by lia. rewrite unpack_Q_last8 in Hp by lia.
  fold ts in Hs. fold ts' in Hp.
  destruct (length message <? 56)%nat eqn:Eshort; [apply Nat.ltb_lt in Eshort; lia |].
  unfold Secoc.FRESHNESS_MAX_AGE, Secoc.FRESHNESS_FUTURE_TOL in Hs.
  unfold Pqc.FRESHNESS_WINDOW in Hp.
  assert (Hsecoc :
    (Secoc.past_freshness secoc = true <-> Secoc.now env - ts <= 5 /\ ts - Secoc.now env <= 5)
    /\ (Secoc.now env - ts > 5 -> secoc = Secoc.StaleDropped (Secoc.now env - ts))
    /\ (Secoc.now env - ts <= 5 -> ts - Secoc.now env > 5 ->
        secoc = Secoc.FutureDropped (ts - Secoc.now env))).
  { destruct (5 <? Secoc.now env - ts) eqn:Estale.
    { apply Z.ltb_lt in Estale. subst secoc. cbn. repeat split; intros; try lia; try discriminate. }
    apply Z.ltb_ge in Estale.
    destruct (5 <? ts - Secoc.now env) eqn:Efuture.
    { apply Z.ltb_lt in Efuture. subst secoc. cbn.
      repeat split; intros; try lia; try discriminate. }
    apply Z.ltb_ge in Efuture.
    split; [| split; intros; lia].
    split; [intros _; lia | intros _].
    subst secoc.
    repeat (match goal with
            | |- context [decide ?X] => destruct (decide X)
            | |- context [Secoc.record_replay ?h ?s] =>
                destruct (Secoc.record_replay h s) as [[? | ? |] ?]
            | |- context [Secoc.compute_drop_prob ?c] =>
                destruct (Secoc.compute_drop_prob c)
            | |- context [Qlt_le_dec ?a ?b] => destruct (Qlt_le_dec a b)
            | |- context [(?a =? ?b)%nat] => destruct (a =? b)%nat
            end; cbn); reflexivity. }
  destruct Hsecoc as (H1 & H2 & H3).
  split; [exact H1 | split; [exact H2 | split; [exact H3 |]]].
  destruct (30 <? Z.abs (now - ts')) eqn:Ewin.
  - apply Z.ltb_lt in Ewin. subst pqc. cbn. split; [split; intros; [discriminate | lia] | reflexivity].
  - apply Z.ltb_ge in Ewin. split; [| intros; lia].
    split; [intros _; lia | intros _]. subst pqc.
    destruct (decide (sha256_hexdigest (message' ++ signature) ∈ seen)); [reflexivity |].
    destruct (dilithium2_verify message' signature public_key) as [? | []]; reflexivity.
Qed.

(** The boundaries on the sample message (timestamp 1000): the SECOC
    receiver at clock 1005 and the PQC worker at clock 1030 let it pass. *)
Lemma freshness_boundaries_witness :
  Secoc.past_freshness
    (snd (Secoc.check_envelope (H := Sample.primitives) Sample.message 8 Sample.tag
            {| Secoc.now := 1005; Secoc.cpu_percent := Some 0%Q; Secoc.random_draw := (1 # 2)%Q |}
            Secoc.initial_state)) = true
  /\ Pqc.past_freshness
       (snd (Pqc.handle_message (H := Sample.primitives) (H0 := set_pop_first)
               Sample.message Sample.signature Sample.public_key 1030 ∅)) = true.
Proof.
  pose proof (freshness_boundaries (P := Sample.primitives) (S := set_pop_first)
    Sample.message Sample.tag 8
    {| Secoc.now := 1005; Secoc.cpu_percent := Some 0%Q; Secoc.random_draw := (1 # 2)%Q |}
    Secoc.initial_state Sample.message Sample.signature Sample.public_key 1030 ∅) as H.
  cbv zeta in H.
  destruct H as (Hs & _ & _ & Hp & _).
  - vm_compute. lia.
  - vm_compute. lia.
  - split.
    + apply Hs. vm_compute. split; intros E; discriminate E.
    + apply Hp. vm_compute. intros E; discriminate E.
Defined.

Section FreshnessExamples.

Let env (now : Z) : Secoc.environment :=
  {| Secoc.now := now; Secoc.cpu_percent := Some 0%Q; Secoc.random_draw := (1 # 2)%Q |}.

Let secoc (now : Z) : Secoc.outcome :=
  snd (Secoc.check_envelope (H := Sample.primitives) Sample.message 8 Sample.tag (env now)
         Secoc.initial_state).

Let pqc (now : Z) : Pqc.verdict :=
  snd (Pqc.handle_message (H := Sample.primitives) (H0 := set_pop_first)
         Sample.message Sample.signature Sample.public_key now ∅).

Example secoc_age_5 : secoc 1005 = Secoc.ValidMessage 5.
Proof. vm_compute. reflexivity. Qed.

Example secoc_age_6 : secoc 1006 = Secoc.StaleDropped 6.
Proof. vm_compute. reflexivity. Qed.

Example secoc_future_5 : secoc 995 = Secoc.ValidMessage (-5).
Proof. vm_compute. reflexivity. Qed.

Example secoc_future_6 : secoc 994 = Secoc.FutureDropped 6.
Proof. vm_compute. reflexivity. Qed.

Example pqc_difference_30 : pqc 1030 = Pqc.Verified /\ pqc 970 = Pqc.Verified.
Proof. vm_compute. split; reflexivity. Qed.

Example pqc_difference_31 : pqc 1031 = Pqc.OutsideWindow /\ pqc 969 = Pqc.OutsideWindow.
Proof. vm_compute. split; reflexivity. Qed.

End FreshnessExamples.

(** ** Exact-length reads and envelope framing *)

Section RecvExact.

Variables on_timeout on_closed : exn.

(** The loop on a connection that delivers [concat chunks] and then stops:
    with enough bytes it returns exactly the bytes asked for and leaves the
    rest queued; otherwise it raises.  It never runs out of fuel. *)
Lemma recv_exact_loop_spec (fuel len : nat) :
  forall (data : list byte) (chunks : list (list byte)) (ending : Wire.socket),
    Forall (fun c => c <> []) chunks ->
    Wire.stops ending ->
    (len - length data <= fuel)%nat ->
    let need := (len - length data)%nat in
    (need <= length (concat chunks))%nat /\
      (exists chunks',
         Forall (fun c => c <> []) chunks' /\
         concat chunks' = drop need (concat chunks) /\
         Wire.recv_exact_loop on_timeout on_closed fuel len data (map Wire.Data chunks ++ ending)
         = (Ret (data ++ take need (concat chunks)), map Wire.Data chunks' ++ ending))
    \/ (length (concat chunks) < need)%nat /\
      (exists conn',
         Wire.recv_exact_loop on_timeout on_closed fuel len data (map Wire.Data chunks ++ ending)
         = (Raise (match ending with [] => on_closed | _ => on_timeout end), conn')).
Proof.
  induction fuel as [| fuel IH]; intros data chunks ending Hne Hstop Hfuel need.
  - left. assert (need = 0%nat) as -> by (unfold need; lia).
    split; [lia |]. exists chunks. rewrite drop_0, take_0, app_nil_r.
    split; [exact Hne | split; [reflexivity |]].
    cbn [Wire.recv_exact_loop].
    destruct (length data <? len)%nat eqn:E; [apply Nat.ltb_lt in E; lia | reflexivity].
  - cbn [Wire.recv_exact_loop].
    destruct (length data <? len)%nat eqn:E.
    2:{ apply Nat.ltb_ge in E. left. assert (need = 0%nat) as -> by (unfold need; lia).
        split; [lia |]. exists chunks. rewrite drop_0, take_0, app_nil_r. auto. }
    apply Nat.ltb_lt in E. fold need.
    destruct chunks as [| c chunks].
    + right. cbn. split; [unfold need; lia |].
      destruct Hstop as [-> | [rest ->]]; cbn.
      * exists []. auto.
      * exists rest. auto.
    + apply Forall_cons in Hne as [Hc Hne]. cbn [map app Wire.recv concat].
      assert (Hlc : (0 < length c)%nat) by (destruct c; [contradiction | cbn; lia]).
      destruct (length c <=? need)%nat eqn:Ec.
      * apply Nat.leb_le in Ec.
        destruct (decide (c = [])) as [? | _]; [contradiction |].
        specialize (IH (data ++ c) chunks ending Hne Hstop).
        rewrite length_app in IH. cbv zeta in IH.
        replace (len - (length data + length c))%nat with (need - length c)%nat in IH
          by (unfold need; lia).
        destruct IH as [[Hle (chunks' & Hne' & Hcat & Hrun)] | [Hlt (conn' & Hrun)]];
          [unfold need in *; lia | |].
        -- left. rewrite length_app. split; [lia |].
           exists chunks'. split; [exact Hne' |].
           rewrite Hrun, Hcat, drop_app_ge, take_app_ge by lia.
           rewrite <- app_assoc. auto.
        -- right. rewrite length_app. split; [lia |]. exists conn'. auto.
      * apply Nat.leb_gt in Ec. left. rewrite length_app. split; [lia |].
        assert (Hneed : (0 < need)%nat) by (unfold need; lia).
        destruct (decide (take need c = [])) as [Hnil | _].
        { apply (f_equal length) in Hnil. rewrite length_take in Hnil. cbn in Hnil. lia. }
        exists (drop need c :: chunks). split; [| split].
        -- apply Forall_cons. split; [| exact Hne].
           intros Hnil. apply (f_equal length) in Hnil. rewrite length_drop in Hnil.
           cbn in Hnil. lia.
        -- cbn. now rewrite drop_app_le by lia.
        -- rewrite take_app_le by lia.
           destruct fuel as [| fuel']; cbn [Wire.recv_exact_loop];
             rewrite length_app, length_take;
             (destruct (length data + need `min` length c <? len)%nat eqn:E';
              [apply Nat.ltb_lt in E'; unfold need in *; lia | reflexivity]).
Qed.

(** The loop ends within [len - length data] iterations on every
    connection, whatever it delivers. *)
Lemma recv_exact_loop_finishes (fuel len : nat) :
  forall (data : list byte) (conn : Wire.socket),
    (len - length data <= fuel)%nat ->
    fst (Wire.recv_exact_loop on_timeout on_closed fuel len data conn) <> OutOfFuel.
Proof.
  induction fuel as [| fuel IH]; intros data conn Hfuel; cbn [Wire.recv_exact_loop].
  - destruct (length data <? len)%nat eqn:E; [apply Nat.ltb_lt in E; lia | discriminate].
  - destruct (length data <? len)%nat eqn:E; [| discriminate].
    apply Nat.ltb_lt in E.
    destruct (Wire.recv conn (len - length data)) as [[chunk |] conn']; [| discriminate].
    destruct (decide (chunk = [])) as [| Hchunk]; [discriminate |].
    apply IH. rewrite length_app.
    assert ((0 < length chunk)%nat) by (destruct chunk; [contradiction | cbn; lia]).
    lia.
Qed.

Lemma recv_exact_finishes (len : nat) :
  Wire.finishes (Wire.recv_exact_loop on_timeout on_closed len len []).
Proof. intros conn. apply recv_exact_loop_finishes. cbn. lia. Qed.

(** One exact-length read against a stream [p] that is a prefix of
    [a ++ wire]: it returns [a] when [p] holds all of [a], and raises
    otherwise. *)
Lemma recv_exact_prefix (len : nat) (a p rest wire : list byte) (conn ending : Wire.socket) :
  length a = len ->
  Wire.delivers_then ending conn p ->
  Wire.stops ending ->
  p ++ rest = a ++ wire ->
  (exists p' conn',
     p = a ++ p' /\ p' ++ rest = wire /\
     Wire.recv_exact_loop on_timeout on_closed len len [] conn = (Ret a, conn') /\
     Wire.delivers_then ending conn' p')
  \/ (length p < length a)%nat /\
     (exists conn',
        Wire.recv_exact_loop on_timeout on_closed len len [] conn
        = (Raise (match ending with [] => on_closed | _ => on_timeout end), conn')).
Proof.
  intros <- (chunks & -> & Hne & Hcat) Hstop Hwire.
  destruct (recv_exact_loop_spec (length a) (length a) [] chunks ending Hne Hstop)
    as [[Hle (chunks' & Hne' & Hcat' & Hrun)] | [Hlt Hraise]]; [cbn; lia | |].
  - left. cbn [length] in *. rewrite Nat.sub_0_r in *. rewrite Hcat in *.
    assert (Ha : take (length a) p = a).
    { apply (f_equal (take (length a))) in Hwire.
      now rewrite take_app_le, take_app_length in Hwire by lia. }
    exists (drop (length a) p), (map Wire.Data chunks' ++ ending).
    split; [now rewrite <- Ha at 1; rewrite take_drop |].
    split.
    { apply (f_equal (drop (length a))) in Hwire.
      now rewrite drop_app_le, drop_app_length in Hwire by lia. }
    split; [now rewrite Hrun, Ha |].
    exists chunks'. auto.
  - right. cbn [length] in *. rewrite Nat.sub_0_r in *. rewrite Hcat in *. auto.
Qed.

End RecvExact.

Lemma finishes_bind {A B} (m : Wire.reader A) (k : A -> Wire.reader B) :
  Wire.finishes m -> (forall a, Wire.finishes (k a)) -> Wire.finishes (m ≫= k).
Proof.
  intros Hm Hk conn. unfold mbind, Wire.reader_bind.
  specialize (Hm conn). destruct (m conn) as [[a | e |] conn'];
    [apply Hk | discriminate | contradiction].
Qed.

Lemma finishes_ret {A} (a : A) : Wire.finishes (mret a).
Proof. intros conn. discriminate. Qed.

(** Both receivers' envelope reads end on every connection, so neither
    handler is ever left unfinished. *)
Lemma read_envelope_finishes :
  Wire.finishes Secoc.read_envelope /\ Wire.finishes Pqc.read_envelope.
Proof.
  split; unfold Secoc.read_envelope, Pqc.read_envelope;
    repeat (apply finishes_bind; [apply recv_exact_finishes | intros ?]);
    apply finishes_ret.
Qed.

Lemma handle_connection_finishes {P : Primitives} (conn : Wire.socket)
    (env : Secoc.environment) (st : Secoc.replay_state) (cpu random_draw : Q)
    (st' : Pqc.state) :
  snd (Secoc.handle_connection conn env st) <> Secoc.Unfinished
  /\ snd (Pqc.handle_connection conn cpu random_draw st') <> Pqc.Unfinished.
Proof.
  destruct read_envelope_finishes as [Hs Hp]. specialize (Hs conn). specialize (Hp conn).
  split.
  - unfold Secoc.handle_connection.
    destruct (Secoc.read_envelope conn) as [[[[message tag_len] tag] | e |] conn''];
      [| destruct e; discriminate | contradiction].
    unfold Secoc.check_envelope.
    repeat (match goal with
            | |- context [if ?b then _ else _] => destruct b
            | |- context [match Wire.unpack_Q ?f with _ => _ end] => destruct (Wire.unpack_Q f)
            | |- context [Secoc.compute_drop_prob ?c] => destruct (Secoc.compute_drop_prob c)
            | |- context [Secoc.record_replay ?h ?s] =>
                destruct (Secoc.record_replay h s) as [[? | ? |] ?]
            end; try discriminate).
  - unfold Pqc.handle_connection.
    destruct (Pqc.read_envelope conn) as [[item | e |] conn'']; [| discriminate | contradiction].
    destruct (Pqc.overloaded cpu random_draw); [discriminate |].
    destruct (_ <=? _)%nat; discriminate.
Qed.

Lemma byte_of_Z_value (k : Z) :
  0 <= k < 256 -> Z.of_N (Byte.to_N (Wire.byte_of_Z k)) = k.
Proof.
  intros Hk. unfold Wire.byte_of_Z.
  destruct (Byte.of_N (Z.to_N k)) as [b |] eqn:E.
  - apply Byte.to_of_N in E. cbn. lia.
  - apply Byte.of_N_None_iff in E. lia.
Qed.

(** A framed field is a two-byte prefix that decodes to the field's
    length, followed by the field. *)
Lemma frame_field_inv (field : list byte) :
  Z.of_nat (length field) <= 65535 ->
  exists prefix,
    Wire.frame_field field = inr (prefix ++ field) /\ length prefix = 2%nat /\
    Z.to_nat (Wire.int_from_bytes_big prefix) = length field.
Proof.
  intros Hlen. unfold Wire.frame_field, Wire.to_bytes2_big.
  set (n := Z.of_nat (length field)).
  assert (Hn : 0 <= n <= 65535) by (unfold n; lia).
  destruct (n <? 0) eqn:E1; [apply Z.ltb_lt in E1; lia |].
  destruct (65535 <? n) eqn:E2; [apply Z.ltb_lt in E2; lia |].
  cbn [orb]. eexists. split; [reflexivity |]. split; [reflexivity |].
  unfold Wire.int_from_bytes_big. cbn [fold_left].
  rewrite !byte_of_Z_value.
  - rewrite Z.add_0_l, Z.mul_comm, <- Z.div_mod by lia. unfold n. lia.
  - apply Z.mod_pos_bound. lia.
  - split; [apply Z.div_pos; lia | apply Z.div_lt_upper_bound; lia].
Qed.

(** A field that is too long cannot be framed: the sender's [to_bytes]
    raises. *)
Lemma frame_field_overflow (field : list byte) :
  65535 < Z.of_nat (length field) -> Wire.frame_field field = inl OverflowError.
Proof.
  intros Hlen. unfold Wire.frame_field, Wire.to_bytes2_big.
  destruct (Z.of_nat (length field) <? 0) eqn:E1; [reflexivity |].
  destruct (65535 <? Z.of_nat (length field)) eqn:E2; [reflexivity |].
  apply Z.ltb_ge in E2. lia.
Qed.

(** One read in a chain of reads: the bytes [a] come off the stream, or
    the read raises because the stream ends inside [a]. *)
Ltac read_field Hrun Hd Hw Hstop Hl :=
  let p' := fresh "p" in
  let c' := fresh "conn" in
  let Hp := fresh "Hp" in
  let Hlt := fresh "Hlt" in
  let Hw2 := fresh "Hw" in
  let Hd2 := fresh "Hd" in
  match type of Hw with
  | ?p ++ ?rest = ?a ++ ?wire =>
      match goal with
      | |- context [Wire.recv_exact_loop ?t ?c ?n ?n [] ?conn] =>
          destruct (recv_exact_prefix t c n a p rest wire conn _ Hl Hd Hstop Hw)
            as [(p' & c' & Hp & Hw2 & Hrun & Hd2) | (Hlt & c' & Hrun)];
          rewrite Hrun; cbv beta iota;
          [clear Hw Hd; rename Hw2 into Hw; rename Hd2 into Hd |]
      end
  end.

Lemma secoc_read_envelope_prefix (message tag p rest : list byte)
    (conn ending : Wire.socket) :
  Z.of_nat (length message) <= 65535 -> Z.of_nat (length tag) <= 65535 ->
  Secoc.send_envelope message tag = inr (p ++ rest) ->
  Wire.delivers_then ending conn p -> Wire.stops ending ->
  (rest = [] ->
   exists conn', Secoc.read_envelope conn = (Ret (message, length tag, tag), conn'))
  /\ (rest <> [] ->
      exists msg conn', Secoc.read_envelope conn = (Raise (ConnectionError msg), conn')).
Proof.
  intros Hm Ht Hsend Hd Hstop.
  destruct (frame_field_inv message Hm) as (h1 & Hf1 & Hl1 & Hv1).
  destruct (frame_field_inv tag Ht) as (h2 & Hf2 & Hl2 & Hv2).
  unfold Secoc.send_envelope in Hsend. rewrite Hf1, Hf2 in Hsend.
  injection Hsend as Hw. symmetry in Hw. rewrite <- !app_assoc in Hw.
  unfold Secoc.read_envelope, Secoc.recv_exact, mbind, Wire.reader_bind, mret, Wire.reader_ret.
  assert (Hlen : (length p + length rest
                  = length h1 + length message + length h2 + length tag)%nat).
  { apply (f_equal length) in Hw. rewrite !length_app in Hw. lia. }
  assert (Hnil : rest <> [] -> (0 < length rest)%nat).
  { destruct rest; [contradiction | cbn; lia]. }
  read_field Hrun Hd Hw Hstop Hl1.
  2:{ split; [intros ->; cbn in Hlen; lia |].
      intros _. destruct ending; eauto. }
  rewrite Hv1.
  read_field Hrun2 Hd Hw Hstop (eq_refl (length message)).
  2:{ subst p. rewrite !length_app in *.
      split; [intros ->; cbn in Hlen; lia |].
      intros _. destruct ending; eauto. }
  read_field Hrun3 Hd Hw Hstop Hl2.
  2:{ subst p p0. rewrite !length_app in *.
      split; [intros ->; cbn in Hlen; lia |].
      intros _. destruct ending; eauto. }
  rewrite Hv2.
  rewrite <- (app_nil_r tag) in Hw.
  read_field Hrun4 Hd Hw Hstop (eq_refl (length tag)).
  2:{ subst p p0 p1. rewrite !length_app in *.
      split; [intros ->; cbn in Hlen; lia |].
      intros _. destruct ending; eauto. }
  split; [eauto |].
  intros Hrest. apply Hnil in Hrest. apply (f_equal length) in Hw.
  rewrite length_app in Hw. cbn in Hw. lia.
Qed.

Lemma pqc_read_envelope_prefix (message signature public_key p rest : list byte)
    (conn ending : Wire.socket) :
  Z.of_nat (length message) <= 65535 -> Z.of_nat (length signature) <= 65535 ->
  Z.of_nat (length public_key) <= 65535 ->
  Pqc.send_envelope message signature public_key = inr (p ++ rest) ->
  Wire.delivers_then ending conn p -> Wire.stops ending ->
  (rest = [] ->
   exists conn',
     Pqc.read_envelope conn
     = (Ret {| Pqc.item_message := message; Pqc.item_signature := signature;
               Pqc.item_public_key := public_key |}, conn'))
  /\ (rest <> [] ->
      exists conn',
        Pqc.read_envelope conn
        = (Raise (match ending with
                  | [] => ConnectionError "connection closed early"
                  | _ => SocketTimeout
                  end), conn')).
Proof.
  intros Hm Hs Hk Hsend Hd Hstop.
  destruct (frame_field_inv message Hm) as (h1 & Hf1 & Hl1 & Hv1).
  destruct (frame_field_inv signature Hs) as (h2 & Hf2 & Hl2 & Hv2).
  destruct (frame_field_inv public_key Hk) as (h3 & Hf3 & Hl3 & Hv3).
  unfold Pqc.send_envelope in Hsend. rewrite Hf1, Hf2, Hf3 in Hsend.
  injection Hsend as Hw. symmetry in Hw. rewrite <- !app_assoc in Hw.
  unfold Pqc.read_envelope, Pqc.recv_exact, mbind, Wire.reader_bind, mret, Wire.reader_ret.
  assert (Hlen : (length p + length rest
                  = length h1 + length message + length h2 + length signature
                    + length h3 + length public_key)%nat).
  { apply (f_equal length) in Hw. rewrite !length_app in Hw. lia. }
  assert (Hnil : rest <> [] -> (0 < length rest)%nat).
  { destruct rest; [contradiction | cbn; lia]. }
  read_field Hrun Hd Hw Hstop Hl1.
  2:{ split; [intros ->; cbn in Hlen; lia | eauto]. }
  rewrite Hv1.
  read_field Hrun2 Hd Hw Hstop (eq_refl (length message)).
  2:{ subst p. rewrite !length_app in *. split; [intros ->; cbn in Hlen; lia | eauto]. }
  read_field Hrun3 Hd Hw Hstop Hl2.
  2:{ subst p p0. rewrite !length_app in *. split; [intros ->; cbn in Hlen; lia | eauto]. }
  rewrite Hv2.
  read_field Hrun4 Hd Hw Hstop (eq_refl (length signature)).
  2:{ subst p p0 p1. rewrite !length_app in *. split; [intros ->; cbn in Hlen; lia | eauto]. }
  read_field Hrun5 Hd Hw Hstop Hl3.
  2:{ subst p p0 p1 p2. rewrite !length_app in *.
      split; [intros ->; cbn in Hlen; lia | eauto]. }
  rewrite Hv3.
  rewrite <- (app_nil_r public_key) in Hw.
  read_field Hrun6 Hd Hw Hstop (eq_refl (length public_key)).
  2:{ subst p p0 p1 p2 p3. rewrite !length_app in *.
      split; [intros ->; cbn in Hlen; lia | eauto]. }
  split; [eauto |].
  intros Hrest. apply Hnil in Hrest. apply (f_equal length) in Hw.
  rewrite length_app in Hw. cbn in Hw. lia.
Qed.

Lemma send_envelope_secoc_defined (message tag : list byte) :
  Z.of_nat (length message) <= 65535 -> Z.of_nat (length tag) <= 65535 ->
  exists wire, Secoc.send_envelope message tag = inr wire.
Proof.
  intros Hm Ht.
  destruct (frame_field_inv message Hm) as (h1 & Hf1 & _).
  destruct (frame_field_inv tag Ht) as (h2 & Hf2 & _).
  unfold Secoc.send_envelope. rewrite Hf1, Hf2. eauto.
Qed.

Lemma send_envelope_pqc_defined (message signature public_key : list byte) :
  Z.of_nat (length message) <= 65535 -> Z.of_nat (length signature) <= 65535 ->
  Z.of_nat (length public_key) <= 65535 ->
  exists wire, Pqc.send_envelope message signature public_key = inr wire.
Proof.
  intros Hm Hs Hk.
  destruct (frame_field_inv message Hm) as (h1 & Hf1 & _).
  destruct (frame_field_inv signature Hs) as (h2 & Hf2 & _).
  destruct (frame_field_inv public_key Hk) as (h3 & Hf3 & _).
  unfold Pqc.send_envelope. rewrite Hf1, Hf2, Hf3. eauto.
Qed.

Lemma stops_closed : Wire.stops [].
Proof. now left. Qed.

(** C9. Envelope framing round-trip.  For byte strings of at most 65535
    bytes each, the sender's framing of a pair (message, tag) or of a
    triple (message, signature, public key) is defined, and the
    receiver's exact-length reads, on a connection that delivers the
    framed bytes in segments of any sizes, return the original fields.
    On a connection that delivers only a proper prefix of the framed
    bytes and is then closed, the reads raise a [ConnectionError] instead
    of returning fields. *)
Theorem envelope_framing_round_trip (message tag message' signature public_key : list byte) :
  Z.of_nat (length message) <= 65535 -> Z.of_nat (length tag) <= 65535 ->
  Z.of_nat (length message') <= 65535 -> Z.of_nat (length signature) <= 65535 ->
  Z.of_nat (length public_key) <= 65535 ->
  exists wire wire',
    Secoc.send_envelope message tag = inr wire
    /\ Pqc.send_envelope message' signature public_key = inr wire'
    /\ (forall conn, Wire.delivers conn wire ->
        fst (Secoc.read_envelope conn) = Ret (message, length tag, tag))
    /\ (forall conn p rest, p ++ rest = wire -> rest <> [] -> Wire.delivers conn p ->
        exists msg, fst (Secoc.read_envelope conn) = Raise (ConnectionError msg))
    /\ (forall conn, Wire.delivers conn wire' ->
        fst (Pqc.read_envelope conn)
        = Ret {| Pqc.item_message := message'; Pqc.item_signature := signature;
                 Pqc.item_public_key := public_key |})
    /\ (forall conn p rest, p ++ rest = wire' -> rest <> [] -> Wire.delivers conn p ->
        exists msg, fst (Pqc.read_envelope conn) = Raise (ConnectionError msg)).
Proof.
  intros Hm Ht Hm' Hs Hk.
  destruct (send_envelope_secoc_defined message tag Hm Ht) as (wire & Hsend).
  destruct (send_envelope_pqc_defined message' signature public_key Hm' Hs Hk)
    as (wire' & Hsend').
  exists wire, wire'. split; [exact Hsend |]. split; [exact Hsend' |].
  split; [| split; [| split]].
  - intros conn Hd. rewrite <- (app_nil_r wire) in Hsend.
    destruct (secoc_read_envelope_prefix _ _ _ _ _ _ Hm Ht Hsend Hd stops_closed)
      as [Hok _].
    destruct (Hok eq_refl) as (conn' & ->). reflexivity.
  - intros conn p rest <- Hrest Hd.
    destruct (secoc_read_envelope_prefix _ _ _ _ _ _ Hm Ht Hsend Hd stops_closed)
      as [_ Hfail].
    destruct (Hfail Hrest) as (msg & conn' & ->). eauto.
  - intros conn Hd. rewrite <- (app_nil_r wire') in Hsend'.
    destruct (pqc_read_envelope_prefix _ _ _ _ _ _ _ Hm' Hs Hk Hsend' Hd stops_closed)
      as [Hok _].
    destruct (Hok eq_refl) as (conn' & ->). reflexivity.
  - intros conn p rest <- Hrest Hd.
    destruct (pqc_read_envelope_prefix _ _ _ _ _ _ _ Hm' Hs Hk Hsend' Hd stops_closed)
      as [_ Hfail].
    destruct (Hfail Hrest) as (conn' & ->). eauto.
Qed.

(** The round trip on the sample envelopes: the SECOC one arrives in two
    segments, the PQC one in a single segment. *)
Lemma envelope_framing_round_trip_witness :
  fst (Secoc.read_envelope Sample.secoc_conn) = Ret (Sample.message, 8%nat, Sample.tag)
  /\ fst (Pqc.read_envelope Sample.pqc_conn) = Ret Sample.pqc_item.
Proof.
  destruct (envelope_framing_round_trip Sample.message Sample.tag Sample.message
              Sample.signature Sample.public_key)
    as (wire & wire' & Hs & Hp & Hrt & _ & Hrt' & _);
    [vm_compute; discriminate ..|].
  split.
  - apply (Hrt Sample.secoc_conn).
    exists [take 10 wire; drop 10 wire].
    unfold Sample.secoc_conn. rewrite Hs. cbn [Sample.bytes_of map app concat].
    rewrite app_nil_r, take_drop. split; [reflexivity | split; [| reflexivity]].
    vm_compute in Hs. injection Hs as <-. repeat constructor; discriminate.
  - apply (Hrt' Sample.pqc_conn).
    exists [wire']. unfold Sample.pqc_conn. rewrite Hp. cbn [Sample.bytes_of map app concat].
    rewrite app_nil_r. split; [reflexivity | split; [| reflexivity]].
    vm_compute in Hp. injection Hp as <-. repeat constructor; discriminate.
Defined.

(** A truncated stream that stalls instead of closing: the SECOC receiver
    converts the timeout into a [ConnectionError], the PQC receiver lets
    [socket.timeout] through.  Both are transport errors. *)
Lemma truncated_and_stalled (message tag message' signature public_key : list byte)
    (p rest p' rest' : list byte) (conn conn' later : Wire.socket) :
  Z.of_nat (length message) <= 65535 -> Z.of_nat (length tag) <= 65535 ->
  Z.of_nat (length message') <= 65535 -> Z.of_nat (length signature) <= 65535 ->
  Z.of_nat (length public_key) <= 65535 ->
  Secoc.send_envelope message tag = inr (p ++ rest) -> rest <> [] ->
  Pqc.send_envelope message' signature public_key = inr (p' ++ rest') -> rest' <> [] ->
  Wire.delivers_then (Wire.Stall :: later) conn p ->
  Wire.delivers_then (Wire.Stall :: later) conn' p' ->
  (exists msg, fst (Secoc.read_envelope conn) = Raise (ConnectionError msg))
  /\ fst (Pqc.read_envelope conn') = Raise SocketTimeout.
Proof.
  intros Hm Ht Hm' Hs Hk Hsend Hrest Hsend' Hrest' Hd Hd'.
  assert (Hstop : Wire.stops (Wire.Stall :: later)) by (right; eauto).
  split.
  - destruct (secoc_read_envelope_prefix _ _ _ _ _ _ Hm Ht Hsend Hd Hstop) as [_ Hfail].
    destruct (Hfail Hrest) as (msg & c & ->). eauto.
  - destruct (pqc_read_envelope_prefix _ _ _ _ _ _ _ Hm' Hs Hk Hsend' Hd' Hstop) as [_ Hfail].
    destruct (Hfail Hrest') as (c & ->). reflexivity.
Qed.

(** ** Replay caches *)

Lemma secoc_initial_consistent : Secoc.consistent Secoc.initial_state.
Proof.
  unfold Secoc.consistent. cbn. split; [constructor | split; [reflexivity | lia]].
Qed.

(** What [record_replay] does to a consistent cache: nothing for a known
    fingerprint; otherwise the fingerprint goes to the right end, after the
    leftmost one has been dropped if the cache was full. *)
Lemma record_replay_consistent (msg_hash : string) (st : Secoc.replay_state) :
  Secoc.consistent st ->
  let cache := Secoc.REPLAY_CACHE st in
  let cache' :=
    if decide (msg_hash ∈ Secoc.REPLAY_SET st) then cache
    else if decide (length cache = Secoc.REPLAY_CACHE_SIZE) then drop 1 cache ++ [msg_hash]
    else cache ++ [msg_hash] in
  Secoc.record_replay msg_hash st
  = (Ret (bool_decide (msg_hash ∉ Secoc.REPLAY_SET st)),
     {| Secoc.REPLAY_CACHE := cache'; Secoc.REPLAY_SET := list_to_set cache' |})
  /\ Secoc.consistent (snd (Secoc.record_replay msg_hash st)).
Proof.
  intros (Hnd & Hset & Hlen) cache cache'. subst cache cache'.
  destruct st as [cache set]. cbn [Secoc.REPLAY_CACHE Secoc.REPLAY_SET] in *. subst set.
  unfold Secoc.record_replay. cbn [Secoc.REPLAY_CACHE Secoc.REPLAY_SET].
  rewrite size_list_to_set by exact Hnd.
  destruct (decide (msg_hash ∈ (list_to_set cache : gset string))) as [Hin | Hout].
  { rewrite bool_decide_eq_false_2 by auto. split; [reflexivity |].
    unfold Secoc.consistent. cbn. auto. }
  rewrite bool_decide_eq_true_2 by exact Hout.
  assert (Hfresh : msg_hash ∉ cache) by (intros Hc; apply Hout, elem_of_list_to_set, Hc).
  unfold Secoc.deque_append, Secoc.REPLAY_CACHE_SIZE in *.
  destruct (1024 <=? length cache)%nat eqn:Efull.
  - apply Nat.leb_le in Efull.
    destruct (decide (length cache = 1024%nat)) as [Hcap | ?]; [| lia].
    destruct cache as [| old cache']; [cbn in Hcap; lia |].
    cbn [length] in Hcap. apply NoDup_cons in Hnd as [Hold Hnd].
    destruct (length cache' <? 1024)%nat eqn:E; [| apply Nat.ltb_ge in E; lia].
    cbn [drop].
    assert (Heq : (list_to_set (old :: cache') ∖ {[old]} ∪ {[msg_hash]} : gset string)
                  = list_to_set (cache' ++ [msg_hash])).
    { apply set_eq. intros x.
      rewrite list_to_set_app_L, list_to_set_cons, list_to_set_singleton.
      rewrite !elem_of_union, elem_of_difference, elem_of_union, !elem_of_singleton,
        !elem_of_list_to_set.
      split; [intros [[[-> | Hx] Hne] | ->]; tauto |].
      intros [Hx | ->]; [| tauto].
      left. split; [tauto | intros ->; contradiction]. }
    rewrite Heq. split; [reflexivity |].
    unfold Secoc.consistent, Secoc.REPLAY_CACHE_SIZE.
    cbn [snd Secoc.REPLAY_CACHE Secoc.REPLAY_SET].
    split; [| split; [reflexivity | rewrite length_app; cbn; lia]].
    apply NoDup_app. split; [exact Hnd | split; [| apply NoDup_singleton]].
    intros x Hx Hx'. apply list_elem_of_singleton in Hx' as ->.
    apply Hfresh. now right.
  - apply Nat.leb_gt in Efull.
    destruct (decide (length cache = 1024%nat)) as [? | _]; [lia |].
    destruct (length cache <? 1024)%nat eqn:E; [| apply Nat.ltb_ge in E; lia].
    assert (Heq : (list_to_set cache ∪ {[msg_hash]} : gset string)
                  = list_to_set (cache ++ [msg_hash])).
    { rewrite list_to_set_app_L. cbn. now rewrite union_empty_r_L. }
    rewrite Heq. split; [reflexivity |].
    unfold Secoc.consistent, Secoc.REPLAY_CACHE_SIZE.
    cbn [snd Secoc.REPLAY_CACHE Secoc.REPLAY_SET].
    split; [| split; [reflexivity | rewrite length_app; cbn; lia]].
    apply NoDup_app. split; [exact Hnd | split; [| apply NoDup_singleton]].
    intros x Hx Hx'. apply list_elem_of_singleton in Hx' as ->. contradiction.
Qed.

Lemma record_all_consistent (hashes : list string) (st : Secoc.replay_state) :
  Secoc.consistent st -> Secoc.consistent (Secoc.record_all hashes st).
Proof.
  revert st. induction hashes as [| h hashes IH]; intros st Hst; [exact Hst |].
  cbn. apply IH. now apply record_replay_consistent.
Qed.

(** The PQC cache update never leaves more than [MAX_HASHES] entries
    behind if there were no more before. *)
Lemma remember_bounded {S : SetPop} (msg_hash : string) (seen : gset string) :
  (size seen <= Pqc.MAX_HASHES)%nat ->
  (size (Pqc.remember msg_hash seen) <= Pqc.MAX_HASHES)%nat.
Proof.
  intros Hsize. unfold Pqc.remember.
  destruct (Pqc.MAX_HASHES <? size (seen ∪ {[msg_hash]}))%nat eqn:E.
  - assert (Hne : seen ∪ {[msg_hash]} <> ∅).
    { intros Hempty. apply (not_elem_of_empty (C := gset string) msg_hash).
      rewrite <- Hempty. apply elem_of_union_r, elem_of_singleton. reflexivity. }
    pose proof (set_pop_elem _ Hne) as Hpop.
    pose proof (size_union_alt seen {[msg_hash]}) as Hun.
    assert (Hsingle : (size ({[msg_hash]} ∖ seen : gset string) <= 1)%nat).
    { rewrite <- (size_singleton (C := gset string) msg_hash).
      apply subseteq_size. apply subseteq_difference_l. reflexivity. }
    rewrite size_difference by (apply singleton_subseteq_l; exact Hpop).
    rewrite size_singleton. unfold Pqc.MAX_HASHES in *. lia.
  - now apply Nat.ltb_ge in E.
Qed.

Lemma handle_message_bounded {P : Primitives} {S : SetPop}
    (message signature public_key : list byte) (now : Z) (seen : gset string) :
  (size seen <= Pqc.MAX_HASHES)%nat ->
  (size (fst (Pqc.handle_message message signature public_key now seen)) <= Pqc.MAX_HASHES)%nat.
Proof.
  intros Hsize. unfold Pqc.handle_message.
  destruct (Wire.unpack_Q _); [| exact Hsize].
  destruct (_ <? _); [exact Hsize |].
  destruct (decide _); [exact Hsize |].
  pose proof (remember_bounded (sha256_hexdigest (message ++ signature)) seen Hsize).
  destruct (dilithium2_verify _ _ _) as [? | []]; assumption.
Qed.

Lemma handle_all_bounded {P : Primitives} {S : SetPop} (calls : list Pqc.call)
    (seen : gset string) :
  (size seen <= Pqc.MAX_HASHES)%nat ->
  (size (Pqc.handle_all calls seen) <= Pqc.MAX_HASHES)%nat.
Proof.
  revert seen. induction calls as [| c calls IH]; intros seen Hsize; [exact Hsize |].
  cbn. apply IH. now apply handle_message_bounded.
Qed.



(** ** The SECOC receiver on authentic and on tag-less envelopes *)

Lemma handle_connection_delivered {P : Primitives} (message tag : list byte)
    (wire : list byte) (conn : Wire.socket) (env : Secoc.environment)
    (st : Secoc.replay_state) :
  Z.of_nat (length message) <= 65535 -> Z.of_nat (length tag) <= 65535 ->
  Secoc.send_envelope message tag = inr wire ->
  Wire.delivers conn wire ->
  Secoc.handle_connection conn env st = Secoc.check_envelope message (length tag) tag env st.
Proof.
  intros Hm Ht Hsend Hd. rewrite <- (app_nil_r wire) in Hsend.
  destruct (secoc_read_envelope_prefix _ _ _ _ _ _ Hm Ht Hsend Hd stops_closed) as [Hok _].
  destruct (Hok eq_refl) as (conn' & Hread).
  unfold Secoc.handle_connection. now rewrite Hread.
Qed.

Lemma handle_connection_consistent {P : Primitives} (conn : Wire.socket)
    (env : Secoc.environment) (st : Secoc.replay_state) :
  Secoc.consistent st -> Secoc.consistent (fst (Secoc.handle_connection conn env st)).
Proof.
  intros Hst. unfold Secoc.handle_connection.
  destruct (Secoc.read_envelope conn) as [[[[message tag_len] tag] | [] |] conn']; try exact Hst.
  unfold Secoc.check_envelope.
  repeat (match goal with
          | |- context [if ?b then _ else _] => destruct b
          | |- context [match Wire.unpack_Q ?f with _ => _ end] => destruct (Wire.unpack_Q f)
          | |- context [Secoc.compute_drop_prob ?c] => destruct (Secoc.compute_drop_prob c)
          end; try exact Hst).
  all: match goal with
       | |- context [Secoc.record_replay ?h ?s] =>
           let Hnext := fresh "Hnext" in
           pose proof (record_replay_consistent h s Hst) as [_ Hnext];
           destruct (Secoc.record_replay h s) as [[? | ? |] ?]; exact Hnext
       end.
Qed.

(** Every state the receiver reaches by serving connections is
    consistent. *)
Lemma serve_consistent {P : Primitives} (conns : list (Wire.socket * Secoc.environment))
    (st : Secoc.replay_state) :
  Secoc.consistent st -> Secoc.consistent (fst (Secoc.serve conns st)).
Proof.
  revert st. induction conns as [| [conn env] conns IH]; intros st Hst; [exact Hst |].
  cbn [Secoc.serve].
  pose proof (handle_connection_consistent conn env st Hst) as Hnext.
  destruct (Secoc.handle_connection conn env st) as [st' o]. cbn [fst] in Hnext.
  specialize (IH st' Hnext).
  destruct (Secoc.serve conns st') as [st'' os]. destruct o; assumption.
Qed.

(** The checks on a 56-byte message in its freshness window whose tag
    equals the truncated HMAC and whose fingerprint is new: the
    fingerprint is recorded, and the message is accepted unless the
    overload gate drops it. *)
Lemma check_envelope_new {P : Primitives} (message tag : list byte) (tag_len : nat)
    (env : Secoc.environment) (st : Secoc.replay_state) :
  length message = 56%nat ->
  Secoc.fresh (Secoc.now env) message ->
  take tag_len (hmac_sha256_digest Secoc.SECRET_KEY message) = tag ->
  Secoc.fingerprint message tag ∉ Secoc.REPLAY_SET st ->
  Secoc.consistent st ->
  let st' := snd (Secoc.record_replay (Secoc.fingerprint message tag) st) in
  let '(prob, cpu) := Secoc.compute_drop_prob (Secoc.cpu_percent env) in
  Secoc.fingerprint message tag ∈ Secoc.REPLAY_SET st'
  /\ Secoc.check_envelope message tag_len tag env st
     = (st', if Qlt_le_dec (Secoc.random_draw env) prob then Secoc.OverloadDrop cpu prob
             else Secoc.ValidMessage
                    (Secoc.now env - Wire.int_from_bytes_big (Wire.last8 message))).
Proof.
  intros Hlen [Hage Hfut] Htag Hnew Hst st'.
  destruct (Secoc.compute_drop_prob (Secoc.cpu_percent env)) as [prob cpu] eqn:Eprob.
  destruct (record_replay_consistent (Secoc.fingerprint message tag) st Hst) as [Hrun _].
  cbv zeta in Hrun. rewrite bool_decide_eq_true_2 in Hrun by exact Hnew.
  destruct (decide (Secoc.fingerprint message tag ∈ Secoc.REPLAY_SET st)) as [? | _];
    [contradiction |].
  split.
  - subst st'. rewrite Hrun. cbn [snd Secoc.REPLAY_SET]. apply elem_of_list_to_set.
    destruct (decide _); apply elem_of_app; right; apply list_elem_of_singleton; reflexivity.
  - unfold Secoc.check_envelope. rewrite Hlen. cbn [Nat.ltb Nat.leb].
    rewrite unpack_Q_last8 by lia.
    destruct (Secoc.FRESHNESS_MAX_AGE <? _) eqn:E1; [apply Z.ltb_lt in E1; lia |].
    destruct (Secoc.FRESHNESS_FUTURE_TOL <? _) eqn:E2; [apply Z.ltb_lt in E2; lia |].
    assert (Hsplit : Wire.all_but_last8 message ++ Wire.last8 message = message)
      by apply take_drop.
    rewrite Hsplit.
    destruct (decide (take tag_len (hmac_sha256_digest Secoc.SECRET_KEY message) <> tag))
      as [? | _]; [contradiction |].
    fold (Secoc.fingerprint message tag).
    destruct (decide (Secoc.fingerprint message tag ∈ Secoc.REPLAY_SET st)) as [? | _];
      [contradiction |].
    subst st'. rewrite Hrun at 1. rewrite Eprob. rewrite Hrun. cbn [snd].
    destruct (Qlt_le_dec (Secoc.random_draw env) prob); [reflexivity |].
    unfold Wire.all_but_last8. rewrite length_take, Hlen. reflexivity.
Qed.

(** The checks on such a message whose fingerprint is in the cache: a
    replay, and the state stays as it is. *)
Lemma check_envelope_seen {P : Primitives} (message tag : list byte) (tag_len : nat)
    (env : Secoc.environment) (st : Secoc.replay_state) :
  length message = 56%nat ->
  Secoc.fresh (Secoc.now env) message ->
  take tag_len (hmac_sha256_digest Secoc.SECRET_KEY message) = tag ->
  Secoc.fingerprint message tag ∈ Secoc.REPLAY_SET st ->
  Secoc.check_envelope message tag_len tag env st = (st, Secoc.ReplayDetected).
Proof.
  intros Hlen [Hage Hfut] Htag Hseen.
  unfold Secoc.check_envelope. rewrite Hlen. cbn [Nat.ltb Nat.leb].
  rewrite unpack_Q_last8 by lia.
  destruct (Secoc.FRESHNESS_MAX_AGE <? _) eqn:E1; [apply Z.ltb_lt in E1; lia |].
  destruct (Secoc.FRESHNESS_FUTURE_TOL <? _) eqn:E2; [apply Z.ltb_lt in E2; lia |].
  assert (Hsplit : Wire.all_but_last8 message ++ Wire.last8 message = message)
    by apply take_drop.
  rewrite Hsplit.
  destruct (decide (take tag_len (hmac_sha256_digest Secoc.SECRET_KEY message) <> tag))
    as [? | _]; [contradiction |].
  fold (Secoc.fingerprint message tag).
  destruct (decide (Secoc.fingerprint message tag ∈ Secoc.REPLAY_SET st)) as [_ | ?];
    [reflexivity | contradiction].
Qed.

(** C3. An envelope that carries a zero-length tag over any 56-byte
    message in its freshness window whose fingerprint is not in the
    replay cache passes the tag comparison of the SECOC receiver: the HMAC
    truncated to length 0 is the empty byte string, as is the tag.  No
    property of the HMAC or of the secret is used: the message is
    accepted as valid unless the overload gate drops it. *)
Theorem zero_length_tag_authenticates {P : Primitives} (message wire : list byte)
    (conn : Wire.socket) (env : Secoc.environment) (st : Secoc.replay_state) :
  length message = 56%nat ->
  Secoc.fresh (Secoc.now env) message ->
  Secoc.fingerprint message [] ∉ Secoc.REPLAY_SET st ->
  Secoc.consistent st ->
  Secoc.send_envelope message [] = inr wire ->
  Wire.delivers conn wire ->
  let o := snd (Secoc.handle_connection conn env st) in
  take 0 (hmac_sha256_digest Secoc.SECRET_KEY message) = []
  /\ Secoc.authenticated o = true
  /\ ((fst (Secoc.compute_drop_prob (Secoc.cpu_percent env)) <= Secoc.random_draw env)%Q ->
      Secoc.accepted o = true).
Proof.
  intros Hlen Hfresh Hnew Hst Hsend Hd o. split; [reflexivity |].
  assert (Ho : o = snd (Secoc.check_envelope message 0 [] env st)).
  { subst o. f_equal.
    apply (handle_connection_delivered message [] wire); try assumption; cbn; lia. }
  pose proof (check_envelope_new message [] 0 env st Hlen Hfresh eq_refl Hnew Hst) as Hrun.
  cbv zeta in Hrun.
  destruct (Secoc.compute_drop_prob (Secoc.cpu_percent env)) as [prob cpu].
  destruct Hrun as [_ Hrun]. rewrite Hrun in Ho. cbn [snd fst] in *.
  destruct (Qlt_le_dec (Secoc.random_draw env) prob) as [Hlt | Hle]; subst o; rewrite Ho.
  - split; [reflexivity |]. intros Hge. exfalso. apply (Qlt_not_le _ _ Hlt Hge).
  - split; reflexivity.
Qed.

(** The sample message with an empty tag, sent to a freshly started
    receiver at an idle moment: accepted. *)
Lemma zero_length_tag_authenticates_witness :
  snd (Secoc.handle_connection (H := Sample.primitives)
         [Wire.Data (Sample.bytes_of (Secoc.send_envelope Sample.message []))]
         {| Secoc.now := 1002; Secoc.cpu_percent := Some 0%Q; Secoc.random_draw := (1 # 2)%Q |}
         Secoc.initial_state)
  = Secoc.ValidMessage 2.
Proof.
  pose proof (zero_length_tag_authenticates (P := Sample.primitives) Sample.message
    (Sample.bytes_of (Secoc.send_envelope Sample.message []))
    [Wire.Data (Sample.bytes_of (Secoc.send_envelope Sample.message []))]
    {| Secoc.now := 1002; Secoc.cpu_percent := Some 0%Q; Secoc.random_draw := (1 # 2)%Q |}
    Secoc.initial_state) as H.
  cbv zeta in H.
  destruct H as (_ & _ & Haccepted).
  - reflexivity.
  - vm_compute. split; intros E; discriminate E.
  - cbn. apply not_elem_of_empty.
  - exact secoc_initial_consistent.
  - vm_compute. reflexivity.
  - exists [Sample.bytes_of (Secoc.send_envelope Sample.message [])].
    split; [reflexivity | split; [| apply app_nil_r]].
    repeat constructor. vm_compute. discriminate.
  - assert (Hidle : (fst (Secoc.compute_drop_prob (Some 0%Q)) <= 1 # 2)%Q)
      by (vm_compute; discriminate).
    specialize (Haccepted Hidle). vm_compute in Haccepted |- *. reflexivity.
Defined.

Example wrong_one_byte_tag_rejected :
  snd (Secoc.handle_connection (H := Sample.primitives)
         [Wire.Data (Sample.bytes_of (Secoc.send_envelope Sample.message [Byte.xff]))]
         {| Secoc.now := 1002; Secoc.cpu_percent := Some 0%Q; Secoc.random_draw := (1 # 2)%Q |}
         Secoc.initial_state)
  = Secoc.HmacMismatch.
Proof. vm_compute. reflexivity. Qed.

(** ** The same envelope twice *)

(** The SECOC receiver on the same authentic envelope twice in a row: the
    first connection records the fingerprint and ends in acceptance or in
    an overload drop, as the random draw decides; the second is a replay
    in either case. *)
Lemma secoc_identical_twice {P : Primitives} (message tag wire : list byte)
    (conn1 conn2 : Wire.socket) (env1 env2 : Secoc.environment) (st : Secoc.replay_state) :
  Secoc.valid_envelope message tag ->
  Secoc.send_envelope message tag = inr wire ->
  Wire.delivers conn1 wire -> Wire.delivers conn2 wire ->
  Secoc.fresh (Secoc.now env1) message -> Secoc.fresh (Secoc.now env2) message ->
  Secoc.fingerprint message tag ∉ Secoc.REPLAY_SET st ->
  Secoc.consistent st ->
  let '(st1, o1) := Secoc.handle_connection conn1 env1 st in
  let '(st2, o2) := Secoc.handle_connection conn2 env2 st1 in
  let '(prob, cpu) := Secoc.compute_drop_prob (Secoc.cpu_percent env1) in
  o1 = (if Qlt_le_dec (Secoc.random_draw env1) prob then Secoc.OverloadDrop cpu prob
        else Secoc.ValidMessage
               (Secoc.now env1 - Wire.int_from_bytes_big (Wire.last8 message)))
  /\ o2 = Secoc.ReplayDetected /\ st2 = st1.
Proof.
  intros (Hlen & Htl & Htag) Hsend Hd1 Hd2 Hf1 Hf2 Hnew Hst.
  assert (Hm : Z.of_nat (length message) <= 65535) by lia.
  rewrite (handle_connection_delivered message tag wire conn1 env1 st Hm Htl Hsend Hd1).
  pose proof (check_envelope_new message tag (length tag) env1 st Hlen Hf1
                (eq_sym Htag) Hnew Hst) as Hrun.
  cbv zeta in Hrun.
  destruct (Secoc.compute_drop_prob (Secoc.cpu_percent env1)) as [prob cpu].
  destruct Hrun as [Hseen ->].
  rewrite (handle_connection_delivered message tag wire conn2 env2 _ Hm Htl Hsend Hd2).
  rewrite (check_envelope_seen message tag (length tag) env2 _ Hlen Hf2 (eq_sym Htag) Hseen).
  auto.
Qed.

(** The PQC worker on an envelope the verifier accepts, in its window: a
    replay if the fingerprint is in the cache, otherwise verified, with the
    cache updated. *)
Lemma handle_message_valid {P : Primitives} {S : SetPop}
    (message signature public_key : list byte) (now : Z) (seen : gset string) :
  Pqc.valid_envelope message signature public_key ->
  Pqc.fresh now message ->
  Pqc.handle_message message signature public_key now seen
  = if decide (Pqc.fingerprint message signature ∈ seen) then (seen, Pqc.Replayed)
    else (Pqc.remember (Pqc.fingerprint message signature) seen, Pqc.Verified).
Proof.
  intros (Hlen & _ & _ & _ & Hverify) Hfresh. unfold Pqc.handle_message, Pqc.fresh in *.
  rewrite unpack_Q_last8 by exact Hlen.
  destruct (Pqc.FRESHNESS_WINDOW <? _) eqn:E; [apply Z.ltb_lt in E; lia |].
  fold (Pqc.fingerprint message signature).
  destruct (decide _); [reflexivity |]. now rewrite Hverify.
Qed.

(** One connection with a valid envelope while the worker is idle: either
    the pre-admission check drops it, or the worker processes it at once. *)
Lemma receive_valid {P : Primitives} {S : SetPop}
    (message signature public_key wire : list byte) (conn : Wire.socket)
    (cpu random_draw : Q) (now : Z) (seen : gset string) :
  Pqc.valid_envelope message signature public_key ->
  Pqc.send_envelope message signature public_key = inr wire ->
  Wire.delivers conn wire ->
  Pqc.fresh now message ->
  let st := {| Pqc.SEEN_HASHES := seen; Pqc.MSG_QUEUE := [] |} in
  Pqc.receive conn cpu random_draw now st
  = if Pqc.overloaded cpu random_draw then (st, Pqc.NotAdmitted (Pqc.Drop cpu))
    else if decide (Pqc.fingerprint message signature ∈ seen)
         then (st, Pqc.Processed Pqc.Replayed)
         else ({| Pqc.SEEN_HASHES := Pqc.remember (Pqc.fingerprint message signature) seen;
                  Pqc.MSG_QUEUE := [] |}, Pqc.Processed Pqc.Verified).
Proof.
  intros Hvalid Hsend Hd Hfresh st.
  pose proof Hvalid as (_ & Hm & Hs & Hk & _).
  rewrite <- (app_nil_r wire) in Hsend.
  destruct (pqc_read_envelope_prefix _ _ _ _ _ _ _ Hm Hs Hk Hsend Hd stops_closed) as [Hok _].
  destruct (Hok eq_refl) as (conn' & Hread).
  unfold Pqc.receive, Pqc.handle_connection. rewrite Hread.
  destruct (Pqc.overloaded cpu random_draw); [reflexivity |].
  cbn -[Pqc.handle_message]. rewrite (handle_message_valid _ _ _ now seen Hvalid Hfresh).
  destruct (decide _); reflexivity.
Qed.

(** C2, as the code has it.  Processing the same valid envelope twice in
    a row by the same receiver gives exactly one acceptance and one drop
    when the admission gates let it happen: for the SECOC receiver, when
    the overload draw of the first connection is not below the drop
    probability; for the PQC receiver (worker idle), when the
    pre-admission check admits at least one of the two connections and,
    if it admits both, the eviction after the first has not removed the
    fingerprint just recorded. *)
Theorem identical_envelope_twice {P : Primitives} {S : SetPop}
    (message tag wire : list byte) (conn1 conn2 : Wire.socket)
    (env1 env2 : Secoc.environment) (st : Secoc.replay_state)
    (message' signature public_key wire' : list byte) (conn1' conn2' : Wire.socket)
    (cpu1 draw1 cpu2 draw2 : Q) (now1 now2 : Z) (seen : gset string) :
  Secoc.valid_envelope message tag ->
  Secoc.send_envelope message tag = inr wire ->
  Wire.delivers conn1 wire -> Wire.delivers conn2 wire ->
  Secoc.fresh (Secoc.now env1) message -> Secoc.fresh (Secoc.now env2) message ->
  Secoc.fingerprint message tag ∉ Secoc.REPLAY_SET st ->
  Secoc.consistent st ->
  (fst (Secoc.compute_drop_prob (Secoc.cpu_percent env1)) <= Secoc.random_draw env1)%Q ->
  Pqc.valid_envelope message' signature public_key ->
  Pqc.send_envelope message' signature public_key = inr wire' ->
  Wire.delivers conn1' wire' -> Wire.delivers conn2' wire' ->
  Pqc.fresh now1 message' -> Pqc.fresh now2 message' ->
  Pqc.fingerprint message' signature ∉ seen ->
  Pqc.overloaded cpu1 draw1 = false \/ Pqc.overloaded cpu2 draw2 = false ->
  (Pqc.overloaded cpu1 draw1 = false -> Pqc.overloaded cpu2 draw2 = false ->
   Pqc.fingerprint message' signature
   ∈ Pqc.remember (Pqc.fingerprint message' signature) seen) ->
  let '(st1, o1) := Secoc.handle_connection conn1 env1 st in
  let '(_, o2) := Secoc.handle_connection conn2 env2 st1 in
  let '(st1', f1) :=
    Pqc.receive conn1' cpu1 draw1 now1 {| Pqc.SEEN_HASHES := seen; Pqc.MSG_QUEUE := [] |} in
  let '(_, f2) := Pqc.receive conn2' cpu2 draw2 now2 st1' in
  (Secoc.accepted o1 = true /\ o2 = Secoc.ReplayDetected)
  /\ ((Pqc.accepted f1 = true /\ Pqc.accepted f2 = false)
      \/ (Pqc.accepted f1 = false /\ Pqc.accepted f2 = true)).
Proof.
  intros Hvalid Hsend Hd1 Hd2 Hf1 Hf2 Hnew Hst Hgate
    Hvalid' Hsend' Hd1' Hd2' Hf1' Hf2' Hnew' Hadmit Hkept.
  pose proof (secoc_identical_twice message tag wire conn1 conn2 env1 env2 st
                Hvalid Hsend Hd1 Hd2 Hf1 Hf2 Hnew Hst) as Hsecoc.
  destruct (Secoc.handle_connection conn1 env1 st) as [st1 o1].
  destruct (Secoc.handle_connection conn2 env2 st1) as [st2 o2].
  destruct (Secoc.compute_drop_prob (Secoc.cpu_percent env1)) as [prob cpu].
  cbn [fst] in Hgate. destruct Hsecoc as (Ho1 & Ho2 & _).
  destruct (Qlt_le_dec (Secoc.random_draw env1) prob) as [Hlt | _];
    [exfalso; apply (Qlt_not_le _ _ Hlt Hgate) |].
  rewrite (receive_valid message' signature public_key wire' conn1' cpu1 draw1 now1 seen
             Hvalid' Hsend' Hd1' Hf1').
  destruct (decide (Pqc.fingerprint message' signature ∈ seen)) as [? | _]; [contradiction |].
  destruct (Pqc.overloaded cpu1 draw1) eqn:E1.
  - rewrite (receive_valid message' signature public_key wire' conn2' cpu2 draw2 now2 seen
               Hvalid' Hsend' Hd2' Hf2').
    destruct Hadmit as [? | ->]; [discriminate |].
    destruct (decide (Pqc.fingerprint message' signature ∈ seen)) as [? | _]; [contradiction |].
    subst o1 o2. cbn. auto.
  - rewrite (receive_valid message' signature public_key wire' conn2' cpu2 draw2 now2 _
               Hvalid' Hsend' Hd2' Hf2').
    destruct (Pqc.overloaded cpu2 draw2) eqn:E2; [subst o1 o2; cbn; auto |].
    destruct (decide _) as [_ | Hgone]; [subst o1 o2; cbn; auto |].
    exfalso. apply Hgone. apply Hkept; reflexivity.
Qed.

Lemma sample_secoc_delivers :
  Wire.delivers Sample.secoc_conn
    (Sample.bytes_of (Secoc.send_envelope Sample.message Sample.tag)).
Proof.
  exists [take 10 (Sample.bytes_of (Secoc.send_envelope Sample.message Sample.tag));
          drop 10 (Sample.bytes_of (Secoc.send_envelope Sample.message Sample.tag))].
  split; [reflexivity | split; [| vm_compute; reflexivity]].
  repeat constructor; vm_compute; discriminate.
Qed.

Lemma sample_pqc_delivers :
  Wire.delivers Sample.pqc_conn
    (Sample.bytes_of (Pqc.send_envelope Sample.message Sample.signature Sample.public_key)).
Proof.
  exists [Sample.bytes_of
            (Pqc.send_envelope Sample.message Sample.signature Sample.public_key)].
  split; [reflexivity | split; [| vm_compute; reflexivity]].
  repeat constructor; vm_compute; discriminate.
Qed.

(** The sample envelopes, each sent twice to a freshly started, idle
    receiver: accepted, then dropped as a replay. *)
Lemma identical_envelope_twice_witness :
  let '(st1, o1) :=
    Secoc.handle_connection (H := Sample.primitives) Sample.secoc_conn Sample.idle
      Secoc.initial_state in
  let '(_, o2) :=
    Secoc.handle_connection (H := Sample.primitives) Sample.secoc_conn Sample.idle_later st1 in
  let '(st1', f1) :=
    Pqc.receive (H := Sample.primitives) (H0 := set_pop_first) Sample.pqc_conn
      (10 # 1) (1 # 2) 1010 {| Pqc.SEEN_HASHES := ∅; Pqc.MSG_QUEUE := [] |} in
  let '(_, f2) :=
    Pqc.receive (H := Sample.primitives) (H0 := set_pop_first) Sample.pqc_conn
      (10 # 1) (1 # 2) 1020 st1' in
  (Secoc.accepted o1 = true /\ o2 = Secoc.ReplayDetected)
  /\ ((Pqc.accepted f1 = true /\ Pqc.accepted f2 = false)
      \/ (Pqc.accepted f1 = false /\ Pqc.accepted f2 = true)).
Proof.
  apply (identical_envelope_twice (P := Sample.primitives) (S := set_pop_first)
           Sample.message Sample.tag
           (Sample.bytes_of (Secoc.send_envelope Sample.message Sample.tag))
           Sample.secoc_conn Sample.secoc_conn Sample.idle Sample.idle_later
           Secoc.initial_state
           Sample.message Sample.signature Sample.public_key
           (Sample.bytes_of
              (Pqc.send_envelope Sample.message Sample.signature Sample.public_key))
           Sample.pqc_conn Sample.pqc_conn (10 # 1) (1 # 2) (10 # 1) (1 # 2) 1010 1020 ∅).
  - split; [reflexivity | split; [vm_compute; discriminate | vm_compute; reflexivity]].
  - vm_compute. reflexivity.
  - exact sample_secoc_delivers.
  - exact sample_secoc_delivers.
  - vm_compute. split; intros E; discriminate E.
  - vm_compute. split; intros E; discriminate E.
  - cbn. apply not_elem_of_empty.
  - exact secoc_initial_consistent.
  - vm_compute. discriminate.
  - split; [vm_compute; lia |]. repeat split; vm_compute; discriminate.
  - vm_compute. reflexivity.
  - exact sample_pqc_delivers.
  - exact sample_pqc_delivers.
  - vm_compute. intros E; discriminate E.
  - vm_compute. intros E; discriminate E.
  - apply not_elem_of_empty.
  - left. vm_compute. reflexivity.
  - intros _ _. apply (bool_decide_unpack _). vm_compute. reflexivity.
Defined.

(** C2, as the specification words it ("for all outcomes of the
    probabilistic admission gates"), fails.  The sample envelopes are valid
    and fresh, yet: the SECOC receiver at 60 percent CPU with a draw of
    0.25 drops the first copy at the overload gate after recording its
    fingerprint, and the second copy as a replay, so nothing is accepted;
    the PQC receiver at 90 percent CPU drops both copies before they reach
    a worker; and the PQC receiver with a full cache, when [set.pop()]
    happens to remove the fingerprint just added, verifies both copies. *)
Lemma identical_envelope_twice_not_once :
  (Secoc.valid_envelope (H := Sample.primitives) Sample.message Sample.tag
   /\ Secoc.fresh 1001 Sample.message /\ Secoc.fresh 1003 Sample.message
   /\ Pqc.valid_envelope (H := Sample.primitives) Sample.message Sample.signature
        Sample.public_key
   /\ Pqc.fresh 1010 Sample.message /\ Pqc.fresh 1020 Sample.message)
  /\ (let '(st1, o1) :=
        Secoc.handle_connection (H := Sample.primitives) Sample.secoc_conn Sample.busy
          Secoc.initial_state in
      let '(_, o2) :=
        Secoc.handle_connection (H := Sample.primitives) Sample.secoc_conn
          Sample.idle_later st1 in
      o1 = Secoc.OverloadDrop (60 # 1) (60 # 120) /\ o2 = Secoc.ReplayDetected)
  /\ (let '(st1, f1) :=
        Pqc.receive (H := Sample.primitives) (H0 := set_pop_first) Sample.pqc_conn
          (90 # 1) (1 # 2) 1010 Pqc.initial_state in
      let '(_, f2) :=
        Pqc.receive (H := Sample.primitives) (H0 := set_pop_first) Sample.pqc_conn
          (90 # 1) (1 # 2) 1020 st1 in
      f1 = Pqc.NotAdmitted (Pqc.Drop (90 # 1)) /\ f2 = Pqc.NotAdmitted (Pqc.Drop (90 # 1)))
  /\ (let pop :=
        set_pop_prefer
          (Pqc.fingerprint (H := Sample.primitives) Sample.message Sample.signature) in
      let full :=
        {| Pqc.SEEN_HASHES := list_to_set (Sample.fingerprints 2048); Pqc.MSG_QUEUE := [] |} in
      let '(st1, f1) :=
        Pqc.receive (H := Sample.primitives) (H0 := pop) Sample.pqc_conn
          (10 # 1) (1 # 2) 1010 full in
      let '(_, f2) :=
        Pqc.receive (H := Sample.primitives) (H0 := pop) Sample.pqc_conn
          (10 # 1) (1 # 2) 1020 st1 in
      size (Pqc.SEEN_HASHES full) = 2048%nat
      /\ f1 = Pqc.Processed Pqc.Verified /\ f2 = Pqc.Processed Pqc.Verified).
Proof.
  split; [| split; [| split]].
  - repeat split; try (vm_compute; reflexivity); try (vm_compute; lia);
      vm_compute; intros E; discriminate E.
  - vm_compute. split; reflexivity.
  - vm_compute. split; reflexivity.
  - vm_compute. repeat split; reflexivity.
Qed.

(** ** The load simulator's summary *)

(** The list comprehension of [summarize] selects the latencies of the
    successful attempts. *)
Lemma summarize_latencies (results : list Simulator.request_result) :
  map (fun r => default 0%Q (Simulator.latency_ms r))
    (filter (fun r => Simulator.success r = true /\ Simulator.latency_ms r <> None) results)
  = Simulator.successful_latencies results.
Proof.
  unfold Simulator.successful_latencies.
  induction results as [| r results IH]; [reflexivity |].
  rewrite filter_cons. cbn [omap list_omap].
  destruct r as [i t ok latency rl e it]. cbn [Simulator.success Simulator.latency_ms].
  destruct (decide _) as [[Hs Hl] | Hno].
  - subst ok. destruct latency as [l |]; [| contradiction].
    cbn [map Simulator.latency_ms default]. now rewrite IH.
  - destruct ok; [| exact IH].
    destruct latency as [l |]; [| exact IH].
    exfalso. apply Hno. split; [reflexivity | discriminate].
Qed.

Lemma no_success_no_latency (results : list Simulator.request_result) :
  Forall (fun r => Simulator.success r = false) results ->
  Simulator.successful_latencies results = []
  /\ filter (fun r => Simulator.success r = true) results = [].
Proof.
  unfold Simulator.successful_latencies.
  induction 1 as [| r results Hr _ [IH1 IH2]]; [split; reflexivity |].
  cbn [omap list_omap]. rewrite filter_cons, Hr, IH1, IH2.
  destruct (decide _) as [? | _]; [discriminate | split; reflexivity].
Qed.



Example percentile_of_four :
  (Simulator.np_percentile [4 # 1; 1 # 1; 3 # 1; 2 # 1] (50 # 1) == 5 # 2)%Q
  /\ (Simulator.np_percentile [4 # 1; 1 # 1; 3 # 1; 2 # 1] (90 # 1) == 37 # 10)%Q
  /\ (Simulator.np_percentile [4 # 1; 1 # 1; 3 # 1; 2 # 1] (100 # 1) == 4 # 1)%Q
  /\ (Simulator.np_percentile [4 # 1; 1 # 1; 3 # 1; 2 # 1] (0 # 1) == 1 # 1)%Q.
Proof. vm_compute. repeat split. Qed.

Example summary_of_attempts :
  let s := Simulator.summarize Sample.attempts in
  Simulator.total s = 4 /\ Simulator.successes s = 3 /\ Simulator.failures s = 1
  /\ (exists rate, Simulator.success_rate_pct s = Some rate /\ (rate == 75 # 1)%Q)
  /\ (exists p50, Simulator.lat_p50_ms s = Some p50 /\ (p50 == 20 # 1)%Q)
  /\ (exists p90, Simulator.lat_p90_ms s = Some p90 /\ (p90 == 36 # 1)%Q)
  /\ (exists m, Simulator.lat_mean_ms s = Some m /\ (m == 70 # 3)%Q).
Proof.
  cbv zeta. repeat split; try reflexivity; eexists; (split; [reflexivity | vm_compute; reflexivity]).
Qed.

Lemma insert_sorted_permutation (x : Q) (l : list Q) :
  Permutation (Simulator.insert_sorted x l) (x :: l).
Proof.
  induction l as [| y l IH]; [reflexivity |]. cbn.
  destruct (Qle_bool x y); [reflexivity |].
  rewrite IH. apply perm_swap.
Qed.

(** The order statistics are taken from a rearrangement of the data in
    non-decreasing order. *)
Lemma sorted_permutation (l : list Q) : Permutation (Simulator.sorted l) l.
Proof.
  induction l as [| x l IH]; [reflexivity |]. cbn.
  rewrite insert_sorted_permutation. now rewrite IH.
Qed.

Lemma insert_sorted_Sorted (x : Q) (l : list Q) :
  Sorted Qle l -> Sorted Qle (Simulator.insert_sorted x l).
Proof.
  induction 1 as [| y l Hl IH Hhd]; [repeat constructor |]. cbn.
  destruct (Qle_bool x y) eqn:E.
  - apply Qle_bool_iff in E. repeat constructor; assumption.
  - assert (Hyx : (y <= x)%Q).
    { destruct (Qlt_le_dec y x) as [Hlt | Hle]; [now apply Qlt_le_weak |].
      apply Qle_bool_iff in Hle. congruence. }
    constructor; [exact IH |].
    destruct Hhd as [| z l Hyz]; cbn; [repeat constructor; assumption |].
    destruct (Qle_bool x z); constructor; assumption.
Qed.

Lemma sorted_Sorted (l : list Q) : Sorted Qle (Simulator.sorted l).
Proof.
  induction l as [| x l IH]; [constructor |]. cbn. now apply insert_sorted_Sorted.
Qed.

(** ** The normalizer's CSV mode *)

Lemma write_requests_convertible (rs : list Normalizer.bus_row) :
  forallb Normalizer.convertible rs = true ->
  exists log,
    Normalizer.write_requests rs = (log, None)
    /\ map Normalizer.idx log = map Normalizer.frame_id rs
    /\ Forall Normalizer.placeholder log.
Proof.
  induction rs as [| row rs IH]; intros Hconv.
  - exists []. repeat split; constructor.
  - cbn [forallb] in Hconv. apply andb_true_iff in Hconv as [Hrow Hrest].
    destruct (IH Hrest) as (log & Hrun & Hidx & Hall).
    cbn [Normalizer.write_requests]. unfold Normalizer.request_row_of.
    unfold Normalizer.convertible in Hrow.
    destruct (Normalizer.timestamp row) as [t |]; cbn [Py.utcfromtimestamp].
    + rewrite Hrow, Hrun. eexists. split; [reflexivity |].
      split; [cbn; now rewrite Hidx |].
      constructor; [repeat split | exact Hall].
    + rewrite Hrun. eexists. split; [reflexivity |].
      split; [cbn; now rewrite Hidx |].
      constructor; [repeat split | exact Hall].
Qed.




(** ** The analyzer without a summary *)

Lemma load_run_missing (fs : Analyzer.file_system) (folder : string) :
  Analyzer.json_files fs !! Py.path_join folder "summary.json" = None ->
  Analyzer.load_run fs folder
  = inl (FileNotFoundError ("No summary.json found in " ++ folder)).
Proof. intros Hmissing. unfold Analyzer.load_run. now rewrite Hmissing. Qed.

Lemma load_run_present (fs : Analyzer.file_system) (folder : string) :
  Analyzer.json_files fs !! Py.path_join folder "summary.json" <> None ->
  exists run, Analyzer.load_run fs folder = inr run.
Proof.
  intros Hpresent. unfold Analyzer.load_run.
  destruct (Analyzer.json_files fs !! Py.path_join folder "summary.json");
    [eauto | contradiction].
Qed.

(** C10. For every pair of run directories of which at least one lacks a
    summary file, the analyzer ends with a reported [FileNotFoundError]
    (naming the first directory without a summary) and writes none of its
    artifacts: no comparison CSV and no chart image. *)
Theorem analyzer_missing_summary (fs : Analyzer.file_system) (prog pathA pathB : string) :
  Analyzer.json_files fs !! Py.path_join pathA "summary.json" = None
  \/ Analyzer.json_files fs !! Py.path_join pathB "summary.json" = None ->
  exists folder,
    Analyzer.main [prog; pathA; pathB] fs
    = ([], Analyzer.Traceback (FileNotFoundError ("No summary.json found in " ++ folder)))
    /\ (folder = pathA \/ folder = pathB)
    /\ Analyzer.json_files fs !! Py.path_join folder "summary.json" = None.
Proof.
  intros Hmissing. unfold Analyzer.main.
  destruct (Analyzer.json_files fs !! Py.path_join pathA "summary.json") as [sa |] eqn:EA.
  - destruct Hmissing as [? | HB]; [discriminate |].
    destruct (load_run_present fs pathA) as ([[sa' sysA] reqA] & ->); [congruence |].
    rewrite (load_run_missing fs pathB HB). exists pathB. auto.
  - rewrite (load_run_missing fs pathA EA). exists pathA. auto.
Qed.

(** A complete first directory and a second one without summary: nothing
    is written. *)
Lemma analyzer_missing_summary_witness :
  Analyzer.main ["analyze_runs.py"; "runs/pqc"; "runs/secoc/"]%string Sample.run_files
  = ([], Analyzer.Traceback (FileNotFoundError "No summary.json found in runs/secoc/")).
Proof.
  destruct (analyzer_missing_summary Sample.run_files "analyze_runs.py" "runs/pqc"
              "runs/secoc/") as (folder & Hmain & [-> | ->] & Hnone).
  - right. vm_compute. reflexivity.
  - vm_compute in Hnone. discriminate Hnone.
  - exact Hmain.
Defined.

Example analyzer_on_complete_directories :
  Analyzer.main ["analyze_runs.py"; "runs/pqc/"; "runs/pqc"]%string Sample.run_files
  = ([Analyzer.CompareSummaryCsv "pqc" [("total"%string, Analyzer.JNumber (100 # 1))]
        "pqc" [("total"%string, Analyzer.JNumber (100 # 1))];
      Analyzer.CompareBarsPng; Analyzer.CompareTimeseriesPng],
     Analyzer.Returned).
Proof. vm_compute. reflexivity. Qed.

Example analyzer_usage :
  Analyzer.main ["analyze_runs.py"; "runs/pqc"]%string Sample.run_files
  = ([], Analyzer.SysExit 1).
Proof. reflexivity. Qed.

(** * Further properties *)

(** ** Exact-length reads on any connection *)

Section RecvExactAnySocket.

Variables on_timeout on_closed : exn.

(** When the loop returns, it returns [data] followed by the next bytes of
    the stream, [len] bytes in all, and leaves the others pending. *)
Lemma recv_exact_loop_exact (fuel len : nat) :
  forall (data : list byte) (conn conn' : Wire.socket) (out : list byte),
    Wire.recv_exact_loop on_timeout on_closed fuel len data conn = (Ret out, conn') ->
    (length data <= len)%nat ->
    length out = len
    /\ exists got, out = data ++ got /\ Stream.pending conn = got ++ Stream.pending conn'.
Proof.
  induction fuel as [| fuel IH]; intros data conn conn' out Hrun Hlen;
    cbn [Wire.recv_exact_loop] in Hrun.
  - destruct (length data <? len)%nat eqn:E; [discriminate |].
    apply Nat.ltb_ge in E. injection Hrun as <- <-.
    split; [lia |]. exists []. now rewrite app_nil_r.
  - destruct (length data <? len)%nat eqn:E.
    2:{ apply Nat.ltb_ge in E. injection Hrun as <- <-.
        split; [lia |]. exists []. now rewrite app_nil_r. }
    apply Nat.ltb_lt in E.
    destruct conn as [| [chunk |] rest]; cbn [Wire.recv] in Hrun; try discriminate.
    destruct (length chunk <=? len - length data)%nat eqn:Ec.
    + apply Nat.leb_le in Ec.
      destruct (decide (chunk = [])); [discriminate |].
      apply IH in Hrun as (Hout & got & -> & Hpend); [| rewrite length_app; lia].
      split; [exact Hout |]. exists (chunk ++ got).
      cbn [Stream.pending]. rewrite Hpend, !app_assoc. auto.
    + apply Nat.leb_gt in Ec.
      destruct (decide (take (len - length data) chunk = [])); [discriminate |].
      apply IH in Hrun as (Hout & got & -> & Hpend);
        [| rewrite length_app, length_take; lia].
      split; [exact Hout |]. exists (take (len - length data) chunk ++ got).
      cbn [Stream.pending] in *. rewrite <- !app_assoc, <- Hpend, !app_assoc, take_drop.
      auto.
Qed.

End RecvExactAnySocket.

(** X1. On any connection, whatever it delivers and however it is
    segmented, a [recv_exact] that returns has read exactly [length]
    bytes: the next bytes of the stream, in order, with nothing lost of
    what follows. *)
Theorem recv_exact_exact (len : nat) (conn conn' : Wire.socket) (out : list byte) :
  Secoc.recv_exact len conn = (Ret out, conn')
  \/ Pqc.recv_exact len conn = (Ret out, conn') ->
  length out = len /\ Stream.pending conn = out ++ Stream.pending conn'.
Proof.
  intros [Hrun | Hrun];
    apply recv_exact_loop_exact in Hrun as (Hlen & got & -> & Hpend); cbn; try lia; auto.
Qed.

Lemma recv_exact_exact_witness :
  length [Byte.x00; Byte.x38] = 2%nat
  /\ Stream.pending Sample.secoc_conn
     = [Byte.x00; Byte.x38]
       ++ Stream.pending (snd (Secoc.recv_exact 2 Sample.secoc_conn)).
Proof.
  apply (recv_exact_exact 2 Sample.secoc_conn (snd (Secoc.recv_exact 2 Sample.secoc_conn))).
  left. vm_compute. reflexivity.
Defined.

(** ** From the fields read back to the wire *)

Lemma byte_of_Z_of_byte (b : byte) : Wire.byte_of_Z (Z.of_N (Byte.to_N b)) = b.
Proof. unfold Wire.byte_of_Z. now rewrite N2Z.id, Byte.of_to_N. Qed.

Lemma byte_value_range (b : byte) : 0 <= Z.of_N (Byte.to_N b) < 256.
Proof. pose proof (Byte.to_N_bounded b). lia. Qed.

(** A two-byte length prefix is the big-endian image of the number it
    decodes to, which is below 65536. *)
Lemma to_bytes2_of_prefix (raw : list byte) :
  length raw = 2%nat ->
  0 <= Wire.int_from_bytes_big raw <= 65535
  /\ Wire.to_bytes2_big (Wire.int_from_bytes_big raw) = inr raw.
Proof.
  intros Hlen. destruct raw as [| hi [| lo [| ? ?]]]; try discriminate Hlen.
  unfold Wire.int_from_bytes_big. cbn [fold_left].
  pose proof (byte_value_range hi) as Hhi. pose proof (byte_value_range lo) as Hlo.
  set (h := Z.of_N (Byte.to_N hi)) in *. set (l := Z.of_N (Byte.to_N lo)) in *.
  assert (Hdiv : ((0 * 256 + h) * 256 + l) / 256 = h).
  { symmetry. apply (Z.div_unique _ 256 h l); lia. }
  assert (Hmod : ((0 * 256 + h) * 256 + l) mod 256 = l).
  { symmetry. apply (Z.mod_unique _ 256 h l); lia. }
  split; [lia |]. unfold Wire.to_bytes2_big.
  destruct (_ <? 0) eqn:E1; [apply Z.ltb_lt in E1; lia |].
  destruct (65535 <? _) eqn:E2; [apply Z.ltb_lt in E2; lia |].
  cbn [orb]. rewrite Hdiv, Hmod. unfold h, l. now rewrite !byte_of_Z_of_byte.
Qed.

Section ReadField.

Variables on_timeout on_closed : exn.

(** A length prefix and the field it announces, read one after the other:
    together they are the framing of the field, and they are what has come
    off the stream. *)
Lemma read_field_reframes (conn conn1 conn2 : Wire.socket) (raw field : list byte) :
  Wire.recv_exact_loop on_timeout on_closed 2 2 [] conn = (Ret raw, conn1) ->
  Wire.recv_exact_loop on_timeout on_closed
    (Z.to_nat (Wire.int_from_bytes_big raw)) (Z.to_nat (Wire.int_from_bytes_big raw)) [] conn1
  = (Ret field, conn2) ->
  length field = Z.to_nat (Wire.int_from_bytes_big raw)
  /\ Z.of_nat (length field) <= 65535
  /\ Wire.frame_field field = inr (raw ++ field)
  /\ Stream.pending conn = (raw ++ field) ++ Stream.pending conn2.
Proof.
  intros Hraw Hfield.
  apply recv_exact_loop_exact in Hraw as (Hlraw & got & -> & Hp1); [| cbn; lia].
  apply recv_exact_loop_exact in Hfield as (Hlfield & got' & -> & Hp2); [| cbn; lia].
  cbn [app] in *.
  destruct (to_bytes2_of_prefix got Hlraw) as [Hrange Hbytes].
  split; [exact Hlfield |]. split; [lia |]. split.
  - unfold Wire.frame_field. rewrite Hlfield, Z2Nat.id by lia. now rewrite Hbytes.
  - rewrite Hp1, Hp2. now rewrite app_assoc.
Qed.

End ReadField.

Lemma secoc_read_envelope_reframes (conn conn' : Wire.socket) (message : list byte)
    (tag_len : nat) (tag : list byte) :
  Secoc.read_envelope conn = (Ret (message, tag_len, tag), conn') ->
  length tag = tag_len
  /\ Z.of_nat (length message) <= 65535 /\ Z.of_nat (length tag) <= 65535
  /\ exists wire,
       Secoc.send_envelope message tag = inr wire
       /\ Stream.pending conn = wire ++ Stream.pending conn'.
Proof.
  intros Hread.
  unfold Secoc.read_envelope, Secoc.recv_exact, mbind, Wire.reader_bind, mret,
    Wire.reader_ret in Hread.
  destruct (Wire.recv_exact_loop _ _ 2 2 [] conn) as [[raw1 | |] c1] eqn:H1;
    try discriminate.
  destruct (Wire.recv_exact_loop _ _ _ _ [] c1) as [[m | |] c2] eqn:H2; try discriminate.
  destruct (Wire.recv_exact_loop _ _ 2 2 [] c2) as [[raw2 | |] c3] eqn:H3;
    try discriminate.
  destruct (Wire.recv_exact_loop _ _ _ _ [] c3) as [[t | |] c4] eqn:H4; try discriminate.
  injection Hread as <- <- <- <-.
  destruct (read_field_reframes _ _ _ _ _ _ _ H1 H2) as (_ & Hm & Hfm & Hpm).
  destruct (read_field_reframes _ _ _ _ _ _ _ H3 H4) as (Hlt & Ht & Hft & Hpt).
  split; [exact Hlt |]. split; [exact Hm |]. split; [exact Ht |].
  eexists. unfold Secoc.send_envelope. rewrite Hfm, Hft. split; [reflexivity |].
  rewrite Hpm, Hpt. now rewrite !app_assoc.
Qed.

Lemma pqc_read_envelope_reframes (conn conn' : Wire.socket) (item : Pqc.work_item) :
  Pqc.read_envelope conn = (Ret item, conn') ->
  Z.of_nat (length (Pqc.item_message item)) <= 65535
  /\ Z.of_nat (length (Pqc.item_signature item)) <= 65535
  /\ Z.of_nat (length (Pqc.item_public_key item)) <= 65535
  /\ exists wire,
       Pqc.send_envelope (Pqc.item_message item) (Pqc.item_signature item)
         (Pqc.item_public_key item) = inr wire
       /\ Stream.pending conn = wire ++ Stream.pending conn'.
Proof.
  intros Hread.
  unfold Pqc.read_envelope, Pqc.recv_exact, mbind, Wire.reader_bind, mret,
    Wire.reader_ret in Hread.
  destruct (Wire.recv_exact_loop _ _ 2 2 [] conn) as [[raw1 | |] c1] eqn:H1;
    try discriminate.
  destruct (Wire.recv_exact_loop _ _ _ _ [] c1) as [[m | |] c2] eqn:H2; try discriminate.
  destruct (Wire.recv_exact_loop _ _ 2 2 [] c2) as [[raw2 | |] c3] eqn:H3;
    try discriminate.
  destruct (Wire.recv_exact_loop _ _ _ _ [] c3) as [[s | |] c4] eqn:H4; try discriminate.
  destruct (Wire.recv_exact_loop _ _ 2 2 [] c4) as [[raw3 | |] c5] eqn:H5;
    try discriminate.
  destruct (Wire.recv_exact_loop _ _ _ _ [] c5) as [[k | |] c6] eqn:H6; try discriminate.
  injection Hread as <- <-. cbn [Pqc.item_message Pqc.item_signature Pqc.item_public_key].
  destruct (read_field_reframes _ _ _ _ _ _ _ H1 H2) as (_ & Hm & Hfm & Hpm).
  destruct (read_field_reframes _ _ _ _ _ _ _ H3 H4) as (_ & Hs & Hfs & Hps).
  destruct (read_field_reframes _ _ _ _ _ _ _ H5 H6) as (_ & Hk & Hfk & Hpk).
  split; [exact Hm |]. split; [exact Hs |]. split; [exact Hk |].
  eexists. unfold Pqc.send_envelope. rewrite Hfm, Hfs, Hfk. split; [reflexivity |].
  rewrite Hpm, Hps, Hpk. now rewrite <- !app_assoc.
Qed.

(** X2. Whatever a connection delivers, when a receiver's envelope read
    returns, every field has the length its prefix announced and at most
    65535 bytes, the tag length handed on is the length of the tag, and
    the bytes taken off the stream are exactly the sender's framing of the
    fields returned: the reads take an envelope apart without loss. *)
Theorem read_envelope_reframes (conn conn' : Wire.socket) :
  (forall message tag_len tag,
     Secoc.read_envelope conn = (Ret (message, tag_len, tag), conn') ->
     length tag = tag_len
     /\ Z.of_nat (length message) <= 65535 /\ Z.of_nat (length tag) <= 65535
     /\ exists wire,
          Secoc.send_envelope message tag = inr wire
          /\ Stream.pending conn = wire ++ Stream.pending conn')
  /\ (forall item,
        Pqc.read_envelope conn = (Ret item, conn') ->
        Z.of_nat (length (Pqc.item_message item)) <= 65535
        /\ Z.of_nat (length (Pqc.item_signature item)) <= 65535
        /\ Z.of_nat (length (Pqc.item_public_key item)) <= 65535
        /\ exists wire,
             Pqc.send_envelope (Pqc.item_message item) (Pqc.item_signature item)
               (Pqc.item_public_key item) = inr wire
             /\ Stream.pending conn = wire ++ Stream.pending conn').
Proof.
  split.
  - intros message tag_len tag. apply secoc_read_envelope_reframes.
  - intros item. apply pqc_read_envelope_reframes.
Qed.

Lemma read_envelope_reframes_witness :
  exists wire,
    Secoc.send_envelope Sample.message Sample.tag = inr wire
    /\ Stream.pending Sample.secoc_conn = wire ++ Stream.pending [].
Proof.
  destruct (read_envelope_reframes Sample.secoc_conn []) as [Hsecoc _].
  destruct (Hsecoc Sample.message 8%nat Sample.tag) as (_ & _ & _ & Hwire).
  - vm_compute. reflexivity.
  - exact Hwire.
Defined.

(** ** One envelope per connection *)

Lemma secoc_read_envelope_surplus (message tag extra : list byte) (wire : list byte)
    (conn ending : Wire.socket) :
  Secoc.send_envelope message tag = inr wire ->
  Wire.delivers_then ending conn (wire ++ extra) -> Wire.stops ending ->
  exists conn',
    Secoc.read_envelope conn = (Ret (message, length tag, tag), conn')
    /\ Wire.delivers_then ending conn' extra.
Proof.
  intros Hsend Hd Hstop.
  assert (Hm : Z.of_nat (length message) <= 65535).
  { destruct (Z_le_gt_dec (Z.of_nat (length message)) 65535) as [? | Hbig]; [assumption |].
    unfold Secoc.send_envelope in Hsend.
    rewrite frame_field_overflow in Hsend by lia. discriminate. }
  destruct (frame_field_inv message Hm) as (h1 & Hf1 & Hl1 & Hv1).
  assert (Ht : Z.of_nat (length tag) <= 65535).
  { destruct (Z_le_gt_dec (Z.of_nat (length tag)) 65535) as [? | Hbig]; [assumption |].
    unfold Secoc.send_envelope in Hsend. rewrite Hf1 in Hsend.
    rewrite frame_field_overflow in Hsend by lia. discriminate. }
  destruct (frame_field_inv tag Ht) as (h2 & Hf2 & Hl2 & Hv2).
  unfold Secoc.send_envelope in Hsend. rewrite Hf1, Hf2 in Hsend.
  injection Hsend as <-.
  assert (Hw : (((h1 ++ message) ++ h2 ++ tag) ++ extra) ++ []
               = h1 ++ message ++ h2 ++ tag ++ extra)
    by now rewrite app_nil_r, <- !app_assoc.
  unfold Secoc.read_envelope, Secoc.recv_exact, mbind, Wire.reader_bind, mret, Wire.reader_ret.
  read_field Hrun Hd Hw Hstop Hl1.
  2:{ exfalso. rewrite !length_app in *. lia. }
  rewrite Hv1.
  read_field Hrun2 Hd Hw Hstop (eq_refl (length message)).
  2:{ exfalso. apply (f_equal length) in Hw. rewrite !length_app in *. cbn in Hw. lia. }
  read_field Hrun3 Hd Hw Hstop Hl2.
  2:{ exfalso. apply (f_equal length) in Hw. rewrite !length_app in *. cbn in Hw. lia. }
  rewrite Hv2.
  read_field Hrun4 Hd Hw Hstop (eq_refl (length tag)).
  2:{ exfalso. apply (f_equal length) in Hw. rewrite !length_app in *. cbn in Hw. lia. }
  eexists. split; [reflexivity |].
  rewrite app_nil_r in Hw. now subst.
Qed.

Lemma pqc_read_envelope_surplus (message signature public_key extra wire : list byte)
    (conn ending : Wire.socket) :
  Pqc.send_envelope message signature public_key = inr wire ->
  Wire.delivers_then ending conn (wire ++ extra) -> Wire.stops ending ->
  exists conn',
    Pqc.read_envelope conn
    = (Ret {| Pqc.item_message := message; Pqc.item_signature := signature;
              Pqc.item_public_key := public_key |}, conn')
    /\ Wire.delivers_then ending conn' extra.
Proof.
  intros Hsend Hd Hstop.
  assert (Hm : Z.of_nat (length message) <= 65535).
  { destruct (Z_le_gt_dec (Z.of_nat (length message)) 65535) as [? | Hbig]; [assumption |].
    unfold Pqc.send_envelope in Hsend.
    rewrite (frame_field_overflow message) in Hsend by lia. discriminate. }
  destruct (frame_field_inv message Hm) as (h1 & Hf1 & Hl1 & Hv1).
  assert (Hs : Z.of_nat (length signature) <= 65535).
  { destruct (Z_le_gt_dec (Z.of_nat (length signature)) 65535) as [? | Hbig]; [assumption |].
    unfold Pqc.send_envelope in Hsend. rewrite Hf1 in Hsend.
    rewrite (frame_field_overflow signature) in Hsend by lia. discriminate. }
  destruct (frame_field_inv signature Hs) as (h2 & Hf2 & Hl2 & Hv2).
  assert (Hk : Z.of_nat (length public_key) <= 65535).
  { destruct (Z_le_gt_dec (Z.of_nat (length public_key)) 65535) as [? | Hbig]; [assumption |].
    unfold Pqc.send_envelope in Hsend. rewrite Hf1, Hf2 in Hsend.
    rewrite (frame_field_overflow public_key) in Hsend by lia. discriminate. }
  destruct (frame_field_inv public_key Hk) as (h3 & Hf3 & Hl3 & Hv3).
  unfold Pqc.send_envelope in Hsend. rewrite Hf1, Hf2, Hf3 in Hsend.
  injection Hsend as <-.
  assert (Hw : (((h1 ++ message) ++ (h2 ++ signature) ++ h3 ++ public_key) ++ extra) ++ []
               = h1 ++ message ++ h2 ++ signature ++ h3 ++ public_key ++ extra)
    by now rewrite app_nil_r, <- !app_assoc.
  unfold Pqc.read_envelope, Pqc.recv_exact, mbind, Wire.reader_bind, mret, Wire.reader_ret.
  read_field Hrun Hd Hw Hstop Hl1.
  2:{ exfalso. rewrite !length_app in *. lia. }
  rewrite Hv1.
  read_field Hrun2 Hd Hw Hstop (eq_refl (length message)).
  2:{ exfalso. apply (f_equal length) in Hw. rewrite !length_app in *. cbn in Hw. lia. }
  read_field Hrun3 Hd Hw Hstop Hl2.
  2:{ exfalso. apply (f_equal length) in Hw. rewrite !length_app in *. cbn in Hw. lia. }
  rewrite Hv2.
  read_field Hrun4 Hd Hw Hstop (eq_refl (length signature)).
  2:{ exfalso. apply (f_equal length) in Hw. rewrite !length_app in *. cbn in Hw. lia. }
  read_field Hrun5 Hd Hw Hstop Hl3.
  2:{ exfalso. apply (f_equal length) in Hw. rewrite !length_app in *. cbn in Hw. lia. }
  rewrite Hv3.
  read_field Hrun6 Hd Hw Hstop (eq_refl (length public_key)).
  2:{ exfalso. apply (f_equal length) in Hw. rewrite !length_app in *. cbn in Hw. lia. }
  eexists. split; [reflexivity |].
  rewrite app_nil_r in Hw. now subst.
Qed.

Lemma frame_field_nonempty (field framed : list byte) :
  Wire.frame_field field = inr framed -> framed <> [].
Proof.
  unfold Wire.frame_field, Wire.to_bytes2_big.
  destruct (_ || _); [discriminate |]. intros [= <-]. discriminate.
Qed.

Lemma delivers_whole (wire : list byte) : wire <> [] -> Wire.delivers [Wire.Data wire] wire.
Proof.
  intros Hne. exists [wire]. split; [reflexivity |].
  split; [repeat constructor; exact Hne | apply app_nil_r].
Qed.

(** X3. A receiver reads one envelope per connection and nothing else:
    once the framed envelope has arrived, whatever follows on the
    connection (more bytes, a second envelope, a stall, a close) changes
    neither the outcome nor the state, which are those of a connection
    that delivers the envelope alone. *)
Theorem envelope_then_anything {P : Primitives}
    (message tag wire extra : list byte) (conn ending : Wire.socket)
    (env : Secoc.environment) (st : Secoc.replay_state)
    (message' signature public_key wire' extra' : list byte) (conn' ending' : Wire.socket)
    (cpu random_draw : Q) (st' : Pqc.state) :
  Secoc.send_envelope message tag = inr wire ->
  Wire.delivers_then ending conn (wire ++ extra) -> Wire.stops ending ->
  Pqc.send_envelope message' signature public_key = inr wire' ->
  Wire.delivers_then ending' conn' (wire' ++ extra') -> Wire.stops ending' ->
  Secoc.handle_connection conn env st = Secoc.handle_connection [Wire.Data wire] env st
  /\ Pqc.handle_connection conn' cpu random_draw st'
     = Pqc.handle_connection [Wire.Data wire'] cpu random_draw st'.
Proof.
  intros Hsend Hd Hstop Hsend' Hd' Hstop'. split.
  - destruct (secoc_read_envelope_surplus _ _ _ _ _ _ Hsend Hd Hstop) as (c & Hread & _).
    assert (Hne : wire <> []).
    { unfold Secoc.send_envelope in Hsend.
      destruct (Wire.frame_field message) as [| m] eqn:Em; [discriminate |].
      destruct (Wire.frame_field tag); [discriminate |]. injection Hsend as <-.
      apply frame_field_nonempty in Em. destruct m; [contradiction | discriminate]. }
    pose proof (delivers_whole wire Hne) as Hwhole. rewrite <- (app_nil_r wire) in Hwhole at 2.
    destruct (secoc_read_envelope_surplus _ _ _ _ _ _ Hsend Hwhole stops_closed)
      as (c0 & Hread0 & _).
    unfold Secoc.handle_connection. now rewrite Hread, Hread0.
  - destruct (pqc_read_envelope_surplus _ _ _ _ _ _ _ Hsend' Hd' Hstop') as (c & Hread & _).
    assert (Hne : wire' <> []).
    { unfold Pqc.send_envelope in Hsend'.
      destruct (Wire.frame_field message') as [| m] eqn:Em; [discriminate |].
      destruct (Wire.frame_field signature); [discriminate |].
      destruct (Wire.frame_field public_key); [discriminate |]. injection Hsend' as <-.
      apply frame_field_nonempty in Em. destruct m; [contradiction | discriminate]. }
    pose proof (delivers_whole wire' Hne) as Hwhole.
    rewrite <- (app_nil_r wire') in Hwhole at 2.
    destruct (pqc_read_envelope_surplus _ _ _ _ _ _ _ Hsend' Hwhole stops_closed)
      as (c0 & Hread0 & _).
    unfold Pqc.handle_connection. now rewrite Hread, Hread0.
Qed.

Lemma envelope_then_anything_witness :
  Secoc.handle_connection (H := Sample.primitives) Cases.secoc_conn_surplus Sample.idle
    Secoc.initial_state
  = Secoc.handle_connection (H := Sample.primitives) [Wire.Data Cases.secoc_wire] Sample.idle
      Secoc.initial_state
  /\ Pqc.handle_connection Cases.pqc_conn_surplus (10 # 1) (1 # 2) Pqc.initial_state
     = Pqc.handle_connection [Wire.Data Cases.pqc_wire] (10 # 1) (1 # 2) Pqc.initial_state.
Proof.
  apply (envelope_then_anything (P := Sample.primitives)
           Sample.message Sample.tag Cases.secoc_wire [Byte.x01] Cases.secoc_conn_surplus []
           Sample.idle Secoc.initial_state
           Sample.message Sample.signature Sample.public_key Cases.pqc_wire
           [Byte.x01; Byte.x02] Cases.pqc_conn_surplus [Wire.Stall]).
  - vm_compute. reflexivity.
  - exists [take 10 Cases.secoc_wire; drop 10 Cases.secoc_wire; [Byte.x01]].
    split; [reflexivity | split; [| vm_compute; reflexivity]].
    repeat constructor; vm_compute; discriminate.
  - now left.
  - vm_compute. reflexivity.
  - exists [Cases.pqc_wire ++ [Byte.x01; Byte.x02]].
    split; [reflexivity | split; [| vm_compute; reflexivity]].
    repeat constructor; vm_compute; discriminate.
  - right. eauto.
Defined.

(** ** The SECOC replay cache as a sliding window *)

Lemma record_all_window (hashes : list string) :
  forall st : Secoc.replay_state,
    Secoc.consistent st ->
    NoDup hashes ->
    (forall h, h ∈ hashes -> h ∉ Secoc.REPLAY_SET st) ->
    Secoc.REPLAY_CACHE (Secoc.record_all hashes st)
    = drop (length (Secoc.REPLAY_CACHE st ++ hashes) - Secoc.REPLAY_CACHE_SIZE)
        (Secoc.REPLAY_CACHE st ++ hashes).
Proof.
  unfold Secoc.REPLAY_CACHE_SIZE.
  induction hashes as [| h hashes IH]; intros st Hst Hnd Hnew.
  - cbn. destruct Hst as (_ & _ & Hlen). unfold Secoc.REPLAY_CACHE_SIZE in Hlen.
    rewrite app_nil_r. replace (_ - _)%nat with 0%nat by lia. reflexivity.
  - apply NoDup_cons in Hnd as [Hh Hnd].
    assert (Hfresh : h ∉ Secoc.REPLAY_SET st) by (apply Hnew; now left).
    destruct (record_replay_consistent h st Hst) as [Hrun Hst'].
    cbv zeta in Hrun. unfold Secoc.REPLAY_CACHE_SIZE in Hrun.
    destruct (decide (h ∈ Secoc.REPLAY_SET st)) as [? | _]; [contradiction |].
    cbn [Secoc.record_all foldl]. fold (Secoc.record_all hashes).
    change (foldl _ ?s hashes) with (Secoc.record_all hashes s).
    pose proof Hst as (_ & _ & Hlen). unfold Secoc.REPLAY_CACHE_SIZE in Hlen.
    rewrite IH; [| exact Hst' | exact Hnd |].
    + rewrite Hrun. cbn [snd Secoc.REPLAY_CACHE].
      unfold Secoc.REPLAY_CACHE_SIZE.
      destruct (decide (length (Secoc.REPLAY_CACHE st) = 1024%nat)) as [Hfull | Hroom].
      * destruct (Secoc.REPLAY_CACHE st) as [| old cache]; [discriminate Hfull |].
        cbn [length] in Hfull. change (drop 1 (old :: cache)) with cache.
        rewrite <- !app_assoc. cbn [app].
        rewrite !length_app. cbn [length]. rewrite length_app. cbn [length].
        replace (length cache + S (length hashes) - 1024)%nat with (length hashes) by lia.
        replace (S (length cache + S (length hashes)) - 1024)%nat
          with (S (length hashes)) by lia.
        reflexivity.
      * rewrite <- !app_assoc. reflexivity.
    + intros x Hx. rewrite Hrun. cbn [snd Secoc.REPLAY_SET].
      rewrite elem_of_list_to_set. intros Hin.
      assert (Hxin : x ∈ Secoc.REPLAY_CACHE st ++ [h]).
      { destruct (decide (length (Secoc.REPLAY_CACHE st) = 1024%nat));
          [| exact Hin].
        apply elem_of_app in Hin as [Hin | Hin]; apply elem_of_app; [left | now right].
        eapply subseteq_drop; exact Hin. }
      apply elem_of_app in Hxin as [Hxin | Hxin].
      * apply (Hnew x); [now right |].
        destruct Hst as (_ & -> & _). now apply elem_of_list_to_set.
      * apply list_elem_of_singleton in Hxin as ->. contradiction.
Qed.

(** X4. Recording distinct fingerprints from the start leaves in the
    SECOC cache exactly the last 1024 of them (all of them if fewer), in
    arrival order, and the set holds the same ones: the cache is a sliding
    window over the fingerprints recorded. *)
Theorem replay_cache_window (hashes : list string) :
  NoDup hashes ->
  let st := Secoc.record_all hashes Secoc.initial_state in
  Secoc.REPLAY_CACHE st = drop (length hashes - 1024) hashes
  /\ (forall h, h ∈ Secoc.REPLAY_SET st <-> h ∈ drop (length hashes - 1024) hashes).
Proof.
  intros Hnd st.
  pose proof (record_all_window hashes Secoc.initial_state secoc_initial_consistent Hnd)
    as Hwin.
  cbn [Secoc.initial_state Secoc.REPLAY_CACHE Secoc.REPLAY_SET app] in Hwin.
  unfold Secoc.REPLAY_CACHE_SIZE in Hwin.
  assert (Hcache : Secoc.REPLAY_CACHE st = drop (length hashes - 1024) hashes).
  { apply Hwin. intros h _. apply not_elem_of_empty. }
  split; [exact Hcache |]. intros h.
  destruct (record_all_consistent hashes _ secoc_initial_consistent) as (_ & Hset & _).
  fold st in Hset. rewrite Hset, Hcache. apply elem_of_list_to_set.
Qed.

Lemma replay_cache_window_witness :
  Secoc.REPLAY_CACHE (Secoc.record_all (Sample.fingerprints 5) Secoc.initial_state)
  = drop (5 - 1024) (Sample.fingerprints 5).
Proof.
  apply (replay_cache_window (Sample.fingerprints 5)).
  apply (bool_decide_unpack _). vm_compute. reflexivity.
Defined.

Lemma elem_of_drop_middle (x : string) (before after : list string) (n : nat) :
  x ∉ after ->
  x ∈ drop n (before ++ x :: after) <-> (n <= length before)%nat.
Proof.
  intros Hafter. split.
  - intros Hin. destruct (le_lt_dec n (length before)) as [? | Hgt]; [assumption |].
    exfalso. apply Hafter.
    rewrite drop_app_ge in Hin by lia.
    destruct (n - length before)%nat as [| k] eqn:E; [lia |].
    cbn [drop] in Hin. eapply subseteq_drop. exact Hin.
  - intros Hle. rewrite drop_app_le by exact Hle.
    apply elem_of_app. right. now left.
Qed.

(** X5. How long the SECOC receiver remembers: a fingerprint just
    recorded is still in the replay set after further new, distinct
    fingerprints have been recorded exactly when there were fewer than
    1024 of them; the 1024th pushes it out, and a replay of that message
    is no longer recognised. *)
Theorem replay_memory_span (st : Secoc.replay_state) (h : string) (later : list string) :
  Secoc.consistent st ->
  h ∉ Secoc.REPLAY_SET st ->
  NoDup later -> h ∉ later ->
  (forall x, x ∈ later -> x ∉ Secoc.REPLAY_SET st) ->
  h ∈ Secoc.REPLAY_SET (Secoc.record_all later (snd (Secoc.record_replay h st)))
  <-> (length later < 1024)%nat.
Proof.
  intros Hst Hh Hnd Hnotin Hnew.
  destruct (record_replay_consistent h st Hst) as [Hrun Hst1].
  cbv zeta in Hrun. unfold Secoc.REPLAY_CACHE_SIZE in Hrun.
  destruct (decide (h ∈ Secoc.REPLAY_SET st)) as [? | _]; [contradiction |].
  set (before := if decide (length (Secoc.REPLAY_CACHE st) = 1024%nat)
                 then drop 1 (Secoc.REPLAY_CACHE st) else Secoc.REPLAY_CACHE st).
  assert (Hcache1 : Secoc.REPLAY_CACHE (snd (Secoc.record_replay h st)) = before ++ [h]).
  { rewrite Hrun. cbn [snd Secoc.REPLAY_CACHE]. subst before. now destruct (decide _). }
  assert (Hnew1 : forall x, x ∈ later -> x ∉ Secoc.REPLAY_SET (snd (Secoc.record_replay h st))).
  { intros x Hx. destruct Hst1 as (_ & -> & _). rewrite Hcache1, elem_of_list_to_set.
    intros Hin. apply elem_of_app in Hin as [Hin | Hin].
    - apply (Hnew x Hx). destruct Hst as (_ & -> & _). apply elem_of_list_to_set.
      subst before. destruct (decide _); [eapply subseteq_drop |]; exact Hin.
    - apply list_elem_of_singleton in Hin as ->. contradiction. }
  pose proof (record_all_window later _ Hst1 Hnd Hnew1) as Hwin.
  destruct (record_all_consistent later _ Hst1) as (_ & Hset & _).
  rewrite Hset, Hwin, Hcache1, elem_of_list_to_set. unfold Secoc.REPLAY_CACHE_SIZE.
  rewrite <- app_assoc. cbn [app].
  rewrite (elem_of_drop_middle h before later _ Hnotin).
  rewrite length_app. cbn [length]. lia.
Qed.

Lemma replay_memory_span_witness :
  Sample.fingerprint 0
  ∈ Secoc.REPLAY_SET
      (Secoc.record_all [Sample.fingerprint 1; Sample.fingerprint 2]
         (snd (Secoc.record_replay (Sample.fingerprint 0) Secoc.initial_state)))
  <-> (2 < 1024)%nat.
Proof.
  apply (replay_memory_span Secoc.initial_state (Sample.fingerprint 0)
           [Sample.fingerprint 1; Sample.fingerprint 2]).
  - exact secoc_initial_consistent.
  - apply not_elem_of_empty.
  - apply (bool_decide_unpack _). vm_compute. reflexivity.
  - apply (bool_decide_unpack _). vm_compute. reflexivity.
  - intros x _. apply not_elem_of_empty.
Defined.

(** ** What moves the SECOC replay cache, and what cannot *)

(** In a consistent state [record_replay] does not raise. *)
Lemma handle_connection_no_exception {P : Primitives} (conn : Wire.socket)
    (env : Secoc.environment) (st : Secoc.replay_state) (e : exn) :
  Secoc.consistent st ->
  snd (Secoc.handle_connection conn env st) <> Secoc.Uncaught e.
Proof.
  intros Hst. unfold Secoc.handle_connection.
  destruct (Secoc.read_envelope conn) as [[[[message tag_len] tag] | [] |] conn'];
    try discriminate.
  unfold Secoc.check_envelope.
  repeat (match goal with
          | |- context [if ?b then _ else _] => destruct b
          | |- context [match Wire.unpack_Q ?f with _ => _ end] => destruct (Wire.unpack_Q f)
          | |- context [Secoc.compute_drop_prob ?c] => destruct (Secoc.compute_drop_prob c)
          end; try discriminate).
  all: match goal with
       | |- context [Secoc.record_replay ?h ?s] =>
           destruct (record_replay_consistent h s Hst) as [-> _]; discriminate
       end.
Qed.

(** X6. The SECOC accept loop cannot be brought down through its replay
    cache: started with an empty cache, it serves every connection of any
    sequence (one outcome per connection), no [record_replay] ever raises
    out of the handler, and the cache stays consistent. *)
Theorem serve_never_crashes {P : Primitives} (conns : list (Wire.socket * Secoc.environment)) :
  let '(st, outcomes) := Secoc.serve conns Secoc.initial_state in
  length outcomes = length conns
  /\ Forall (fun o => (forall e, o <> Secoc.Uncaught e) /\ o <> Secoc.Unfinished) outcomes
  /\ Secoc.consistent st.
Proof.
  assert (Hgen : forall st0, Secoc.consistent st0 ->
            let '(st, outcomes) := Secoc.serve conns st0 in
            length outcomes = length conns
            /\ Forall (fun o => (forall e, o <> Secoc.Uncaught e) /\ o <> Secoc.Unfinished)
                 outcomes
            /\ Secoc.consistent st).
  { induction conns as [| [conn env] conns IH]; intros st0 Hst0.
    - cbn. auto.
    - cbn [Secoc.serve].
      pose proof (handle_connection_consistent conn env st0 Hst0) as Hnext.
      pose proof (fun e => handle_connection_no_exception conn env st0 e Hst0) as Hsafe.
      destruct (handle_connection_finishes conn env st0 0%Q 0%Q Pqc.initial_state)
        as [Hfin _].
      destruct (Secoc.handle_connection conn env st0) as [st1 o]. cbn [fst snd] in *.
      specialize (IH st1 Hnext). destruct (Secoc.serve conns st1) as [st2 os].
      destruct IH as (Hlen & Hall & Hst2).
      destruct o; try (exfalso; eapply Hsafe; reflexivity);
        (split; [cbn; lia | split; [constructor; [split; [intros; discriminate | assumption] | assumption] | assumption]]). }
  apply Hgen. exact secoc_initial_consistent.
Qed.

(** X7. The SECOC replay cache moves exactly when a message has passed
    freshness, authentication and replay detection: on every other
    connection (aborted read, short, stale, future, wrong tag, replay) the
    state is left as it was, so traffic that does not authenticate can
    neither fill the cache nor push a fingerprint out of it; and a message
    that did authenticate is recorded even when the overload gate or the
    unpacking then drops it. *)
Theorem cache_moves_on_authenticated_only {P : Primitives} (conn : Wire.socket)
    (env : Secoc.environment) (st : Secoc.replay_state) :
  Secoc.consistent st ->
  let '(st', o) := Secoc.handle_connection conn env st in
  (st' = st <-> Secoc.authenticated o = false \/ o = Secoc.ReplayDetected).
Proof.
  intros Hst. unfold Secoc.handle_connection.
  destruct (Secoc.read_envelope conn) as [[[[message tag_len] tag] | [] |] conn'];
    try (split; [intros _; left; reflexivity | reflexivity]).
  unfold Secoc.check_envelope.
  repeat (match goal with
          | |- context [if (?a <? ?b)%nat then _ else _] => destruct (a <? b)%nat
          | |- context [if (?a <? ?b) then _ else _] => destruct (a <? b)
          | |- context [match Wire.unpack_Q ?f with _ => _ end] => destruct (Wire.unpack_Q f)
          | |- context [if decide (_ <> _) then _ else _] => destruct (decide (_ <> _))
          end; try (split; [intros _; left; reflexivity | reflexivity])).
  match goal with
  | |- context [decide (?h ∈ Secoc.REPLAY_SET st)] =>
      destruct (decide (h ∈ Secoc.REPLAY_SET st)) as [Hin | Hout];
        [split; [intros _; right; reflexivity | reflexivity] |];
      destruct (record_replay_consistent h st Hst) as [Hrun _]; cbv zeta in Hrun;
      rewrite Hrun
  end.
  match type of Hrun with
  | _ = (_, ?new) => assert (Hmoved : new <> st)
  end.
  { intros Heq. apply Hout. rewrite <- Heq. cbn [Secoc.REPLAY_SET].
    apply elem_of_list_to_set.
    destruct (decide (_ ∈ _)) as [? | _]; [contradiction |].
    destruct (decide _); apply elem_of_app; right; apply list_elem_of_singleton; reflexivity. }
  cbv beta iota.
  destruct (Secoc.compute_drop_prob (Secoc.cpu_percent env)) as [prob cpu].
  destruct (Qlt_le_dec _ _); [| destruct (_ =? _)%nat];
    (split; [intros Heq; contradiction | intros [Hf | Hf]; discriminate Hf]).
Qed.

Lemma cache_moves_on_authenticated_only_witness :
  let '(st', o) :=
    Secoc.handle_connection (H := Sample.primitives) Sample.secoc_conn Sample.idle
      Secoc.initial_state in
  (st' = Secoc.initial_state <-> Secoc.authenticated o = false \/ o = Secoc.ReplayDetected).
Proof.
  apply (cache_moves_on_authenticated_only (P := Sample.primitives) Sample.secoc_conn
           Sample.idle Secoc.initial_state).
  exact secoc_initial_consistent.
Defined.

(** X8. The tag check of the SECOC receiver, for a fresh message of at
    least 56 bytes that arrived whole: the message authenticates exactly
    when the received tag, whatever its length, is the HMAC-SHA-256 of
    the message cut to that length; any other tag ends in an HMAC
    mismatch that leaves the state untouched. *)
Theorem tag_check_exact {P : Primitives} (message tag wire : list byte)
    (conn : Wire.socket) (env : Secoc.environment) (st : Secoc.replay_state) :
  Secoc.send_envelope message tag = inr wire ->
  Wire.delivers conn wire ->
  (56 <= length message)%nat ->
  Secoc.fresh (Secoc.now env) message ->
  (Secoc.authenticated (snd (Secoc.handle_connection conn env st)) = true
   <-> tag = take (length tag) (hmac_sha256_digest Secoc.SECRET_KEY message))
  /\ (tag <> take (length tag) (hmac_sha256_digest Secoc.SECRET_KEY message) ->
      Secoc.handle_connection conn env st = (st, Secoc.HmacMismatch)).
Proof.
  intros Hsend Hd Hlen [Hage Hfut].
  assert (Hm : Z.of_nat (length message) <= 65535).
  { destruct (Z_le_gt_dec (Z.of_nat (length message)) 65535) as [? | Hbig]; [assumption |].
    unfold Secoc.send_envelope in Hsend.
    rewrite frame_field_overflow in Hsend by lia. discriminate. }
  assert (Ht : Z.of_nat (length tag) <= 65535).
  { destruct (Z_le_gt_dec (Z.of_nat (length tag)) 65535) as [? | Hbig]; [assumption |].
    unfold Secoc.send_envelope in Hsend.
    destruct (Wire.frame_field message); [discriminate |].
    rewrite frame_field_overflow in Hsend by lia. discriminate. }
  rewrite (handle_connection_delivered message tag wire conn env st Hm Ht Hsend Hd).
  unfold Secoc.check_envelope.
  destruct (length message <? 56)%nat eqn:E; [apply Nat.ltb_lt in E; lia |].
  rewrite unpack_Q_last8 by lia.
  destruct (Secoc.FRESHNESS_MAX_AGE <? _) eqn:E1; [apply Z.ltb_lt in E1; lia |].
  destruct (Secoc.FRESHNESS_FUTURE_TOL <? _) eqn:E2; [apply Z.ltb_lt in E2; lia |].
  assert (Hsplit : Wire.all_but_last8 message ++ Wire.last8 message = message)
    by apply take_drop.
  rewrite Hsplit.
  destruct (decide (take (length tag) (hmac_sha256_digest Secoc.SECRET_KEY message) <> tag))
    as [Hbad | Hgood].
  - split; [| reflexivity]. cbn. split; [discriminate | intros Heq; symmetry in Heq; contradiction].
  - assert (Heq : tag = take (length tag) (hmac_sha256_digest Secoc.SECRET_KEY message)).
    { destruct (decide (tag = take (length tag)
                               (hmac_sha256_digest Secoc.SECRET_KEY message)));
        [assumption |]. exfalso. apply Hgood. congruence. }
    split; [| intros Hne; contradiction].
    split; [intros _; exact Heq | intros _].
    repeat (match goal with
            | |- context [decide ?X] => destruct (decide X)
            | |- context [Secoc.record_replay ?h ?s] =>
                destruct (Secoc.record_replay h s) as [[? | ? |] ?]
            | |- context [Secoc.compute_drop_prob ?c] =>
                destruct (Secoc.compute_drop_prob c)
            | |- context [Qlt_le_dec ?a ?b] => destruct (Qlt_le_dec a b)
            | |- context [(?a =? ?b)%nat] => destruct (a =? b)%nat
            end; cbn); reflexivity.
Qed.

Lemma tag_check_exact_witness :
  Secoc.handle_connection (H := Sample.primitives)
    [Wire.Data (Sample.bytes_of (Secoc.send_envelope Sample.message [Byte.xff]))]
    Sample.idle Secoc.initial_state
  = (Secoc.initial_state, Secoc.HmacMismatch).
Proof.
  destruct (tag_check_exact (P := Sample.primitives) Sample.message [Byte.xff]
              (Sample.bytes_of (Secoc.send_envelope Sample.message [Byte.xff]))
              [Wire.Data (Sample.bytes_of (Secoc.send_envelope Sample.message [Byte.xff]))]
              Sample.idle Secoc.initial_state) as [_ Hbad].
  - vm_compute. reflexivity.
  - apply delivers_whole. vm_compute. discriminate.
  - vm_compute. lia.
  - vm_compute. split; intros E; discriminate E.
  - apply Hbad. vm_compute. discriminate.
Defined.

Lemma py_min_cap (a b : Q) : (Secoc.py_min a b <= a)%Q.
Proof.
  unfold Secoc.py_min. destruct (Qlt_le_dec b a); [now apply Qlt_le_weak | apply Qle_refl].
Qed.

(** X9. The overload gate of the SECOC receiver never drops more than its
    cap allows: a valid, fresh, new envelope whose random draw is 0.85 or
    more is accepted at any CPU percentage, and when the CPU meter raises
    (the reading falls back to 0) every such envelope with a non-negative
    draw is accepted. *)
Theorem overload_gate_cap {P : Primitives} (message tag wire : list byte)
    (conn : Wire.socket) (env : Secoc.environment) (st : Secoc.replay_state) :
  Secoc.valid_envelope message tag ->
  Secoc.send_envelope message tag = inr wire ->
  Wire.delivers conn wire ->
  Secoc.fresh (Secoc.now env) message ->
  Secoc.fingerprint message tag ∉ Secoc.REPLAY_SET st ->
  Secoc.consistent st ->
  (85 # 100 <= Secoc.random_draw env)%Q
  \/ (Secoc.cpu_percent env = None /\ (0 <= Secoc.random_draw env)%Q) ->
  snd (Secoc.handle_connection conn env st)
  = Secoc.ValidMessage (Secoc.now env - Wire.int_from_bytes_big (Wire.last8 message)).
Proof.
  intros (Hlen & Htl & Htag) Hsend Hd Hfresh Hnew Hst Hdraw.
  assert (Hm : Z.of_nat (length message) <= 65535) by lia.
  rewrite (handle_connection_delivered message tag wire conn env st Hm Htl Hsend Hd).
  pose proof (check_envelope_new message tag (length tag) env st Hlen Hfresh
                (eq_sym Htag) Hnew Hst) as Hrun.
  cbv zeta in Hrun.
  destruct (Secoc.compute_drop_prob (Secoc.cpu_percent env)) as [prob cpu] eqn:Eprob.
  destruct Hrun as [_ ->]. cbn [snd].
  destruct (Qlt_le_dec (Secoc.random_draw env) prob) as [Hlt | _]; [| reflexivity].
  exfalso. unfold Secoc.compute_drop_prob in Eprob. injection Eprob as <- <-.
  destruct Hdraw as [Hcap | [Hnone Hpos]].
  - apply (Qlt_not_le _ _ Hlt).
    eapply Qle_trans; [apply py_min_cap | exact Hcap].
  - rewrite Hnone in Hlt.
    assert (Hzero : (Secoc.py_min Secoc.MAX_DROP_PROB (0 / Secoc.CPU_SCALE) == 0)%Q)
      by reflexivity.
    rewrite Hzero in Hlt. apply (Qlt_not_le _ _ Hlt Hpos).
Qed.

Lemma overload_gate_cap_witness :
  snd (Secoc.handle_connection (H := Sample.primitives) Sample.secoc_conn
         {| Secoc.now := 1001; Secoc.cpu_percent := Some (400 # 1)%Q;
            Secoc.random_draw := (9 # 10)%Q |}
         Secoc.initial_state)
  = Secoc.ValidMessage (1001 - Wire.int_from_bytes_big (Wire.last8 Sample.message)).
Proof.
  apply (overload_gate_cap (P := Sample.primitives) Sample.message Sample.tag
           (Sample.bytes_of (Secoc.send_envelope Sample.message Sample.tag))).
  - split; [reflexivity | split; [vm_compute; discriminate | vm_compute; reflexivity]].
  - vm_compute. reflexivity.
  - exact sample_secoc_delivers.
  - vm_compute. split; intros E; discriminate E.
  - cbn. apply not_elem_of_empty.
  - exact secoc_initial_consistent.
  - left. vm_compute. discriminate.
Defined.

(** ** The telemetry record: packing and unpacking *)

Lemma to_bytes_big_length (n : nat) (v : Z) : length (Codec.to_bytes_big n v) = n.
Proof.
  revert v. induction n as [| n IH]; intros v; cbn; [reflexivity |].
  rewrite length_app, IH. cbn. lia.
Qed.

Lemma int_from_bytes_big_snoc (raw : list byte) (b : byte) :
  Wire.int_from_bytes_big (raw ++ [b])
  = Wire.int_from_bytes_big raw * 256 + Z.of_N (Byte.to_N b).
Proof. unfold Wire.int_from_bytes_big. now rewrite fold_left_app. Qed.

Lemma int_from_bytes_big_range (raw : list byte) :
  0 <= Wire.int_from_bytes_big raw < 256 ^ Z.of_nat (length raw).
Proof.
  induction raw as [| b raw IH] using rev_ind; [cbn; lia |].
  rewrite int_from_bytes_big_snoc, length_app. cbn [length].
  replace (Z.of_nat (length raw + 1)) with (Z.succ (Z.of_nat (length raw))) by lia.
  rewrite Z.pow_succ_r by lia. pose proof (byte_value_range b). lia.
Qed.

(** Decoding undoes encoding, for a value that fits. *)
Lemma int_from_to_bytes_big (n : nat) (v : Z) :
  0 <= v < 256 ^ Z.of_nat n -> Wire.int_from_bytes_big (Codec.to_bytes_big n v) = v.
Proof.
  revert v. induction n as [| n IH]; intros v Hv.
  - cbn in *. lia.
  - cbn [Codec.to_bytes_big]. rewrite int_from_bytes_big_snoc.
    replace (Z.of_nat (S n)) with (Z.succ (Z.of_nat n)) in Hv by lia.
    rewrite Z.pow_succ_r in Hv by lia.
    rewrite IH.
    + rewrite byte_of_Z_value by (apply Z.mod_pos_bound; lia).
      pose proof (Z.div_mod v 256). lia.
    + split; [apply Z.div_pos; lia | apply Z.div_lt_upper_bound; lia].
Qed.

(** Encoding undoes decoding, at the field's own width. *)
Lemma to_bytes_big_int_from (raw : list byte) :
  Codec.to_bytes_big (length raw) (Wire.int_from_bytes_big raw) = raw.
Proof.
  induction raw as [| b raw IH] using rev_ind; [reflexivity |].
  rewrite length_app. cbn [length]. replace (length raw + 1)%nat with (S (length raw)) by lia.
  cbn [Codec.to_bytes_big]. rewrite int_from_bytes_big_snoc.
  pose proof (byte_value_range b) as Hb.
  replace ((Wire.int_from_bytes_big raw * 256 + Z.of_N (Byte.to_N b)) / 256)
    with (Wire.int_from_bytes_big raw)
    by (apply (Z.div_unique _ 256 _ (Z.of_N (Byte.to_N b))); lia).
  replace ((Wire.int_from_bytes_big raw * 256 + Z.of_N (Byte.to_N b)) mod 256)
    with (Z.of_N (Byte.to_N b))
    by (apply (Z.mod_unique _ 256 (Wire.int_from_bytes_big raw)); lia).
  now rewrite IH, byte_of_Z_of_byte.
Qed.

Lemma pack_unsigned_inv (n : nat) (v : Z) (field : list byte) :
  Codec.pack_unsigned n v = Some field ->
  0 <= v < 256 ^ Z.of_nat n /\ length field = n /\ Codec.unpack_unsigned field = v.
Proof.
  unfold Codec.pack_unsigned. intros Hp.
  destruct (0 <=? v) eqn:E1; [| discriminate].
  destruct (v <? 256 ^ Z.of_nat n) eqn:E2; [| discriminate].
  apply Z.leb_le in E1. apply Z.ltb_lt in E2. cbn in Hp. injection Hp as <-.
  split; [lia |]. split; [apply to_bytes_big_length |].
  apply int_from_to_bytes_big. lia.
Qed.

Lemma pack_unsigned_defined (n : nat) (v : Z) :
  0 <= v < 256 ^ Z.of_nat n -> Codec.pack_unsigned n v = Some (Codec.to_bytes_big n v).
Proof.
  intros Hv. unfold Codec.pack_unsigned.
  destruct (0 <=? v) eqn:E1; [| apply Z.leb_gt in E1; lia].
  destruct (v <? 256 ^ Z.of_nat n) eqn:E2; [| apply Z.ltb_ge in E2; lia].
  reflexivity.
Qed.

Lemma pack_signed_inv (n : nat) (v : Z) (field : list byte) :
  Codec.pack_signed n v = Some field ->
  - (256 ^ Z.of_nat n / 2) <= v < 256 ^ Z.of_nat n / 2
  /\ length field = n /\ Codec.unpack_signed field = v.
Proof.
  unfold Codec.pack_signed. cbv zeta. intros Hp.
  set (m := 256 ^ Z.of_nat n) in *.
  assert (Hm : 0 < m) by (apply Z.pow_pos_nonneg; lia).
  destruct (- (m / 2) <=? v) eqn:E1; [| discriminate].
  destruct (v <? m / 2) eqn:E2; [| discriminate].
  apply Z.leb_le in E1. apply Z.ltb_lt in E2. cbn in Hp. injection Hp as <-.
  split; [lia |]. split; [apply to_bytes_big_length |].
  unfold Codec.unpack_signed. cbv zeta. rewrite to_bytes_big_length. fold m.
  rewrite int_from_to_bytes_big by (apply Z.mod_pos_bound; exact Hm).
  pose proof (Z.div_mod m 2) as Hhalf. pose proof (Z.mod_pos_bound m 2) as Hpar.
  destruct (Z_lt_le_dec v 0) as [Hneg | Hpos].
  - assert (Hmod : v mod m = v + m)
      by (symmetry; apply (Z.mod_unique v m (-1)); lia).
    rewrite Hmod. destruct (v + m <? m / 2) eqn:E3; [apply Z.ltb_lt in E3; lia | lia].
  - rewrite Z.mod_small by lia.
    destruct (v <? m / 2) eqn:E3; [reflexivity | apply Z.ltb_ge in E3; lia].
Qed.

Lemma pack_signed_defined (n : nat) (v : Z) :
  - (256 ^ Z.of_nat n / 2) <= v < 256 ^ Z.of_nat n / 2 ->
  exists field, Codec.pack_signed n v = Some field.
Proof.
  intros Hv. unfold Codec.pack_signed. cbv zeta.
  destruct (_ <=? v) eqn:E1; [| apply Z.leb_gt in E1; lia].
  destruct (v <? _) eqn:E2; [| apply Z.ltb_ge in E2; lia].
  cbn. eauto.
Qed.

(** Packing a signed field undoes unpacking it (two-byte fields). *)
Lemma pack_signed_unpack (field : list byte) :
  length field = 2%nat ->
  -32768 <= Codec.unpack_signed field < 32768
  /\ Codec.pack_signed 2 (Codec.unpack_signed field) = Some field.
Proof.
  intros Hlen. pose proof (int_from_bytes_big_range field) as Hu.
  pose proof (to_bytes_big_int_from field) as Hback.
  rewrite Hlen in Hu, Hback. change (256 ^ Z.of_nat 2) with 65536 in Hu.
  unfold Codec.unpack_signed, Codec.pack_signed. cbv zeta. rewrite Hlen.
  change (256 ^ Z.of_nat 2) with 65536. change (65536 / 2) with 32768.
  set (u := Wire.int_from_bytes_big field) in *.
  destruct (u <? 32768) eqn:E; cbv beta iota;
    [apply Z.ltb_lt in E | apply Z.ltb_ge in E].
  - split; [lia |]. rewrite (proj2 (Z.ltb_lt _ _) E).
    destruct (_ <=? u) eqn:E1; [| apply Z.leb_gt in E1; lia].
    cbn [andb]. rewrite Z.mod_small by lia. now rewrite Hback.
  - split; [lia |].
    destruct (_ <=? u - 65536) eqn:E1; [| apply Z.leb_gt in E1; lia].
    destruct (u - 65536 <? 32768) eqn:E2; [| apply Z.ltb_ge in E2; lia].
    cbn [andb]. replace ((u - 65536) mod 65536) with u
      by (apply (Z.mod_unique _ 65536 (-1)); lia).
    now rewrite Hback.
Qed.

Lemma pack_unsigned_unpack (field : list byte) :
  0 <= Codec.unpack_unsigned field < 256 ^ Z.of_nat (length field)
  /\ Codec.pack_unsigned (length field) (Codec.unpack_unsigned field) = Some field.
Proof.
  pose proof (int_from_bytes_big_range field) as Hu. split; [exact Hu |].
  unfold Codec.unpack_unsigned. rewrite pack_unsigned_defined by exact Hu.
  now rewrite to_bytes_big_int_from.
Qed.

Lemma of_image_image (x : Codec.binary32) : Codec.of_image (Codec.image x) = Some x.
Proof. now destruct x. Qed.

Lemma image_of_image (field : list byte) (x : Codec.binary32) :
  Codec.of_image field = Some x -> Codec.image x = field.
Proof.
  destruct field as [| b0 [| b1 [| b2 [| b3 [| b4 field]]]]]; try discriminate.
  intros [= <-]. reflexivity.
Qed.

Lemma of_image_defined (field : list byte) :
  length field = 4%nat -> exists x, Codec.of_image field = Some x.
Proof.
  destruct field as [| b0 [| b1 [| b2 [| b3 [| b4 field]]]]]; try discriminate.
  intros _. cbn. eauto.
Qed.

Lemma pack_inv (t : Codec.telemetry) (payload : list byte) :
  Codec.pack t = Some payload ->
  exists s r c a f b,
    Codec.pack_unsigned 2 (Codec.speed t) = Some s
    /\ Codec.pack_unsigned 4 (Codec.rpm t) = Some r
    /\ Codec.pack_signed 2 (Codec.temperature t) = Some c
    /\ Codec.pack_signed 2 (Codec.steering_angle t) = Some a
    /\ Codec.pack_unsigned 1 (Codec.fuel_level t) = Some f
    /\ Codec.pack_unsigned 2 (Codec.brake_pressure t) = Some b
    /\ payload = s ++ r ++ c ++ a ++ f ++ b ++ Codec.image (Codec.gps_lat t)
                   ++ Codec.image (Codec.gps_lon t) ++ repeat Byte.x00 27.
Proof.
  unfold Codec.pack. intros Hp.
  destruct (Codec.pack_unsigned 2 (Codec.speed t)) as [s |]; [| discriminate].
  destruct (Codec.pack_unsigned 4 (Codec.rpm t)) as [r |]; [| discriminate].
  destruct (Codec.pack_signed 2 (Codec.temperature t)) as [c |]; [| discriminate].
  destruct (Codec.pack_signed 2 (Codec.steering_angle t)) as [a |]; [| discriminate].
  destruct (Codec.pack_unsigned 1 (Codec.fuel_level t)) as [f |]; [| discriminate].
  destruct (Codec.pack_unsigned 2 (Codec.brake_pressure t)) as [b |]; [| discriminate].
  cbn in Hp. injection Hp as <-. exists s, r, c, a, f, b. repeat split; reflexivity.
Qed.

(** Unpacking a payload laid out field by field. *)
Lemma unpack_layout (s r c a f b lat lon pad : list byte) :
  length s = 2%nat -> length r = 4%nat -> length c = 2%nat -> length a = 2%nat ->
  length f = 1%nat -> length b = 2%nat -> length lat = 4%nat -> length lon = 4%nat ->
  length pad = 27%nat ->
  Codec.unpack (s ++ r ++ c ++ a ++ f ++ b ++ lat ++ lon ++ pad)
  = x ← Codec.of_image lat; y ← Codec.of_image lon;
    Some {| Codec.speed := Codec.unpack_unsigned s; Codec.rpm := Codec.unpack_unsigned r;
            Codec.temperature := Codec.unpack_signed c;
            Codec.steering_angle := Codec.unpack_signed a;
            Codec.fuel_level := Codec.unpack_unsigned f;
            Codec.brake_pressure := Codec.unpack_unsigned b;
            Codec.gps_lat := x; Codec.gps_lon := y |}.
Proof.
  intros Hs Hr Hc Ha Hf Hb Hlat Hlon Hpad. unfold Codec.unpack.
  replace (length (s ++ r ++ c ++ a ++ f ++ b ++ lat ++ lon ++ pad)) with Secoc.PAYLOAD_SIZE
    by (rewrite !length_app, Hs, Hr, Hc, Ha, Hf, Hb, Hlat, Hlon, Hpad; reflexivity).
  rewrite Nat.eqb_refl. cbv zeta.
  rewrite (take_app_length' s), (drop_app_length' s) by (symmetry; exact Hs).
  rewrite (take_app_length' r), (drop_app_length' r) by (symmetry; exact Hr).
  rewrite (take_app_length' c), (drop_app_length' c) by (symmetry; exact Hc).
  rewrite (take_app_length' a), (drop_app_length' a) by (symmetry; exact Ha).
  rewrite (take_app_length' f), (drop_app_length' f) by (symmetry; exact Hf).
  rewrite (take_app_length' b), (drop_app_length' b) by (symmetry; exact Hb).
  rewrite (take_app_length' lat), (drop_app_length' lat) by (symmetry; exact Hlat).
  rewrite (take_app_length' lon) by (symmetry; exact Hlon).
  reflexivity.
Qed.

(** A list cut at the field boundaries of the format. *)
Lemma payload_layout (payload : list byte) :
  length payload = 48%nat ->
  exists s r c a f b lat lon pad,
    payload = s ++ r ++ c ++ a ++ f ++ b ++ lat ++ lon ++ pad
    /\ length s = 2%nat /\ length r = 4%nat /\ length c = 2%nat /\ length a = 2%nat
    /\ length f = 1%nat /\ length b = 2%nat /\ length lat = 4%nat /\ length lon = 4%nat
    /\ length pad = 27%nat
    /\ take 21 payload = s ++ r ++ c ++ a ++ f ++ b ++ lat ++ lon.
Proof.
  intros Hlen.
  do 48 (destruct payload as [| ? payload]; [discriminate Hlen |]).
  destruct payload; [| discriminate Hlen].
  eexists [_; _], [_; _; _; _], [_; _], [_; _], [_], [_; _], [_; _; _; _], [_; _; _; _], _.
  cbn. repeat split; reflexivity.
Qed.

Ltac field_bounds :=
  change (256 ^ Z.of_nat 1) with 256 in *;
  change (256 ^ Z.of_nat 2) with 65536 in *;
  change (256 ^ Z.of_nat 4) with 4294967296 in *;
  change (256 ^ Z.of_nat 8) with 18446744073709551616 in *;
  change (65536 / 2) with 32768 in *.

Lemma pack_defined (t : Codec.telemetry) :
  Codec.packable t <-> exists payload, Codec.pack t = Some payload.
Proof.
  split.
  - intros (Hs & Hr & Hc & Ha & Hf & Hb). unfold Codec.pack.
    rewrite (pack_unsigned_defined 2 (Codec.speed t)),
      (pack_unsigned_defined 4 (Codec.rpm t)),
      (pack_unsigned_defined 1 (Codec.fuel_level t)),
      (pack_unsigned_defined 2 (Codec.brake_pressure t)) by (field_bounds; lia).
    destruct (pack_signed_defined 2 (Codec.temperature t)) as [c Ec]; [field_bounds; lia |].
    destruct (pack_signed_defined 2 (Codec.steering_angle t)) as [a Ea]; [field_bounds; lia |].
    rewrite Ec, Ea. cbn [mbind option_bind]. eauto.
  - intros [payload Hp].
    destruct (pack_inv _ _ Hp) as (s & r & c & a & f & b & Hs & Hr & Hc & Ha & Hf & Hb & _).
    apply pack_unsigned_inv in Hs, Hr, Hf, Hb. apply pack_signed_inv in Hc, Ha.
    field_bounds. unfold Codec.packable. lia.
Qed.

Lemma pack_then_unpack (t : Codec.telemetry) (payload : list byte) :
  Codec.pack t = Some payload ->
  length payload = Secoc.PAYLOAD_SIZE /\ Codec.unpack payload = Some t.
Proof.
  intros Hp.
  destruct (pack_inv _ _ Hp) as (s & r & c & a & f & b & Hs & Hr & Hc & Ha & Hf & Hb & ->).
  apply pack_unsigned_inv in Hs as (_ & Ls & Vs), Hr as (_ & Lr & Vr),
    Hf as (_ & Lf & Vf), Hb as (_ & Lb & Vb).
  apply pack_signed_inv in Hc as (_ & Lc & Vc), Ha as (_ & La & Va).
  split.
  - rewrite !length_app, Ls, Lr, Lc, La, Lf, Lb. reflexivity.
  - rewrite unpack_layout by (assumption || reflexivity).
    rewrite !of_image_image. cbn. rewrite Vs, Vr, Vc, Va, Vf, Vb. now destruct t.
Qed.



Lemma unpack_then_pack (payload : list byte) :
  length payload = Secoc.PAYLOAD_SIZE ->
  exists t, Codec.unpack payload = Some t /\ Codec.packable t
            /\ Codec.pack t = Some (take 21 payload ++ repeat Byte.x00 27).
Proof.
  intros Hlen.
  destruct (payload_layout payload Hlen)
    as (s & r & c & a & f & b & lat & lon & pad & -> & Hs & Hr & Hc & Ha & Hf & Hb
        & Hlat & Hlon & Hpad & ->).
  rewrite unpack_layout by assumption.
  destruct (of_image_defined lat Hlat) as [x Hx].
  destruct (of_image_defined lon Hlon) as [y Hy].
  rewrite Hx, Hy. cbn. eexists. split; [reflexivity |].
  destruct (pack_unsigned_unpack s) as [Rs Ps], (pack_unsigned_unpack r) as [Rr Pr],
    (pack_unsigned_unpack f) as [Rf Pf], (pack_unsigned_unpack b) as [Rb Pb].
  destruct (pack_signed_unpack c Hc) as [Rc Pc], (pack_signed_unpack a Ha) as [Ra Pa].
  rewrite Hs in Rs, Ps. rewrite Hr in Rr, Pr. rewrite Hf in Rf, Pf. rewrite Hb in Rb, Pb.
  field_bounds.
  split; [unfold Codec.packable; cbn [Codec.speed Codec.rpm Codec.temperature
    Codec.steering_angle Codec.fuel_level Codec.brake_pressure]; lia |].
  unfold Codec.pack. cbn [Codec.speed Codec.rpm Codec.temperature Codec.steering_angle
    Codec.fuel_level Codec.brake_pressure Codec.gps_lat Codec.gps_lon].
  rewrite Ps, Pr, Pc, Pa, Pf, Pb. cbn [mbind option_bind].
  rewrite (image_of_image _ _ Hx), (image_of_image _ _ Hy).
  now rewrite <- !app_assoc.
Qed.



(** ** From the SECOC sender to the receiver *)

Lemma build_message_inv (t : Codec.telemetry) (time : Z) (message : list byte) :
  Codec.build_message t time = Some message ->
  0 <= time < 2 ^ 64
  /\ length message = 56%nat
  /\ Codec.pack t = Some (Wire.all_but_last8 message)
  /\ Wire.int_from_bytes_big (Wire.last8 message) = time.
Proof.
  unfold Codec.build_message. intros Hb.
  destruct (Codec.pack t) as [payload |] eqn:Hp; [| discriminate].
  destruct (Codec.pack_unsigned 8 time) as [freshness |] eqn:Hf; [| discriminate].
  cbn in Hb. injection Hb as <-.
  destruct (pack_then_unpack t _ Hp) as [Hlen _].
  change Secoc.PAYLOAD_SIZE with 48%nat in Hlen.
  apply pack_unsigned_inv in Hf as (Hrange & Hlf & Hval).
  unfold Wire.all_but_last8, Wire.last8. rewrite length_app, Hlen, Hlf.
  change (48 + 8 - 8)%nat with 48%nat.
  rewrite take_app_length', drop_app_length' by (symmetry; exact Hlen).
  field_bounds. change (2 ^ 64) with 18446744073709551616. tauto.
Qed.

Lemma sender_tag_length {P : Primitives} (message : list byte) :
  Z.of_nat (length (Secoc.sender_tag message)) <= 65535
  /\ take (length (Secoc.sender_tag message))
       (hmac_sha256_digest Secoc.SECRET_KEY message) = Secoc.sender_tag message.
Proof.
  unfold Secoc.sender_tag, Secoc.TAG_LEN. rewrite length_take. split; [lia |].
  destruct (Nat.le_gt_cases 8 (length (hmac_sha256_digest Secoc.SECRET_KEY message)))
    as [Hle | Hgt].
  - now rewrite Nat.min_l by exact Hle.
  - rewrite Nat.min_r by lia. rewrite !take_ge by lia. reflexivity.
Qed.

(** X12. From the SECOC sender to the receiver.  For telemetry in the
    ranges [make_structured_payload] draws and a clock reading that fits
    64 bits, the sender's [main] packs a message and frames it on the
    wire; the receiver that is delivered these bytes never rejects them
    as malformed or forged.  What it does is decided by the two clocks,
    the replay cache and the overload gate alone: stale above five
    seconds of age, future above five seconds ahead, a replay when the
    fingerprint is cached, otherwise recorded and then dropped under load
    or accepted; and the accepted payload unpacks to the telemetry that
    was sent. *)
Theorem sender_to_receiver {P : Primitives} (t : Codec.telemetry) (time : Z) :
  Codec.generated t -> 0 <= time < 2 ^ 64 ->
  exists message wire,
    Codec.build_message t time = Some message
    /\ Codec.secoc_send t time = Some (inr wire)
    /\ Codec.unpack (Wire.all_but_last8 message) = Some t
    /\ forall (conn : Wire.socket) (env : Secoc.environment) (st : Secoc.replay_state),
         Wire.delivers conn wire -> Secoc.consistent st ->
         let age := Secoc.now env - time in
         let h := Secoc.fingerprint message (Secoc.sender_tag message) in
         Secoc.handle_connection conn env st
         = if Secoc.FRESHNESS_MAX_AGE <? age then (st, Secoc.StaleDropped age)
           else if Secoc.FRESHNESS_FUTURE_TOL <? time - Secoc.now env
                then (st, Secoc.FutureDropped (time - Secoc.now env))
           else if decide (h ∈ Secoc.REPLAY_SET st) then (st, Secoc.ReplayDetected)
           else
             let '(prob, cpu) := Secoc.compute_drop_prob (Secoc.cpu_percent env) in
             (snd (Secoc.record_replay h st),
              if Qlt_le_dec (Secoc.random_draw env) prob then Secoc.OverloadDrop cpu prob
              else Secoc.ValidMessage age).
Proof.
  intros Hgen Htime.
  assert (Hpackable : Codec.packable t)
    by (unfold Codec.generated, Codec.packable in *; lia).
  destruct (proj1 (pack_defined t) Hpackable) as [payload Hp].
  assert (Hbuild : Codec.build_message t time
                   = Some (payload ++ Codec.to_bytes_big 8 time)).
  { unfold Codec.build_message. rewrite Hp.
    rewrite pack_unsigned_defined
      by (field_bounds; change (2 ^ 64) with 18446744073709551616 in Htime; lia).
    reflexivity. }
  set (message := payload ++ Codec.to_bytes_big 8 time) in *.
  destruct (build_message_inv _ _ _ Hbuild) as (_ & Hlen & Hpay & Hts).
  destruct (sender_tag_length message) as [Htl Htag].
  destruct (send_envelope_secoc_defined message (Secoc.sender_tag message))
    as [wire Hwire]; [lia | exact Htl |].
  exists message, wire. split; [exact Hbuild |]. split.
  { unfold Codec.secoc_send. rewrite Hbuild. cbn [mbind option_bind]. now rewrite Hwire. }
  split; [exact (proj2 (pack_then_unpack t _ Hpay)) |].
  intros conn env st Hd Hst age h.
  rewrite (handle_connection_delivered message (Secoc.sender_tag message) wire)
    by (assumption || lia).
  destruct (Secoc.FRESHNESS_MAX_AGE <? age) eqn:E1.
  { unfold Secoc.check_envelope. rewrite Hlen. cbn [Nat.ltb Nat.leb].
    rewrite unpack_Q_last8 by lia. rewrite Hts. fold age. now rewrite E1. }
  destruct (Secoc.FRESHNESS_FUTURE_TOL <? time - Secoc.now env) eqn:E2.
  { unfold Secoc.check_envelope. rewrite Hlen. cbn [Nat.ltb Nat.leb].
    rewrite unpack_Q_last8 by lia. rewrite Hts. fold age. now rewrite E1, E2. }
  assert (Hfresh : Secoc.fresh (Secoc.now env) message).
  { unfold Secoc.fresh. cbv zeta. rewrite Hts.
    apply Z.ltb_ge in E1, E2. subst age. lia. }
  destruct (decide (h ∈ Secoc.REPLAY_SET st)) as [Hseen | Hnew].
  - now apply check_envelope_seen.
  - pose proof (check_envelope_new message (Secoc.sender_tag message)
                  (length (Secoc.sender_tag message)) env st Hlen Hfresh Htag Hnew Hst)
      as Hcheck.
    cbv zeta in Hcheck.
    destruct (Secoc.compute_drop_prob (Secoc.cpu_percent env)) as [prob cpu].
    destruct Hcheck as [_ ->]. rewrite Hts. reflexivity.
Qed.

Lemma sender_to_receiver_witness :
  exists message wire,
    Codec.build_message Cases.telemetry 1700000000 = Some message
    /\ Codec.secoc_send (H := Sample.primitives) Cases.telemetry 1700000000 = Some (inr wire)
    /\ Codec.unpack (Wire.all_but_last8 message) = Some Cases.telemetry
    /\ forall (conn : Wire.socket) (env : Secoc.environment) (st : Secoc.replay_state),
         Wire.delivers conn wire -> Secoc.consistent st ->
         let age := Secoc.now env - 1700000000 in
         let h := Secoc.fingerprint (H := Sample.primitives) message
                    (Secoc.sender_tag (H := Sample.primitives) message) in
         Secoc.handle_connection (H := Sample.primitives) conn env st
         = if Secoc.FRESHNESS_MAX_AGE <? age then (st, Secoc.StaleDropped age)
           else if Secoc.FRESHNESS_FUTURE_TOL <? 1700000000 - Secoc.now env
                then (st, Secoc.FutureDropped (1700000000 - Secoc.now env))
           else if decide (h ∈ Secoc.REPLAY_SET st) then (st, Secoc.ReplayDetected)
           else
             let '(prob, cpu) := Secoc.compute_drop_prob (Secoc.cpu_percent env) in
             (snd (Secoc.record_replay h st),
              if Qlt_le_dec (Secoc.random_draw env) prob then Secoc.OverloadDrop cpu prob
              else Secoc.ValidMessage age).
Proof.
  apply (sender_to_receiver (P := Sample.primitives) Cases.telemetry 1700000000).
  - unfold Codec.generated. cbn. lia.
  - lia.
Defined.

(** ** The PQC receiver: queue, cache and verification order *)

Lemma pqc_handle_connection_queue (conn : Wire.socket) (cpu random_draw : Q)
    (st : Pqc.state) :
  (length (Pqc.MSG_QUEUE st) <= Pqc.QUEUE_MAXSIZE)%nat ->
  let st' := fst (Pqc.handle_connection conn cpu random_draw st) in
  Pqc.SEEN_HASHES st' = Pqc.SEEN_HASHES st
  /\ (length (Pqc.MSG_QUEUE st') <= Pqc.QUEUE_MAXSIZE)%nat.
Proof.
  intros Hq. unfold Pqc.handle_connection.
  destruct (Pqc.read_envelope conn) as [[item | e |] conn']; cbn [fst]; try (split; [reflexivity | exact Hq]).
  destruct (Pqc.overloaded cpu random_draw); cbn [fst]; [split; [reflexivity | exact Hq] |].
  destruct (Pqc.QUEUE_MAXSIZE <=? length (Pqc.MSG_QUEUE st))%nat eqn:E; cbn [fst];
    [split; [reflexivity | exact Hq] |].
  apply Nat.leb_gt in E. cbn [Pqc.SEEN_HASHES Pqc.MSG_QUEUE]. split; [reflexivity |].
  rewrite length_app. cbn [length]. lia.
Qed.

Lemma pqc_worker_step_bounded {P : Primitives} {S : SetPop} (now : Z) (st : Pqc.state) :
  (length (Pqc.MSG_QUEUE st) <= Pqc.QUEUE_MAXSIZE)%nat ->
  (size (Pqc.SEEN_HASHES st) <= Pqc.MAX_HASHES)%nat ->
  let st' := fst (Pqc.worker_step now st) in
  (length (Pqc.MSG_QUEUE st') <= Pqc.QUEUE_MAXSIZE)%nat
  /\ (size (Pqc.SEEN_HASHES st') <= Pqc.MAX_HASHES)%nat.
Proof.
  intros Hq Hs. unfold Pqc.worker_step.
  destruct (Pqc.MSG_QUEUE st) as [| item queue'] eqn:E; cbn [fst].
  - rewrite E. split; [exact Hq | exact Hs].
  - pose proof (handle_message_bounded (Pqc.item_message item) (Pqc.item_signature item)
                  (Pqc.item_public_key item) now (Pqc.SEEN_HASHES st) Hs) as Hb.
    destruct (Pqc.handle_message _ _ _ now (Pqc.SEEN_HASHES st)) as [seen' v].
    cbn [fst Pqc.MSG_QUEUE Pqc.SEEN_HASHES length] in *.
    split; [lia | exact Hb].
Qed.


Lemma remember_below_capacity {S : SetPop} (msg_hash : string) (seen : gset string) :
  msg_hash ∉ seen -> (size seen < Pqc.MAX_HASHES)%nat ->
  Pqc.remember msg_hash seen = seen ∪ {[msg_hash]}.
Proof.
  intros Hnew Hsize. unfold Pqc.remember. cbv zeta.
  assert (Hs : size (seen ∪ {[msg_hash]}) = Datatypes.S (size seen)).
  { rewrite size_union by set_solver. rewrite size_singleton. lia. }
  rewrite Hs. destruct (Pqc.MAX_HASHES <? Datatypes.S (size seen))%nat eqn:E; [| reflexivity].
  apply Nat.ltb_lt in E. lia.
Qed.

Lemma pqc_handle_message_fresh {P : Primitives} {S : SetPop}
    (message signature public_key : list byte) (now : Z) (seen : gset string) :
  (8 <= length message)%nat ->
  Pqc.handle_message message signature public_key now seen
  = if Pqc.FRESHNESS_WINDOW <? Z.abs (now - Wire.int_from_bytes_big (Wire.last8 message))
    then (seen, Pqc.OutsideWindow)
    else if decide (Pqc.fingerprint message signature ∈ seen) then (seen, Pqc.Replayed)
    else (Pqc.remember (Pqc.fingerprint message signature) seen,
          PqcServer.verdict_of (dilithium2_verify message signature public_key)).
Proof.
  intros Hlen. unfold Pqc.handle_message. cbv zeta. rewrite unpack_Q_last8 by exact Hlen.
  destruct (Pqc.FRESHNESS_WINDOW <? _); [reflexivity |].
  fold (Pqc.fingerprint message signature).
  destruct (decide _); [reflexivity |].
  unfold PqcServer.verdict_of.
  destruct (dilithium2_verify message signature public_key) as [e | [|]]; reflexivity.
Qed.



(** X15. From the PQC sender to the receiver.  For telemetry in the ranges
    the sender draws and a clock reading that fits 64 bits, the sender
    builds a 56-byte message and frames it with a signature and a public
    key (each of at most 65535 bytes).  A receiver with an idle worker
    that is delivered these bytes never reports an incomplete read or a
    bad freshness field: the envelope is dropped before admission when
    the pre-admission test fires, is ignored when the two clocks differ
    by more than 30 seconds, is a replay when its fingerprint is cached,
    and otherwise is recorded and ends as the verifier decides. *)
Theorem pqc_sender_to_receiver {P : Primitives} {S : SetPop} (t : Codec.telemetry)
    (time : Z) (signature public_key : list byte) :
  Codec.generated t -> 0 <= time < 2 ^ 64 ->
  Z.of_nat (length signature) <= 65535 -> Z.of_nat (length public_key) <= 65535 ->
  exists message wire,
    Codec.build_message t time = Some message
    /\ Pqc.send_envelope message signature public_key = inr wire
    /\ forall (conn : Wire.socket) (cpu random_draw : Q) (now : Z) (seen : gset string),
         Wire.delivers conn wire ->
         let st := {| Pqc.SEEN_HASHES := seen; Pqc.MSG_QUEUE := [] |} in
         Pqc.receive conn cpu random_draw now st
         = if Pqc.overloaded cpu random_draw then (st, Pqc.NotAdmitted (Pqc.Drop cpu))
           else if Pqc.FRESHNESS_WINDOW <? Z.abs (now - time)
                then (st, Pqc.Processed Pqc.OutsideWindow)
           else if decide (Pqc.fingerprint message signature ∈ seen)
                then (st, Pqc.Processed Pqc.Replayed)
           else ({| Pqc.SEEN_HASHES := Pqc.remember (Pqc.fingerprint message signature) seen;
                    Pqc.MSG_QUEUE := [] |},
                 Pqc.Processed
                   (PqcServer.verdict_of (dilithium2_verify message signature public_key))).
Proof.
  intros Hgen Htime Hs Hk.
  assert (Hpackable : Codec.packable t)
    by (unfold Codec.generated, Codec.packable in *; lia).
  destruct (proj1 (pack_defined t) Hpackable) as [payload Hp].
  assert (Hbuild : Codec.build_message t time
                   = Some (payload ++ Codec.to_bytes_big 8 time)).
  { unfold Codec.build_message. rewrite Hp.
    rewrite pack_unsigned_defined
      by (field_bounds; change (2 ^ 64) with 18446744073709551616 in Htime; lia).
    reflexivity. }
  set (message := payload ++ Codec.to_bytes_big 8 time) in *.
  destruct (build_message_inv _ _ _ Hbuild) as (_ & Hlen & _ & Hts).
  assert (Hm : Z.of_nat (length message) <= 65535) by lia.
  destruct (send_envelope_pqc_defined message signature public_key Hm Hs Hk)
    as [wire Hwire].
  exists message, wire. split; [exact Hbuild |]. split; [exact Hwire |].
  intros conn cpu random_draw now seen Hd st.
  rewrite <- (app_nil_r wire) in Hwire.
  destruct (pqc_read_envelope_prefix _ _ _ _ _ _ _ Hm Hs Hk Hwire Hd stops_closed) as [Hok _].
  destruct (Hok eq_refl) as (conn' & Hread).
  unfold Pqc.receive, Pqc.handle_connection. rewrite Hread.
  destruct (Pqc.overloaded cpu random_draw); [reflexivity |].
  cbn -[Pqc.handle_message]. rewrite pqc_handle_message_fresh by lia. rewrite Hts.
  destruct (Pqc.FRESHNESS_WINDOW <? _); [reflexivity |].
  destruct (decide _); reflexivity.
Qed.

Lemma pqc_sender_to_receiver_witness :
  exists message wire,
    Codec.build_message Cases.telemetry 1700000000 = Some message
    /\ Pqc.send_envelope message Sample.signature Sample.public_key = inr wire
    /\ forall (conn : Wire.socket) (cpu random_draw : Q) (now : Z) (seen : gset string),
         Wire.delivers conn wire ->
         let st := {| Pqc.SEEN_HASHES := seen; Pqc.MSG_QUEUE := [] |} in
         Pqc.receive (H := Sample.primitives) (H0 := set_pop_first) conn cpu random_draw now st
         = if Pqc.overloaded cpu random_draw then (st, Pqc.NotAdmitted (Pqc.Drop cpu))
           else if Pqc.FRESHNESS_WINDOW <? Z.abs (now - 1700000000)
                then (st, Pqc.Processed Pqc.OutsideWindow)
           else if decide (Pqc.fingerprint (H := Sample.primitives) message Sample.signature
                             ∈ seen)
                then (st, Pqc.Processed Pqc.Replayed)
           else ({| Pqc.SEEN_HASHES :=
                      Pqc.remember (H := set_pop_first)
                        (Pqc.fingerprint (H := Sample.primitives) message Sample.signature)
                        seen;
                    Pqc.MSG_QUEUE := [] |},
                 Pqc.Processed
                   (PqcServer.verdict_of
                      (dilithium2_verify (Primitives := Sample.primitives) message
                         Sample.signature Sample.public_key))).
Proof.
  apply (pqc_sender_to_receiver (P := Sample.primitives) (S := set_pop_first)
           Cases.telemetry 1700000000 Sample.signature Sample.public_key).
  - unfold Codec.generated. cbn. lia.
  - lia.
  - vm_compute. discriminate.
  - vm_compute. discriminate.
Defined.

(** ** The simulator's report: counts and order *)

Lemma success_rate_bounds (succ total : Z) :
  0 <= succ <= total -> 0 < total ->
  let rate := (inject_Z succ / inject_Z total * (100 # 1))%Q in
  (0 <= rate)%Q /\ (rate <= 100 # 1)%Q /\ ((rate == 100 # 1)%Q <-> succ = total).
Proof.
  intros Hs Ht. destruct total as [| p | p]; try lia.
  cbv zeta. unfold Qle, Qeq, Qdiv, Qmult, Qinv, inject_Z.
  cbn [Qnum Qden Z.mul Pos.mul]. rewrite !Pos.mul_1_r. cbn [Qnum Qden].
  rewrite ?Pos2Z.inj_mul. split; [| split]; [nia | nia | split; nia].
Qed.

(** X16. The counts of the report.  For every list of Request Results,
    [summarize] reports its length as the total, counts each result either
    as a success or as a failure (whatever its latency or error field),
    gives no success rate exactly for the empty list, and otherwise a rate
    between 0 and 100 percent that is 100 exactly when nothing failed. *)
Theorem summarize_accounting (results : list Simulator.request_result) :
  let s := Simulator.summarize results in
  Simulator.total s = Z.of_nat (length results)
  /\ Simulator.successes s
     = Z.of_nat (length (filter (fun r => Simulator.success r = true) results))
  /\ Simulator.failures s
     = Z.of_nat (length (filter (fun r => Simulator.success r = false) results))
  /\ Simulator.successes s + Simulator.failures s = Simulator.total s
  /\ (Simulator.success_rate_pct s = None <-> results = [])
  /\ forall rate, Simulator.success_rate_pct s = Some rate ->
       (0 <= rate)%Q /\ (rate <= 100 # 1)%Q
       /\ ((rate == 100 # 1)%Q <-> Simulator.failures s = 0).
Proof.
  cbv zeta. unfold Simulator.summarize.
  cbn [Simulator.total Simulator.successes Simulator.failures Simulator.success_rate_pct].
  set (succ := length (filter (fun r => Simulator.success r = true) results)).
  set (fail := length (filter (fun r => Simulator.success r = false) results)).
  assert (Hsplit : (succ + fail = length results)%nat).
  { subst succ fail. induction results as [| r results IH]; [reflexivity |].
    rewrite !filter_cons. destruct (Simulator.success r);
      destruct (decide _) as [? | ?]; try discriminate; try contradiction;
      destruct (decide _) as [? | ?]; try discriminate; try contradiction;
      cbn [length]; lia. }
  split; [reflexivity |]. split; [reflexivity |]. split; [lia |]. split; [lia |].
  split.
  - destruct (0 <? Z.of_nat (length results)) eqn:E.
    + apply Z.ltb_lt in E. split; [discriminate |]. intros ->. cbn in E. lia.
    + apply Z.ltb_ge in E. split; [| reflexivity].
      intros _. destruct results; [reflexivity | cbn [length] in E; lia].
  - intros rate Hrate.
    destruct (0 <? Z.of_nat (length results)) eqn:E; [| discriminate].
    apply Z.ltb_lt in E. injection Hrate as <-.
    destruct (success_rate_bounds (Z.of_nat succ) (Z.of_nat (length results)))
      as (H0 & H100 & Hfull); [lia | exact E |].
    split; [exact H0 |]. split; [exact H100 |]. rewrite Hfull. lia.
Qed.

Lemma Qle_bool_compat (x y a b : Q) :
  (x == y)%Q -> (a == b)%Q -> Qle_bool x a = Qle_bool y b.
Proof.
  intros Hxy Hab. apply eq_true_iff_eq. rewrite !Qle_bool_iff. now rewrite Hxy, Hab.
Qed.

Lemma Forall2_Qeq_refl (l : list Q) : Forall2 Qeq l l.
Proof. induction l; constructor; [reflexivity | assumption]. Qed.

Lemma Forall2_Qeq_trans (l1 l2 l3 : list Q) :
  Forall2 Qeq l1 l2 -> Forall2 Qeq l2 l3 -> Forall2 Qeq l1 l3.
Proof.
  intros H12. revert l3. induction H12 as [| x y l1 l2 Hxy _ IH]; intros l3 H23.
  - exact H23.
  - inversion H23 as [| y' z l2' l3' Hyz Hrest]; subst.
    constructor; [now rewrite Hxy | now apply IH].
Qed.

Lemma insert_sorted_compat (x y : Q) (l l' : list Q) :
  (x == y)%Q -> Forall2 Qeq l l' ->
  Forall2 Qeq (Simulator.insert_sorted x l) (Simulator.insert_sorted y l').
Proof.
  intros Hxy Hl. induction Hl as [| a b l l' Hab Hl IH]; cbn [Simulator.insert_sorted].
  - constructor; [exact Hxy | constructor].
  - rewrite (Qle_bool_compat x y a b Hxy Hab).
    destruct (Qle_bool y b).
    + constructor; [exact Hxy |]. constructor; assumption.
    + constructor; assumption.
Qed.

Lemma insert_sorted_swap (x y : Q) (l : list Q) :
  Forall2 Qeq (Simulator.insert_sorted x (Simulator.insert_sorted y l))
    (Simulator.insert_sorted y (Simulator.insert_sorted x l)).
Proof.
  induction l as [| z l IH]; cbn [Simulator.insert_sorted].
  - destruct (Qle_bool x y) eqn:Exy, (Qle_bool y x) eqn:Eyx; cbn [Simulator.insert_sorted];
      rewrite ?Exy, ?Eyx; try apply Forall2_Qeq_refl.
    + apply Qle_bool_iff in Exy, Eyx.
      assert (Heq : (x == y)%Q) by now apply Qle_antisym.
      repeat constructor; [exact Heq | now symmetry].
    + exfalso. destruct (Qlt_le_dec y x) as [Hlt | Hle].
      * apply Qlt_le_weak in Hlt. apply Qle_bool_iff in Hlt. congruence.
      * apply Qle_bool_iff in Hle. congruence.
  - destruct (Qle_bool y z) eqn:Eyz, (Qle_bool x z) eqn:Exz; cbn [Simulator.insert_sorted].
    + destruct (Qle_bool x y) eqn:Exy, (Qle_bool y x) eqn:Eyx;
        rewrite ?Exz, ?Eyz; try apply Forall2_Qeq_refl.
      * apply Qle_bool_iff in Exy, Eyx.
        assert (Heq : (x == y)%Q) by now apply Qle_antisym.
        constructor; [exact Heq |]. constructor; [now symmetry | apply Forall2_Qeq_refl].
      * exfalso. destruct (Qlt_le_dec y x) as [Hlt | Hle].
        -- apply Qlt_le_weak in Hlt. apply Qle_bool_iff in Hlt. congruence.
        -- apply Qle_bool_iff in Hle. congruence.
    + assert (Exy : Qle_bool x y = false).
      { destruct (Qle_bool x y) eqn:E; [| reflexivity].
        apply Qle_bool_iff in E, Eyz.
        assert (Hxz : (x <= z)%Q) by (eapply Qle_trans; eassumption).
        apply Qle_bool_iff in Hxz. congruence. }
      rewrite Exy, Exz, Eyz. apply Forall2_Qeq_refl.
    + assert (Eyx : Qle_bool y x = false).
      { destruct (Qle_bool y x) eqn:E; [| reflexivity].
        apply Qle_bool_iff in E, Exz.
        assert (Hyz : (y <= z)%Q) by (eapply Qle_trans; eassumption).
        apply Qle_bool_iff in Hyz. congruence. }
      rewrite Eyx, Exz, Eyz. apply Forall2_Qeq_refl.
    + rewrite Exz, Eyz. constructor; [reflexivity | exact IH].
Qed.

(** Sorting two arrangements of the same data gives the same values in
    the same places. *)
Lemma sorted_Permutation (a b : list Q) :
  Permutation a b -> Forall2 Qeq (Simulator.sorted a) (Simulator.sorted b).
Proof.
  induction 1 as [| x a b _ IH | x y a | a b c _ IH1 _ IH2].
  - constructor.
  - cbn. apply insert_sorted_compat; [reflexivity | exact IH].
  - cbn. apply insert_sorted_swap.
  - eapply Forall2_Qeq_trans; eassumption.
Qed.

Lemma nth_Forall2_Qeq (l l' : list Q) (i : nat) :
  Forall2 Qeq l l' -> (nth i l 0 == nth i l' 0)%Q.
Proof.
  intros H. revert i. induction H as [| x y l l' Hxy _ IH]; intros [| i]; cbn;
    try reflexivity; [exact Hxy | apply IH].
Qed.

Lemma np_percentile_Permutation (a b : list Q) (q : Q) :
  Permutation a b -> (Simulator.np_percentile a q == Simulator.np_percentile b q)%Q.
Proof.
  intros Hperm. unfold Simulator.np_percentile. cbv zeta.
  rewrite (Permutation_length Hperm).
  pose proof (sorted_Permutation a b Hperm) as Hs.
  set (vi := (inject_Z (Z.of_nat (length b) - 1) * q / (100 # 1))%Q).
  rewrite (nth_Forall2_Qeq _ _ (Z.to_nat (Qfloor vi)) Hs).
  rewrite (nth_Forall2_Qeq _ _
             (Z.to_nat (Z.min (Qfloor vi + 1) (Z.of_nat (length b) - 1))) Hs).
  reflexivity.
Qed.

Lemma sum_Permutation (a b : list Q) :
  Permutation a b -> (fold_right Qplus 0 a == fold_right Qplus 0 b)%Q.
Proof.
  induction 1 as [| x a b _ IH | x y a | a b c _ IH1 _ IH2]; cbn.
  - reflexivity.
  - now rewrite IH.
  - ring.
  - now rewrite IH1.
Qed.

Lemma mean_Permutation (a b : list Q) :
  Permutation a b -> (Simulator.mean a == Simulator.mean b)%Q.
Proof.
  intros Hperm. unfold Simulator.mean.
  rewrite (Permutation_length Hperm), (sum_Permutation a b Hperm). reflexivity.
Qed.

(** X17. The report does not depend on the order in which the concurrent
    requests finished.  [LoadGen] appends each result when its task
    completes; whatever order that gives, [summarize] returns the same
    counts, the same success rate and the same latency percentiles and
    mean. *)
Theorem summarize_order_independent (results results' : list Simulator.request_result) :
  Permutation results results' ->
  Report.same_summary (Simulator.summarize results) (Simulator.summarize results').
Proof.
  intros Hperm. unfold Report.same_summary, Simulator.summarize.
  cbn [Simulator.total Simulator.successes Simulator.failures Simulator.success_rate_pct
       Simulator.lat_p50_ms Simulator.lat_p90_ms Simulator.lat_p99_ms Simulator.lat_mean_ms].
  rewrite !summarize_latencies.
  assert (Hlen : length results = length results') by now apply Permutation_length.
  assert (Hsucc : length (filter (fun r => Simulator.success r = true) results)
                  = length (filter (fun r => Simulator.success r = true) results'))
    by (apply Permutation_length; now apply filter_Permutation).
  assert (Hlat : Permutation (Simulator.successful_latencies results)
                   (Simulator.successful_latencies results')).
  { rewrite <- !summarize_latencies. apply Permutation_map.
    now apply filter_Permutation. }
  rewrite Hlen, Hsucc. split; [reflexivity |]. split; [reflexivity |].
  split; [reflexivity |]. split.
  { destruct (0 <? Z.of_nat (length results')); cbn; [reflexivity | exact I]. }
  destruct (Simulator.successful_latencies results) as [| x lat] eqn:E,
    (Simulator.successful_latencies results') as [| y lat'] eqn:E'.
  - cbn. tauto.
  - apply Permutation_nil in Hlat. discriminate.
  - symmetry in Hlat. apply Permutation_nil in Hlat. discriminate.
  - cbn [Report.same_number].
    repeat split; try (now apply np_percentile_Permutation); now apply mean_Permutation.
Qed.

Lemma summarize_order_independent_witness :
  Report.same_summary (Simulator.summarize Sample.attempts)
    (Simulator.summarize (rev Sample.attempts)).
Proof.
  apply (summarize_order_independent Sample.attempts (rev Sample.attempts)).
  apply Permutation_rev.
Defined.

(** ** Cleaning a summary for [json.dump] *)

Section PyobjInduction.
Import Cleaning.

Variable Q_ : pyobj -> Prop.
Hypothesis case_none : Q_ PNone.
Hypothesis case_bool : forall b, Q_ (PBool b).
Hypothesis case_num : forall q, Q_ (PNum q).
Hypothesis case_str : forall s, Q_ (PStr s).
Hypothesis case_bytes : forall b, Q_ (PBytes b).
Hypothesis case_list : forall items, Forall Q_ items -> Q_ (PList items).
Hypothesis case_tuple : forall items, Forall Q_ items -> Q_ (PTuple items).
Hypothesis case_dict :
  forall entries, Forall (fun kv => Q_ (snd kv)) entries -> Q_ (PDict entries).

(** Induction over a value and the values it contains. *)
Fixpoint pyobj_induction (obj : pyobj) : Q_ obj :=
  match obj with
  | PNone => case_none
  | PBool b => case_bool b
  | PNum q => case_num q
  | PStr s => case_str s
  | PBytes b => case_bytes b
  | PList items =>
      case_list items
        ((fix all (l : list pyobj) : Forall Q_ l :=
            match l with
            | [] => @List.Forall_nil _ Q_
            | x :: l' => @List.Forall_cons _ Q_ x l' (pyobj_induction x) (all l')
            end) items)
  | PTuple items =>
      case_tuple items
        ((fix all (l : list pyobj) : Forall Q_ l :=
            match l with
            | [] => @List.Forall_nil _ Q_
            | x :: l' => @List.Forall_cons _ Q_ x l' (pyobj_induction x) (all l')
            end) items)
  | PDict entries =>
      case_dict entries
        ((fix all (l : list (string * pyobj)) : Forall (fun kv => Q_ (snd kv)) l :=
            match l with
            | [] => @List.Forall_nil _ (fun kv => Q_ (snd kv))
            | kv :: l' =>
                @List.Forall_cons _ (fun kv => Q_ (snd kv)) kv l'
                  (pyobj_induction (snd kv)) (all l')
            end) entries)
  end.

End PyobjInduction.



(** ** Copying a PQC run folder *)

Lemma string_app_inv_head (p a b : string) : (p ++ a = p ++ b)%string -> a = b.
Proof.
  induction p as [| c p IH]; cbn; [auto |]. intros [= H]. now apply IH.
Qed.

Lemma path_join_inj (folder a b : string) :
  Py.path_join folder a = Py.path_join folder b -> a = b.
Proof.
  unfold Py.path_join. destruct (String.eqb folder ""); [auto |].
  destruct (Py.ends_with_slash folder); intros H.
  - now apply string_app_inv_head in H.
  - apply string_app_inv_head in H. now apply (string_app_inv_head "/") in H.
Qed.

Lemma copy_file_lookup (run_dir outdir name : string) (fs : gmap string (list byte)) (p : string) :
  Py.path_join run_dir name <> Py.path_join outdir name ->
  Copying.copy_file run_dir outdir name fs !! p
  = if decide (p = Py.path_join outdir name)
    then match fs !! Py.path_join run_dir name with
         | Some content => Some content
         | None => fs !! p
         end
    else fs !! p.
Proof.
  intros Hne. unfold Copying.copy_file. cbv zeta.
  destruct (fs !! Py.path_join run_dir name) as [content |] eqn:E.
  - assert (Hsrc : (<[Py.path_join outdir name := []]> fs)
                    !! Py.path_join run_dir name = Some content)
      by (rewrite lookup_insert_ne by congruence; exact E).
    rewrite Hsrc. cbn [default]. rewrite insert_insert_eq.
    destruct (decide (p = Py.path_join outdir name)) as [-> | Hp].
    + now rewrite lookup_insert_eq.
    + now rewrite lookup_insert_ne by congruence.
  - now destruct (decide _).
Qed.

Lemma copy_file_in_place (folder name : string) (fs : gmap string (list byte)) (p : string) :
  Copying.copy_file folder folder name fs !! p
  = if decide (p = Py.path_join folder name)
    then match fs !! p with Some _ => Some [] | None => None end
    else fs !! p.
Proof.
  unfold Copying.copy_file. cbv zeta.
  destruct (decide (p = Py.path_join folder name)) as [-> | Hp].
  - destruct (fs !! Py.path_join folder name) as [content |] eqn:E; [| exact E].
    rewrite lookup_insert_eq. cbn [default]. now rewrite lookup_insert_eq.
  - destruct (fs !! Py.path_join folder name); [| reflexivity].
    rewrite lookup_insert_ne by congruence. now rewrite lookup_insert_ne by congruence.
Qed.

Ltac in_list :=
  unfold Copying.NAMES; cbn [map];
  repeat first [apply list_elem_of_here | apply list_elem_of_further].

Lemma names_distinct (folder : string) :
  Py.path_join folder "summary.json" <> Py.path_join folder "requests.csv"
  /\ Py.path_join folder "summary.json" <> Py.path_join folder "system.csv"
  /\ Py.path_join folder "requests.csv" <> Py.path_join folder "system.csv".
Proof.
  repeat split; intros H; apply path_join_inj in H; discriminate H.
Qed.




(** ** The CAN normalizer: what is written, and the counts *)

(** The row loop writes the rows before the first timestamp that
    [datetime] cannot represent, and stops there with [ValueError]. *)
Lemma write_requests_prefix (rs : list Normalizer.bus_row) :
  exists n : nat,
    (n <= length rs)%nat
    /\ forallb Normalizer.convertible (take n rs) = true
    /\ map Normalizer.idx (fst (Normalizer.write_requests rs))
       = map Normalizer.frame_id (take n rs)
    /\ Forall Normalizer.placeholder (fst (Normalizer.write_requests rs))
    /\ match snd (Normalizer.write_requests rs) with
       | None => n = length rs
       | Some e =>
           e = ValueError
           /\ exists row, rs !! n = Some row /\ Normalizer.convertible row = false
       end.
Proof.
  induction rs as [| row rs (n & Hn & Hconv & Hidx & Hall & Hend)].
  - exists 0%nat. cbn. repeat split; constructor.
  - cbn [Normalizer.write_requests]. unfold Normalizer.request_row_of.
    destruct (Normalizer.timestamp row) as [t |] eqn:Et.
    + cbn [Py.utcfromtimestamp].
      destruct (Qle_bool Py.DATETIME_MIN t && negb (Qle_bool Py.DATETIME_END t)) eqn:Ec.
      * destruct (Normalizer.write_requests rs) as [written e].
        exists (S n). cbn [fst snd length take forallb map] in *.
        unfold Normalizer.convertible at 1. rewrite Et, Ec.
        split; [lia |]. split; [exact Hconv |]. split; [now rewrite Hidx |].
        split; [constructor; [repeat split | exact Hall] |].
        destruct e as [e |]; [exact Hend | now rewrite Hend].
      * exists 0%nat. cbn [fst snd length take forallb map].
        split; [lia |]. split; [reflexivity |]. split; [reflexivity |].
        split; [constructor |]. split; [reflexivity |].
        exists row. split; [reflexivity |]. unfold Normalizer.convertible. now rewrite Et.
    + destruct (Normalizer.write_requests rs) as [written e].
      exists (S n). cbn [fst snd length take forallb map] in *.
      unfold Normalizer.convertible at 1. rewrite Et.
      split; [lia |]. split; [exact Hconv |]. split; [now rewrite Hidx |].
      split; [constructor; [repeat split | exact Hall] |].
      destruct e as [e |]; [exact Hend | now rewrite Hend].
Qed.

Lemma normalize_can_system_csv (csv_path : string) (df : Normalizer.data_frame)
    (total_frames successes : option Z) :
  Normalizer.system_csv (Normalizer.normalize_can csv_path df total_frames successes)
  = Some (Normalizer.rename_timestamp df).
Proof.
  unfold Normalizer.normalize_can.
  destruct (last (Normalizer.rows df)); [| reflexivity].
  destruct successes; destruct (Normalizer.time_fields df) as [[start finish] duration];
    destruct (Normalizer.write_requests (Normalizer.rows df)); reflexivity.
Qed.



Lemma success_rate_full (succ total : Z) :
  0 < total ->
  let rate := (inject_Z succ / inject_Z total * (100 # 1))%Q in
  ((rate == 100 # 1)%Q <-> succ = total) /\ ((100 # 1 < rate)%Q <-> total < succ).
Proof.
  intros Ht. destruct total as [| p | p]; try lia.
  cbv zeta. unfold Qlt, Qeq, Qdiv, Qmult, Qinv, inject_Z.
  cbn [Qnum Qden Z.mul Pos.mul]. rewrite !Pos.mul_1_r. cbn [Qnum Qden].
  rewrite ?Pos2Z.inj_mul. split; split; nia.
Qed.



(** ** The analyzer on complete runs *)

Lemma basename_no_slash (path : string) : Py.has_slash (Py.basename path) = false.
Proof.
  induction path as [| c rest IH]; [reflexivity |].
  cbn [Py.basename]. destruct (Py.has_slash rest) eqn:Erest; [exact IH |].
  destruct (Py.is_slash c) eqn:Ec; [exact Erest |].
  cbn [Py.has_slash]. now rewrite Ec, Erest.
Qed.

(** X23. The analyzer on two complete runs.  When both run directories
    have a summary file, [main] returns normally after writing the
    comparison CSV and the bar chart, and the time-series chart exactly
    when both directories also have a system table.  The summaries
    compared are the files' entries without the nested objects (such as
    the configuration echo), in their order, and the two labels, taken
    from the last component of each path, contain no slash. *)
Theorem analyzer_complete_runs (fs : Analyzer.file_system) (prog pathA pathB : string)
    (summaryA summaryB : list (string * Analyzer.json)) :
  Analyzer.json_files fs !! Py.path_join pathA "summary.json" = Some summaryA ->
  Analyzer.json_files fs !! Py.path_join pathB "summary.json" = Some summaryB ->
  exists labelA sa labelB sb,
    Analyzer.main [prog; pathA; pathB] fs
    = (Analyzer.CompareSummaryCsv labelA sa labelB sb :: Analyzer.CompareBarsPng
         :: (if bool_decide
                  (is_Some (Analyzer.csv_files fs !! Py.path_join pathA "system.csv")
                   /\ is_Some (Analyzer.csv_files fs !! Py.path_join pathB "system.csv"))
             then [Analyzer.CompareTimeseriesPng] else []),
       Analyzer.Returned)
    /\ Py.has_slash labelA = false /\ Py.has_slash labelB = false
    /\ sa = filter (fun kv => Analyzer.is_dict (snd kv) = false) summaryA
    /\ sb = filter (fun kv => Analyzer.is_dict (snd kv) = false) summaryB
    /\ Forall (fun kv => Analyzer.is_dict (snd kv) = false) (sa ++ sb).
Proof.
  intros HA HB. unfold Analyzer.main, Analyzer.load_run. rewrite HA, HB.
  eexists _, _, _, _. split; [| split; [apply basename_no_slash |
    split; [apply basename_no_slash | split; [reflexivity | split; [reflexivity |]]]]].
  - f_equal. f_equal. f_equal. unfold Analyzer.plot_timeseries.
    destruct (Analyzer.csv_files fs !! Py.path_join pathA "system.csv") as [ta |],
      (Analyzer.csv_files fs !! Py.path_join pathB "system.csv") as [tb |].
    + rewrite bool_decide_eq_true_2 by (split; eauto). reflexivity.
    + rewrite bool_decide_eq_false_2; [reflexivity |]. intros [_ [x Hx]]. discriminate.
    + rewrite bool_decide_eq_false_2; [reflexivity |]. intros [[x Hx] _]. discriminate.
    + rewrite bool_decide_eq_false_2; [reflexivity |]. intros [[x Hx] _]. discriminate.
  - apply Forall_app. split; apply Forall_forall; intros kv Hkv;
      apply list_elem_of_filter in Hkv; tauto.
Qed.

Lemma analyzer_complete_runs_witness :
  exists labelA sa labelB sb,
    Analyzer.main ["analyze_runs.py"; "runs/pqc/"; "runs/pqc"]%string Sample.run_files
    = (Analyzer.CompareSummaryCsv labelA sa labelB sb :: Analyzer.CompareBarsPng
         :: (if bool_decide
                  (is_Some (Analyzer.csv_files Sample.run_files
                              !! Py.path_join "runs/pqc/" "system.csv")
                   /\ is_Some (Analyzer.csv_files Sample.run_files
                                 !! Py.path_join "runs/pqc" "system.csv"))
             then [Analyzer.CompareTimeseriesPng] else []),
       Analyzer.Returned)
    /\ Py.has_slash labelA = false /\ Py.has_slash labelB = false.
Proof.
  destruct (analyzer_complete_runs Sample.run_files "analyze_runs.py" "runs/pqc/" "runs/pqc"
              (default [] (Analyzer.json_files Sample.run_files
                             !! Py.path_join "runs/pqc/" "summary.json"))
              (default [] (Analyzer.json_files Sample.run_files
                             !! Py.path_join "runs/pqc" "summary.json")))
    as (labelA & sa & labelB & sb & Hmain & HlA & HlB & _).
  - vm_compute. reflexivity.
  - vm_compute. reflexivity.
  - exists labelA, sa, labelB, sb. auto.
Defined.

(** X24. The normalizer hides the timestamps from the analyzer.  The
    system table [normalize_can] writes has its [timestamp] column renamed
    to [ts], a name the analyzer's column search does not know: on such a
    table the x axis is never the timestamp; it is the [time] column if
    the CSV had one, else the frame id if the CSV had that column, else
    the row index. *)
Theorem normalized_table_time_column (csv_path : string) (df : Normalizer.data_frame)
    (total_frames successes : option Z) (table : Normalizer.data_frame) :
  Normalizer.system_csv (Normalizer.normalize_can csv_path df total_frames successes)
  = Some table ->
  Plots.get_time_column (Normalizer.columns table)
  = if bool_decide ("time"%string ∈ Normalizer.columns df) then Some "time"%string
    else if bool_decide ("frame_id"%string ∈ Normalizer.columns df)
         then Some "frame_id"%string
         else None.
Proof.
  intros Hout.
  assert (Htable : table = Normalizer.rename_timestamp df).
  { pose proof (normalize_can_system_csv csv_path df total_frames successes) as H.
    congruence. }
  subst table. unfold Normalizer.rename_timestamp. cbn [Normalizer.columns].
  set (renamed := map _ (Normalizer.columns df)).
  assert (Hmem : forall c : string,
            c <> "timestamp"%string -> c <> "ts"%string ->
            c ∈ renamed <-> c ∈ Normalizer.columns df).
  { intros c Hc1 Hc2. subst renamed. rewrite list_elem_of_fmap. split.
    - intros (x & -> & Hx). destruct (String.eqb x "timestamp") eqn:E; [congruence | exact Hx].
    - intros Hc. exists c. split; [| exact Hc].
      destruct (String.eqb c "timestamp") eqn:E; [| reflexivity].
      apply String.eqb_eq in E. contradiction. }
  assert (Hts : "timestamp"%string ∉ renamed).
  { subst renamed. rewrite list_elem_of_fmap. intros (x & Hx & _).
    revert Hx. destruct (String.eqb x "timestamp") eqn:E; intros Hx; [discriminate Hx |].
    apply String.eqb_neq in E. congruence. }
  unfold Plots.get_time_column, Plots.TIME_COLUMNS. cbn [find].
  rewrite (bool_decide_eq_false_2 _ Hts).
  assert (Htime : "time"%string ∈ renamed <-> "time"%string ∈ Normalizer.columns df)
    by (apply Hmem; discriminate).
  assert (Hframe : "frame_id"%string ∈ renamed <-> "frame_id"%string ∈ Normalizer.columns df)
    by (apply Hmem; discriminate).
  rewrite (bool_decide_ext _ _ Htime), (bool_decide_ext _ _ Hframe).
  destruct (bool_decide ("time"%string ∈ Normalizer.columns df)); [reflexivity |].
  destruct (bool_decide ("frame_id"%string ∈ Normalizer.columns df)); reflexivity.
Qed.

Lemma normalized_table_time_column_witness :
  Plots.get_time_column
    (Normalizer.columns (Normalizer.rename_timestamp Sample.frame_in_seconds))
  = if bool_decide ("time"%string ∈ Normalizer.columns Sample.frame_in_seconds)
    then Some "time"%string
    else if bool_decide ("frame_id"%string ∈ Normalizer.columns Sample.frame_in_seconds)
         then Some "frame_id"%string
         else None.
Proof.
  apply (normalized_table_time_column "dos_can_results.csv" Sample.frame_in_seconds None None).
  vm_compute. reflexivity.
Defined.

(** ** What acceptance implies *)

(** X25. Acceptance by the SECOC receiver is sound.  Whatever a
    connection delivered and whatever the state was, when
    [handle_connection] logs a valid message then the bytes it took off
    the stream are the sender's framing of a message and a tag where the
    message has exactly 56 bytes, the tag is the HMAC-SHA-256 of the
    message cut to the tag's length, the timestamp is at most five seconds
    from the receiver's clock either way (and the age logged is their
    difference), the fingerprint was not in the replay cache and is
    recorded by this call, the random draw was not below the drop
    probability, and the 48-byte payload unpacks. *)
Theorem secoc_acceptance_sound {P : Primitives} (conn : Wire.socket)
    (env : Secoc.environment) (st st' : Secoc.replay_state) (age : Z) :
  Secoc.handle_connection conn env st = (st', Secoc.ValidMessage age) ->
  exists message tag wire rest,
    Secoc.send_envelope message tag = inr wire
    /\ Stream.pending conn = wire ++ rest
    /\ Secoc.valid_envelope message tag
    /\ Secoc.fresh (Secoc.now env) message
    /\ age = Secoc.now env - Wire.int_from_bytes_big (Wire.last8 message)
    /\ (Secoc.fingerprint message tag ∉ Secoc.REPLAY_SET st)
    /\ st' = snd (Secoc.record_replay (Secoc.fingerprint message tag) st)
    /\ (fst (Secoc.compute_drop_prob (Secoc.cpu_percent env)) <= Secoc.random_draw env)%Q
    /\ exists t, Codec.unpack (Wire.all_but_last8 message) = Some t.
Proof.
  unfold Secoc.handle_connection. intros Hrun.
  destruct (Secoc.read_envelope conn) as [[[[message tag_len] tag] | e |] conn'] eqn:Hread;
    [| destruct e; discriminate Hrun | discriminate Hrun].
  destruct (secoc_read_envelope_reframes conn conn' _ _ _ Hread)
    as (Htl & Hm & Ht & wire & Hwire & Hpending).
  subst tag_len. exists message, tag, wire, (Stream.pending conn').
  split; [exact Hwire |]. split; [exact Hpending |].
  unfold Secoc.check_envelope in Hrun.
  destruct (length message <? 56)%nat eqn:Elen; [discriminate Hrun |].
  apply Nat.ltb_ge in Elen.
  rewrite unpack_Q_last8 in Hrun by lia.
  destruct (Secoc.FRESHNESS_MAX_AGE <? _) eqn:E1; [discriminate Hrun |].
  destruct (Secoc.FRESHNESS_FUTURE_TOL <? _) eqn:E2; [discriminate Hrun |].
  apply Z.ltb_ge in E1, E2.
  assert (Hsplit : Wire.all_but_last8 message ++ Wire.last8 message = message)
    by apply take_drop.
  rewrite Hsplit in Hrun.
  destruct (decide (take (length tag) (hmac_sha256_digest Secoc.SECRET_KEY message) <> tag))
    as [? | Htag]; [discriminate Hrun |].
  apply dec_stable in Htag.
  fold (Secoc.fingerprint message tag) in Hrun.
  destruct (decide (Secoc.fingerprint message tag ∈ Secoc.REPLAY_SET st)) as [? | Hnew];
    [discriminate Hrun |].
  destruct (Secoc.record_replay (Secoc.fingerprint message tag) st) as [r st1] eqn:Hrec.
  destruct (Secoc.compute_drop_prob (Secoc.cpu_percent env)) as [prob cpu] eqn:Hprob.
  assert (Hok : st' = st1 /\ (prob <= Secoc.random_draw env)%Q
                /\ length (Wire.all_but_last8 message) = Secoc.PAYLOAD_SIZE
                /\ age = Secoc.now env - Wire.int_from_bytes_big (Wire.last8 message)).
  { destruct r as [b | e |]; try discriminate Hrun;
      (destruct (Qlt_le_dec (Secoc.random_draw env) prob) as [? | Hdraw];
       [discriminate Hrun |]);
      (destruct (length (Wire.all_but_last8 message) =? Secoc.PAYLOAD_SIZE)%nat eqn:E48;
       [| discriminate Hrun]);
      apply Nat.eqb_eq in E48; injection Hrun as <- <-; auto. }
  destruct Hok as (-> & Hdraw & H48 & ->).
  assert (H56 : length message = 56%nat).
  { unfold Wire.all_but_last8 in H48. rewrite length_take in H48.
    change Secoc.PAYLOAD_SIZE with 48%nat in H48. lia. }
  split; [split; [exact H56 | split; [exact Ht | now symmetry]] |].
  split; [split; assumption |]. split; [reflexivity |]. split; [exact Hnew |].
  split; [reflexivity |]. split; [exact Hdraw |].
  destruct (unpack_then_pack (Wire.all_but_last8 message) H48) as (t & Ht48 & _).
  eauto.
Qed.

Lemma secoc_acceptance_sound_witness :
  exists message tag wire rest,
    Secoc.send_envelope message tag = inr wire
    /\ Stream.pending Sample.secoc_conn = wire ++ rest
    /\ Secoc.valid_envelope (H := Sample.primitives) message tag
    /\ Secoc.fresh (Secoc.now Sample.idle) message
    /\ Secoc.now Sample.idle - Wire.int_from_bytes_big (Wire.last8 Sample.message)
       = Secoc.now Sample.idle - Wire.int_from_bytes_big (Wire.last8 message).
Proof.
  destruct (secoc_acceptance_sound (P := Sample.primitives) Sample.secoc_conn Sample.idle
              Secoc.initial_state
              (fst (Secoc.handle_connection (H := Sample.primitives) Sample.secoc_conn
                      Sample.idle Secoc.initial_state))
              (Secoc.now Sample.idle - Wire.int_from_bytes_big (Wire.last8 Sample.message)))
    as (message & tag & wire & rest & H1 & H2 & H3 & H4 & H5 & _).
  - vm_compute. reflexivity.
  - exists message, tag, wire, rest. auto.
Defined.

(** X26. Verification by the PQC receiver is sound.  When a worker turn
    ends with a verified message, the item was the oldest in the queue,
    its message carries a timestamp within 30 seconds of the worker's
    clock, its fingerprint was not in the replay cache and has been
    handed to the cache update, and the Dilithium2 verifier accepted the
    signature for the message under the public key that came with it. *)
Theorem pqc_verified_sound {P : Primitives} {S : SetPop} (now : Z) (st st' : Pqc.state) :
  Pqc.worker_step now st = (st', Some Pqc.Verified) ->
  exists item queue',
    Pqc.MSG_QUEUE st = item :: queue' /\ Pqc.MSG_QUEUE st' = queue'
    /\ (8 <= length (Pqc.item_message item))%nat
    /\ Pqc.fresh now (Pqc.item_message item)
    /\ (Pqc.fingerprint (Pqc.item_message item) (Pqc.item_signature item)
        ∉ Pqc.SEEN_HASHES st)
    /\ Pqc.SEEN_HASHES st'
       = Pqc.remember (Pqc.fingerprint (Pqc.item_message item) (Pqc.item_signature item))
           (Pqc.SEEN_HASHES st)
    /\ dilithium2_verify (Pqc.item_message item) (Pqc.item_signature item)
         (Pqc.item_public_key item) = inr true.
Proof.
  unfold Pqc.worker_step. intros Hrun.
  destruct (Pqc.MSG_QUEUE st) as [| item queue'] eqn:Eq; [discriminate Hrun |].
  exists item, queue'. split; [reflexivity |].
  unfold Pqc.handle_message in Hrun. cbv zeta in Hrun.
  destruct (Wire.unpack_Q (Wire.last8 (Pqc.item_message item))) as [ts |] eqn:Ets;
    [| discriminate Hrun].
  assert (Hlen8 : length (Wire.last8 (Pqc.item_message item)) = 8%nat).
  { unfold Wire.unpack_Q in Ets.
    destruct (length (Wire.last8 (Pqc.item_message item)) =? 8)%nat eqn:E8;
      [now apply Nat.eqb_eq in E8 | discriminate Ets]. }
  assert (Hlen : (8 <= length (Pqc.item_message item))%nat).
  { unfold Wire.last8 in Hlen8. rewrite length_drop in Hlen8. lia. }
  rewrite unpack_Q_last8 in Ets by exact Hlen. injection Ets as <-.
  destruct (Pqc.FRESHNESS_WINDOW <? _) eqn:Ew; [discriminate Hrun |].
  apply Z.ltb_ge in Ew.
  fold (Pqc.fingerprint (Pqc.item_message item) (Pqc.item_signature item)) in Hrun.
  destruct (decide (_ ∈ Pqc.SEEN_HASHES st)) as [? | Hnew]; [discriminate Hrun |].
  destruct (dilithium2_verify _ _ _) as [e | [|]] eqn:Ev; try discriminate Hrun.
  injection Hrun as <-. cbn [Pqc.MSG_QUEUE Pqc.SEEN_HASHES].
  repeat split; try assumption; reflexivity.
Qed.

Lemma pqc_verified_sound_witness :
  exists item queue',
    [Sample.pqc_item] = item :: queue'
    /\ Pqc.fresh 1000 (Pqc.item_message item)
    /\ dilithium2_verify (Primitives := Sample.primitives) (Pqc.item_message item)
         (Pqc.item_signature item) (Pqc.item_public_key item) = inr true.
Proof.
  destruct (pqc_verified_sound (P := Sample.primitives) (S := set_pop_first) 1000
              {| Pqc.SEEN_HASHES := ∅; Pqc.MSG_QUEUE := [Sample.pqc_item] |}
              (fst (Pqc.worker_step (H := Sample.primitives) (H0 := set_pop_first) 1000
                      {| Pqc.SEEN_HASHES := ∅; Pqc.MSG_QUEUE := [Sample.pqc_item] |})))
    as (item & queue' & Hq & _ & _ & Hfresh & _ & _ & Hv).
  - vm_compute. reflexivity.
  - exists item, queue'. cbn [Pqc.MSG_QUEUE] in Hq. auto.
Defined.
